(** * clutchlaps: the fetch-batch tracker of the schedule spider and the
    normalisation/load pipeline of the data transformer

    Shallow embedding of
    - [ekstraligapl/spiders/ekstraliga_match.py] (class [ScheduleSpider]):
      the bookkeeping of [pending_match_requests] / [start_url_meta] done by
      [start_requests], [parse] and the [finally] block of
      [parse_match_details];
    - [pipeline/data_transformer.py]: [parse_score], [get_or_create_id] and
      [transform_and_load].

    Strings are Rocq strings; [str.strip], [str.upper], [str.isdigit] and
    [int] are embedded as Python defines them on ASCII text. *)

From stdpp Require Import base option list gmap strings fin_maps fin_sets.
From Stdlib Require Import ZArith Lia Ascii.

Set Warnings "-clear-no-such-hyp".


(** Python truthiness of a [str]: only the empty string is falsy. *)
Definition truthy (s : string) : bool :=
  match s with EmptyString => false | String _ _ => true end.

(** Truthiness of a value that is [None] or a [str]. *)
Definition truthy_opt (o : option string) : bool :=
  match o with None => false | Some s => truthy s end.

(* ===================================================================== *)
(** ** The schedule spider's batch tracking *)
(* ===================================================================== *)

(** The part of the spider object the tracking code reads and writes.
    [start_url_meta] holds the [is_current_season] column as fetched, which
    may be NULL ([None]); [db_connected] is [self.cursor and self.conn]. *)
Record ScheduleSpider := mkSpider {
  pending_match_requests : gmap string (gset string);
  start_url_meta : gmap string (option bool);
  db_connected : bool
}.

(** What the tracking code does besides updating the spider: the log lines
    it writes and the one store write it issues. *)
Inductive Effect :=
| LogAllCompleted (starting_url : string)
    (* "All match requests completed for starting URL" *)
| ExecUpdateIsScraped (starting_url : string)
    (* UPDATE public.data_source SET is_scraped = true WHERE url = ...; commit *)
| LogNoConnection (starting_url : string)
| LogSkipCurrentSeason (starting_url : string)
| LogUnknownSeason (starting_url : string)
| WarnNotPending (match_url starting_url : string)
| WarnUnknownStartingUrl (starting_url match_url : string)
| WarnMissingKeys
| WarnInitializing (starting_url match_url : string)
| ErrMissingStartingUrl (match_url : string).

#[global] Instance Effect_eq_dec : EqDecision Effect.
Proof. solve_decision. Defined.

Definition set_pending (s : ScheduleSpider) (url : string) (p : gset string)
  : ScheduleSpider :=
  mkSpider (<[url := p]> (pending_match_requests s)) (start_url_meta s)
           (db_connected s).

(** One iteration of the loop of [start_requests]:
    [self.start_url_meta[url] = is_current;
     self.pending_match_requests[url] = set()]. *)
Definition start_request (s : ScheduleSpider) (url : string)
    (is_current : option bool) : ScheduleSpider :=
  mkSpider (<[url := ∅]> (pending_match_requests s))
           (<[url := is_current]> (start_url_meta s))
           (db_connected s).

(** [parse], the registration of one match link before its request is
    yielded (lines 188-195). *)
Definition register_match (s : ScheduleSpider) (starting_url match_url : string)
  : ScheduleSpider * list Effect :=
  match pending_match_requests s !! starting_url with
  | Some pending => (set_pending s starting_url (pending ∪ {[match_url]}), [])
  | None => (set_pending s starting_url {[match_url]},
             [WarnInitializing starting_url match_url])
  end.

(** The branch taken once the pending set of [starting_url] is empty
    (lines 598-617). *)
Definition batch_completed (s : ScheduleSpider) (starting_url : string)
  : list Effect :=
  LogAllCompleted starting_url ::
  match default None (start_url_meta s !! starting_url) with
  | Some false =>
      if db_connected s then [ExecUpdateIsScraped starting_url]
      else [LogNoConnection starting_url]
  | Some true => [LogSkipCurrentSeason starting_url]
  | None => [LogUnknownSeason starting_url]
  end.

(** The tracking part of the [finally] block of [parse_match_details]
    (lines 590-628). [set.remove] raises [KeyError] when the URL is not in
    the set; the handler only logs. *)
Definition finally_block (s : ScheduleSpider) (starting_url match_url : string)
  : ScheduleSpider * list Effect :=
  if truthy starting_url && truthy match_url then
    match pending_match_requests s !! starting_url with
    | Some pending =>
        if decide (match_url ∈ pending) then
          let pending' := pending ∖ {[match_url]} in
          let s' := set_pending s starting_url pending' in
          if decide (pending' = ∅)
          then (s', batch_completed s' starting_url)
          else (s', [])
        else (s, [WarnNotPending match_url starting_url])
    | None => (s, [WarnUnknownStartingUrl starting_url match_url])
    end
  else (s, [WarnMissingKeys]).

(** A response delivered to [parse_match_details]: the two meta keys the
    tracking reads, and whether the scraping in the [try] block raises. *)
Record Response := mkResponse {
  meta_starting_url : option string;
  meta_match_url : string;
  scraping_raises : bool
}.

(** [parse_match_details] as far as tracking goes: without a starting URL it
    returns before the [try]; otherwise the [finally] block runs whether or
    not the body raised. The third component tells whether the exception
    leaves the callback. *)
Definition parse_match_details (s : ScheduleSpider) (r : Response)
  : ScheduleSpider * list Effect * bool :=
  if truthy_opt (meta_starting_url r) then
    let '(s', out) :=
      finally_block s (default "" (meta_starting_url r)) (meta_match_url r) in
    (s', out, scraping_raises r)
  else (s, [ErrMissingStartingUrl (meta_match_url r)], false).

(** One link container of a schedule page, as [parse] sees it: the absolute
    URL when the href matches the match-link pattern, and the answer of the
    existence query [SELECT 1 FROM matches WHERE match_url = %s]. *)
Inductive ExistsCheck := RowFound | RowNotFound | CheckRaised.

Record Container := mkContainer {
  match_link : option string;
  exists_check : ExistsCheck
}.

(** The match URL for which [parse] registers and yields a request, if any
    (lines 151-178). *)
Definition container_request (connected : bool) (c : Container)
  : option string :=
  match match_link c with
  | None => None
  | Some url =>
      if connected then
        match exists_check c with
        | RowFound => None
        | RowNotFound | CheckRaised => Some url
        end
      else Some url
  end.

(** The events of a crawl, each atomic with respect to the others: callbacks
    run on one event loop, and the tracking code of a callback contains no
    await. *)
Inductive Event :=
| StartRequest (url : string) (is_current : option bool)
| Register (starting_url match_url : string)
| MatchDetails (r : Response).

(** The registrations [parse] performs for a schedule page: none without
    the [starting_url] meta key or without containers. *)
Definition parse (s : ScheduleSpider) (starting_url : option string)
    (containers : list Container) : list Event :=
  match starting_url with
  | Some u =>
      if truthy u then
        omap (λ c, Register u <$> container_request (db_connected s) c)
             containers
      else []
  | None => []
  end.

Definition crawl_step (s : ScheduleSpider) (e : Event) : ScheduleSpider * list Effect :=
  match e with
  | StartRequest url cur => (start_request s url cur, [])
  | Register b c => register_match s b c
  | MatchDetails r => (parse_match_details s r).1
  end.

Fixpoint crawl_run (s : ScheduleSpider) (evs : list Event)
  : ScheduleSpider * list Effect :=
  match evs with
  | [] => (s, [])
  | e :: evs =>
      let '(s1, out1) := crawl_step s e in
      let '(s2, out2) := crawl_run s1 evs in
      (s2, out1 ++ out2)
  end.

(** How often the batch-completion branch was entered for [b]. *)
Definition fired (b : string) (out : list Effect) : nat :=
  length (filter (λ e, e = LogAllCompleted b) out).


(** The event opens batch [b] or registers a child with it. *)
Definition touches_registration (b : string) (e : Event) : bool :=
  match e with
  | StartRequest u _ => bool_decide (u = b)
  | Register u _ => bool_decide (u = b)
  | MatchDetails _ => false
  end.



(* ===================================================================== *)
(** ** Python string operations used by the transformer *)
(* ===================================================================== *)

Definition chars (s : string) : list ascii := String.list_ascii_of_string s.
Definition str (l : list ascii) : string := String.string_of_list_ascii l.

Definition code (c : ascii) : nat := Ascii.nat_of_ascii c.

(** [str.isspace] on an ASCII character: TAB, LF, VT, FF, CR, the four
    separators FS, GS, RS, US, and the space. *)
Definition is_space (c : ascii) : bool :=
  ((9 <=? code c) && (code c <=? 13) || (28 <=? code c) && (code c <=? 32))%nat.

Definition is_digit (c : ascii) : bool :=
  ((48 <=? code c) && (code c <=? 57))%nat.

Definition digit_value (c : ascii) : Z := Z.of_nat (code c - 48).

Definition upper_char (c : ascii) : ascii :=
  if ((97 <=? code c) && (code c <=? 122))%nat
  then Ascii.ascii_of_nat (code c - 32) else c.

Fixpoint lstrip (l : list ascii) : list ascii :=
  match l with
  | c :: r => if is_space c then lstrip r else l
  | [] => []
  end.

Definition strip_chars (l : list ascii) : list ascii :=
  rev (lstrip (rev (lstrip l))).

(** [s.strip()] *)
Definition py_strip (s : string) : string := str (strip_chars (chars s)).

(** [s.upper()] *)
Definition py_upper (s : string) : string := str (upper_char <$> chars s).

(** [c in s] for a one-character [c] *)
Definition py_contains (c : ascii) (s : string) : bool :=
  bool_decide (c ∈ chars s).

(** [s.replace(c, '')] for a one-character [c] *)
Definition py_remove_char (c : ascii) (s : string) : string :=
  str (filter (λ x, x ≠ c) (chars s)).

Fixpoint is_prefix (p l : list ascii) : bool :=
  match p, l with
  | [], _ => true
  | a :: p', b :: l' => bool_decide (a = b) && is_prefix p' l'
  | _ :: _, [] => false
  end.

(** Removal of the non-overlapping occurrences of [old], found from the left;
    [skip] counts the characters of the occurrence being dropped. *)
Fixpoint remove_sub_go (old : list ascii) (skip : nat) (l : list ascii)
  : list ascii :=
  match l with
  | [] => []
  | c :: r =>
      match skip with
      | S k => remove_sub_go old k r
      | O => if is_prefix old l
             then remove_sub_go old (length old - 1) r
             else c :: remove_sub_go old 0 r
      end
  end.

(** [s.replace(old, '')] for a non-empty [old] *)
Definition py_remove (old : string) (s : string) : string :=
  str (remove_sub_go (chars old) 0 (chars s)).

(** [s.isdigit()] on ASCII text: at least one character, all of them
    decimal digits. *)
Definition py_isdigit (s : string) : bool :=
  match chars s with
  | [] => false
  | l => forallb is_digit l
  end.

(** The digits after the first one of an integer literal: a digit, or an
    underscore followed by a digit. *)
Fixpoint digits_value (acc : Z) (l : list ascii) : option Z :=
  match l with
  | [] => Some acc
  | c :: r =>
      if is_digit c then digits_value (10 * acc + digit_value c)%Z r
      else if bool_decide (c = "_"%char) then
        match r with
        | d :: r' =>
            if is_digit d then digits_value (10 * acc + digit_value d)%Z r'
            else None
        | [] => None
        end
      else None
  end.

Definition unsigned_value (l : list ascii) : option Z :=
  match l with
  | c :: r => if is_digit c then digits_value (digit_value c) r else None
  | [] => None
  end.

(** [int(s)]: surrounding whitespace is ignored, then an optional sign and
    decimal digits that single underscores may separate; [None] stands for
    [ValueError]. (The interpreter's cap on the number of digits of a
    conversion is not modelled.) *)
Definition py_int (s : string) : option Z :=
  match strip_chars (chars s) with
  | "+"%char :: r => unsigned_value r
  | "-"%char :: r => Z.opp <$> unsigned_value r
  | l => unsigned_value l
  end.

(** [not value.strip()]: the string is empty or whitespace only. *)
Definition blank (s : string) : bool := negb (truthy (py_strip s)).

(** [parse_score]: numeric points, bonus flag and accident text of a raw
    score; [None] is an absent score. *)
Definition parse_score (score_raw : option string)
  : Z * bool * option string :=
  match score_raw with
  | None => (0%Z, false, None)
  | Some raw =>
      if negb (truthy raw) || bool_decide (py_strip raw = "")
      then (0%Z, false, None)
      else
        let score_str := py_upper (py_strip raw) in
        let with_bonus := py_contains "'"%char score_str in
        let score_str :=
          if with_bonus then py_remove_char "'"%char score_str
          else score_str in
        match py_int score_str with
        | Some points => (points, with_bonus, None)
        | None => (0%Z, with_bonus, Some score_str)
        end
  end.

(* ===================================================================== *)
(** ** The data transformer: documents, store and connection *)
(* ===================================================================== *)

(** What the embedding takes from the Python runtime as it is: [float(s)]
    and [datetime.strptime(s, '%d.%m.%Y %H:%M')], each [None] where Python
    raises [ValueError]. *)
Class PyRuntime := {
  pyfloat : Type;
  float_of_str : string → option pyfloat;
  datetime : Type;
  strptime : string → option datetime
}.

(** *** The inbound document

    The JSON object written by [parse_match_details] (section 6 of the
    callback). A field is an [option] where the spider can write [null] or
    where [transform_and_load] tests the value for absence. *)

(** An entry of [riders] in a team block. *)
Record RiderData := mkRider {
  rd_number : string;
  rd_name : string;
  rd_scores : list string;
  rd_sum : string;
  rd_bonus : string
}.

Record TeamData := mkTeam {
  tm_team_name : option string;
  tm_manager : option string;
  tm_coach : option string;
  tm_head_of_team : option string;
  tm_riders : list RiderData
}.

(** [team1] / [team2]: missing (or an empty object), the text the spider
    writes when it found no lineup, or a team object. *)
Inductive TeamBlock :=
| TeamAbsent
| TeamText (s : string)
| TeamDict (t : TeamData).

(** An entry of [riders] in a heat. *)
Record ParticipantData := mkParticipant {
  pt_starting_field : option string;
  pt_helmet_color : option string;
  pt_substituted_rider : option string;
  pt_rider : option string;
  pt_rider_score : option string;
  pt_warning : option string
}.

Record HeatData := mkHeat {
  ht_heat_number : option string;
  ht_hometeam_heat_score : option string;
  ht_awayteam_heat_score : option string;
  ht_hometeam_current_match_score : option string;
  ht_awayteam_current_match_score : option string;
  ht_riders : list ParticipantData
}.

(** An entry of [detailed_telemetry]. *)
Record HeatTelemetry := mkHeatTelemetry {
  dt_heat_number : string;
  dt_lap_time : option string;
  dt_distance : option string;
  dt_vmax_lap : option string;
  dt_lap1_time : option string;
  dt_lap2_time : option string;
  dt_lap3_time : option string;
  dt_lap4_time : option string
}.

(** An entry of [telemetry_data]; [ts_detailed_telemetry] is [None] when the
    value is not a list. *)
Record RiderTelemetry := mkRiderTelemetry {
  ts_rider_number : string;
  ts_team_code : string;
  ts_rider_name : string;
  ts_best_time : string;
  ts_vmax_summary : string;
  ts_detailed_telemetry : option (list HeatTelemetry)
}.

(** [telemetry_data]: a diagnostic text or the list of rider summaries. *)
Inductive TelemetryData :=
| TelemetryText (s : string)
| TelemetryList (l : list RiderTelemetry).

Record Document := mkDocument {
  match_url : string;
  source : option string;
  competition : option string;
  round_type : option string;
  round : option string;
  match_date : option string;
  attendance_summary : option string;
  referee : option string;
  track_commissioner : option string;
  arena : option string;
  home_team_details : option string;
  home_score_details : option string;
  away_team_details : option string;
  away_score_details : option string;
  team1 : TeamBlock;
  team2 : TeamBlock;
  match_details : list HeatData;
  telemetry_data : TelemetryData
}.

(** *** The store

    One table per relation the transformer writes. A table with a conflict
    target is a finite map from the target's columns to the rest of the row,
    the serial key first where the code reads it back. *)

(** The tables [get_or_create_id] is called for. *)
Inductive Lookup := Arenas | Competitions | Referees | TrackCommissioners | Riders.

(** A natural-key table. [lt_hidden] holds the keys the unique index knows
    but a SELECT of this session does not return (rows of a transaction in
    flight elsewhere, or a damaged index): an INSERT of such a key meets a
    conflict and a SELECT finds nothing. In a store at rest it is empty. *)
Record LookupTable := mkLookupTable {
  lt_rows : gmap string Z;
  lt_hidden : gset string;
  lt_next : Z
}.

Record TeamRow := mkTeamRow {
  team_id : Z;
  team_code : option string;
  full_name : option string;
  team_arena_id : option Z
}.

Record MatchFields `{PyRuntime} := mkMatchFields {
  m_source_system : option string;
  m_competition_id : option Z;
  m_round_type : option string;
  m_round_name : option string;
  m_match_datetime : option datetime;
  m_attendance : option Z;
  m_referee_id : option Z;
  m_track_commissioner_id : option Z;
  m_arena_id : option Z;
  m_home_team_id : option Z;
  m_away_team_id : option Z;
  m_home_score : Z;
  m_away_score : Z;
  m_telemetry_data_status : TelemetryData
}.

Arguments mkMatchFields {_}.

Record TeamInfoFields := mkTeamInfoFields {
  ti_match_specific_team_name : option string;
  ti_manager_name : option string;
  ti_coach_name : option string;
  ti_head_of_team_name : option string
}.

Record RiderStatFields := mkRiderStatFields {
  rs_rider_number_in_match : string;
  rs_total_sum_points : option Z;
  rs_total_bonus_points : option Z;
  rs_raw_scores_array : list string
}.

Record HeatFields := mkHeatFields {
  hf_heat_display_number : string;
  hf_hometeam_heat_score : option Z;
  hf_awayteam_heat_score : option Z;
  hf_hometeam_current_match_score_after_heat : option Z;
  hf_awayteam_current_match_score_after_heat : option Z
}.

Record ParticipantFields `{PyRuntime} := mkParticipantFields {
  pf_rider_name : option string;
  pf_substituted_rider_name : option string;
  pf_starting_gate : option string;
  pf_helmet_color : option string;
  pf_score_raw : option string;
  pf_score : Z;
  pf_with_bonus : bool;
  pf_accident : option string;
  pf_with_warning : bool;
  pf_lap_time_seconds : option pyfloat;
  pf_distance_meters : option pyfloat;
  pf_vmax_kmh : option pyfloat;
  pf_lap1_time_seconds : option pyfloat;
  pf_lap2_time_seconds : option pyfloat;
  pf_lap3_time_seconds : option pyfloat;
  pf_lap4_time_seconds : option pyfloat
}.

Arguments mkParticipantFields {_}.

Record DB `{PyRuntime} := mkDB {
  arenas : LookupTable;
  competitions : LookupTable;
  referees : LookupTable;
  track_commissioners : LookupTable;
  riders : LookupTable;
  teams : list TeamRow;
  teams_next : Z;
  (* match_url ↦ (match_id, fields) *)
  matches : gmap string (Z * MatchFields);
  matches_next : Z;
  (* (match_id, team_id) ↦ fields *)
  match_team_info : gmap (Z * Z) TeamInfoFields;
  (* (match_id, team_id, rider_id) ↦ (match_rider_stat_id, fields) *)
  match_rider_stats : gmap (Z * Z * Z) (Z * RiderStatFields);
  match_rider_stats_next : Z;
  (* (match_id, heat_sequence_in_match) ↦ (heat_id, fields) *)
  heats : gmap (Z * Z) (Z * HeatFields);
  heats_next : Z;
  (* (heat_id, match_rider_stat_id) ↦ fields *)
  heat_participants : gmap (Z * Z) ParticipantFields
}.

Arguments mkDB {_}.

Definition empty_table : LookupTable := mkLookupTable ∅ ∅ 1.

Definition empty_db `{PyRuntime} : DB :=
  mkDB empty_table empty_table empty_table empty_table empty_table
       [] 1 ∅ 1 ∅ ∅ 1 ∅ 1 ∅.

(** *** Exceptions and the connection *)

Inductive Exn :=
| AttributeError          (* a [str] method on [None], [.get] on a [str] *)
| OperationalError        (* the store fails a statement *)
| InFailedSqlTransaction  (* a statement after a failed one, before rollback *)
| NotNullViolation
| UniqueViolation
| CardinalityViolation    (* ON CONFLICT DO UPDATE hits a row twice *)
| FileNotFoundError
| JSONDecodeError.

(** The exceptions derived from [psycopg2.Error]. *)
Definition is_psycopg2_error (e : Exn) : bool :=
  match e with
  | OperationalError | InFailedSqlTransaction | NotNullViolation
  | UniqueViolation | CardinalityViolation => true
  | AttributeError | FileNotFoundError | JSONDecodeError => false
  end.

(** The connection with a transaction open: the tables as this session sees
    them, whether a statement of the transaction has failed, and for each
    coming statement whether the store will fail it ([faults], consumed one
    entry per statement; past its end no statement fails). *)
Record Conn `{PyRuntime} := mkConn {
  db : DB;
  txn_failed : bool;
  faults : list bool
}.

Arguments mkConn {_}.

Definition M `{PyRuntime} (A : Type) : Type := Conn → (Exn + A) * Conn.

#[global] Instance M_ret `{PyRuntime} : MRet M := λ A a c, (inr a, c).
#[global] Instance M_bind `{PyRuntime} : MBind M := λ A B f m c,
  match m c with
  | (inl e, c') => (inl e, c')
  | (inr a, c') => f a c'
  end.

Definition raise `{PyRuntime} {A} (e : Exn) : M A := λ c, (inl e, c).

(** [try: body except psycopg2.Error: handler] *)
Definition try_except_psycopg2 `{PyRuntime} {A} (body handler : M A) : M A :=
  λ c, match body c with
       | (inl e, c') => if is_psycopg2_error e then handler c' else (inl e, c')
       | r => r
       end.

(** [cursor.execute] of one statement. A statement issued after a failure in
    the same transaction is refused; otherwise the store may fail it, or it
    runs, and an error it reports fails the transaction. *)
Definition execute `{PyRuntime} {A} (stmt : DB → Exn + (A * DB)) : M A :=
  λ c,
    if txn_failed c then (inl InFailedSqlTransaction, c)
    else
      match faults c with
      | true :: fs => (inl OperationalError, mkConn (db c) true fs)
      | fs =>
          match stmt (db c) with
          | inl e => (inl e, mkConn (db c) true (tail fs))
          | inr (a, d) => (inr a, mkConn d false (tail fs))
          end
      end.

(** *** Statements on the natural-key tables *)

Definition lookup_table `{PyRuntime} (t : Lookup) (d : DB) : LookupTable :=
  match t with
  | Arenas => arenas d
  | Competitions => competitions d
  | Referees => referees d
  | TrackCommissioners => track_commissioners d
  | Riders => riders d
  end.

Definition set_lookup_table `{PyRuntime} (t : Lookup) (lt : LookupTable) (d : DB)
  : DB :=
  match t with
  | Arenas =>
      mkDB lt (competitions d) (referees d) (track_commissioners d) (riders d)
        (teams d) (teams_next d) (matches d) (matches_next d)
        (match_team_info d) (match_rider_stats d) (match_rider_stats_next d)
        (heats d) (heats_next d) (heat_participants d)
  | Competitions =>
      mkDB (arenas d) lt (referees d) (track_commissioners d) (riders d)
        (teams d) (teams_next d) (matches d) (matches_next d)
        (match_team_info d) (match_rider_stats d) (match_rider_stats_next d)
        (heats d) (heats_next d) (heat_participants d)
  | Referees =>
      mkDB (arenas d) (competitions d) lt (track_commissioners d) (riders d)
        (teams d) (teams_next d) (matches d) (matches_next d)
        (match_team_info d) (match_rider_stats d) (match_rider_stats_next d)
        (heats d) (heats_next d) (heat_participants d)
  | TrackCommissioners =>
      mkDB (arenas d) (competitions d) (referees d) lt (riders d)
        (teams d) (teams_next d) (matches d) (matches_next d)
        (match_team_info d) (match_rider_stats d) (match_rider_stats_next d)
        (heats d) (heats_next d) (heat_participants d)
  | Riders =>
      mkDB (arenas d) (competitions d) (referees d) (track_commissioners d) lt
        (teams d) (teams_next d) (matches d) (matches_next d)
        (match_team_info d) (match_rider_stats d) (match_rider_stats_next d)
        (heats d) (heats_next d) (heat_participants d)
  end.

(** [SELECT id FROM t WHERE name = %s], then [fetchone()]. *)
Definition select_id `{PyRuntime} (t : Lookup) (value : string) (d : DB)
  : Exn + (option Z * DB) :=
  inr (lt_rows (lookup_table t d) !! value, d).

(** [INSERT INTO t (name) VALUES (%s) ON CONFLICT (name) DO NOTHING
    RETURNING id], then [fetchone()]. *)
Definition insert_do_nothing `{PyRuntime} (t : Lookup) (value : string) (d : DB)
  : Exn + (option Z * DB) :=
  let lt := lookup_table t d in
  if bool_decide (is_Some (lt_rows lt !! value))
     || bool_decide (value ∈ lt_hidden lt)
  then inr (None, d)
  else inr (Some (lt_next lt),
            set_lookup_table t
              (mkLookupTable (<[value := lt_next lt]> (lt_rows lt))
                             (lt_hidden lt) (lt_next lt + 1)) d).

(** [get_or_create_id(cursor, table_name, column_name, value,
    returning_id_column)] for the five tables it is called on. The first
    SELECT stands outside the [try]; the INSERT and the SELECT after a
    conflict stand inside, and a [psycopg2.Error] there is logged and
    answered with [None]. *)
Definition get_or_create_id `{PyRuntime} (t : Lookup) (value : option string)
  : M (option Z) :=
  match value with
  | None => mret None
  | Some v =>
      if blank v then mret None
      else
        result ← execute (select_id t v);
        match result with
        | Some id => mret (Some id)
        | None =>
            try_except_psycopg2
              (inserted_id ← execute (insert_do_nothing t v);
               match inserted_id with
               | Some id => mret (Some id)
               | None =>
                   result ← execute (select_id t v);
                   match result with
                   | Some id => mret (Some id)
                   | None => mret None     (* logged as an error *)
                   end
               end)
              (mret None)
        end
  end.

(** *** Statements on [teams] *)

Definition set_teams `{PyRuntime} (ts : list TeamRow) (next : Z) (d : DB) : DB :=
  mkDB (arenas d) (competitions d) (referees d) (track_commissioners d)
       (riders d) ts next (matches d) (matches_next d)
       (match_team_info d) (match_rider_stats d) (match_rider_stats_next d)
       (heats d) (heats_next d) (heat_participants d).

(** [COALESCE(a, b)] *)
Definition coalesce {A} (a b : option A) : option A :=
  match a with Some _ => a | None => b end.

(** [SELECT team_id FROM teams WHERE team_code = %s], then [fetchone()]. *)
Definition select_team_by_code `{PyRuntime} (c : string) (d : DB)
  : Exn + (option Z * DB) :=
  inr (team_id <$> List.find (λ r, bool_decide (team_code r = Some c)) (teams d),
       d).

(** [SELECT team_id FROM teams WHERE full_name = %s], then [fetchone()]. *)
Definition select_team_by_name `{PyRuntime} (n : string) (d : DB)
  : Exn + (option Z * DB) :=
  inr (team_id <$> List.find (λ r, bool_decide (full_name r = Some n)) (teams d),
       d).

(** The row after [SET full_name = COALESCE(full_name, n),
    arena_id = COALESCE(arena_id, a) WHERE team_id = id]. *)
Definition fill_name (n : option string) (a : option Z) (id : Z) (r : TeamRow)
  : TeamRow :=
  if bool_decide (team_id r = id)
  then mkTeamRow (team_id r) (team_code r) (coalesce (full_name r) n)
                 (coalesce (team_arena_id r) a)
  else r.

(** The row after [SET team_code = COALESCE(team_code, c),
    arena_id = COALESCE(arena_id, a) WHERE team_id = id]. *)
Definition fill_code (c : option string) (a : option Z) (id : Z) (r : TeamRow)
  : TeamRow :=
  if bool_decide (team_id r = id)
  then mkTeamRow (team_id r) (coalesce (team_code r) c) (full_name r)
                 (coalesce (team_arena_id r) a)
  else r.

(** [UPDATE teams SET full_name = COALESCE(full_name, %s),
    arena_id = COALESCE(arena_id, %s) WHERE team_id = %s] *)
Definition update_team_name `{PyRuntime} (n : option string) (a : option Z)
    (id : Z) (d : DB) : Exn + (unit * DB) :=
  inr ((), set_teams (fill_name n a id <$> teams d) (teams_next d) d).

(** Some row of [teams] holds the code [c]. *)
Definition code_taken (c : string) (ts : list TeamRow) : bool :=
  existsb (λ r, bool_decide (team_code r = Some c)) ts.

(** [UPDATE teams SET team_code = COALESCE(team_code, %s),
    arena_id = COALESCE(arena_id, %s) WHERE team_id = %s]; the unique index
    on [team_code] refuses a code another row holds. *)
Definition update_team_code `{PyRuntime} (c : option string) (a : option Z)
    (id : Z) (d : DB) : Exn + (unit * DB) :=
  if existsb (λ r, bool_decide (team_id r = id)
                   && bool_decide (team_code r = None)) (teams d)
     && from_option (λ c', code_taken c' (teams d)) false c
  then inl UniqueViolation
  else inr ((), set_teams (fill_code c a id <$> teams d) (teams_next d) d).

(** [INSERT INTO teams (team_code, full_name, arena_id) VALUES (%s, %s, %s)
    ON CONFLICT (team_code) DO NOTHING RETURNING team_id], then
    [fetchone()]. *)
Definition insert_team `{PyRuntime} (c n : option string) (a : option Z) (d : DB)
  : Exn + (option Z * DB) :=
  if from_option (λ c', code_taken c' (teams d)) false c
  then inr (None, d)
  else inr (Some (teams_next d),
            set_teams (teams d ++ [mkTeamRow (teams_next d) c n a])
                      (teams_next d + 1) d).

(** The team blocks of [transform_and_load] (lines 186-315). The away block
    is the home block without the arena column: its UPDATEs leave [arena_id]
    alone and its INSERT leaves it NULL, which is what the home block does
    for an arena that is [None]. *)
Definition process_team `{PyRuntime} (team_code team_full_name : option string)
    (arena_id : option Z) : M (option Z) :=
  (* found by code *)
  id ← (if truthy_opt team_code then
          result ← execute (select_team_by_code (default "" team_code));
          match result with
          | Some id =>
              _ ← execute (update_team_name team_full_name arena_id id);
              mret (Some id)
          | None => mret None
          end
        else mret None);
  (* found by name *)
  id ← (match id with
        | None =>
            if truthy_opt team_full_name then
              result ← execute
                         (select_team_by_name (default "" team_full_name));
              match result with
              | Some id =>
                  _ ← execute (update_team_code team_code arena_id id);
                  mret (Some id)
              | None => mret None
              end
            else mret None
        | Some _ => mret id
        end);
  (* inserted *)
  match id with
  | None =>
      if truthy_opt team_code || truthy_opt team_full_name then
        inserted_id ← execute (insert_team team_code team_full_name arena_id);
        match inserted_id with
        | Some id => mret (Some id)
        | None =>
            if truthy_opt team_code then
              execute (select_team_by_code (default "" team_code))
            else mret None
        end
      else mret None
  | Some _ => mret id
  end.

(** [match_data.get(key, {}).get('team_name')] *)
Definition block_team_name `{PyRuntime} (b : TeamBlock) : M (option string) :=
  match b with
  | TeamAbsent => mret None
  | TeamText _ => raise AttributeError
  | TeamDict t => mret (tm_team_name t)
  end.

(** The team object of a block that is known not to be a text. *)
Definition block_dict (b : TeamBlock) : option TeamData :=
  match b with TeamDict t => Some t | _ => None end.

Definition block_riders (b : TeamBlock) : list RiderData :=
  from_option tm_riders [] (block_dict b).

(** Truthiness of an id that may be [None]: zero is falsy too. *)
Definition truthy_id (o : option Z) : bool :=
  match o with Some z => negb (z =? 0)%Z | None => false end.

(** The loop building [rider_name_to_id] (lines 325-331). *)
Fixpoint resolve_riders `{PyRuntime} (rs : list RiderData)
    (rider_name_to_id : gmap string Z) : M (gmap string Z) :=
  match rs with
  | [] => mret rider_name_to_id
  | rider_data :: rs =>
      let rider_name := rd_name rider_data in
      if truthy rider_name && negb (blank rider_name) then
        rider_id ← get_or_create_id Riders (Some rider_name);
        resolve_riders rs
          (if truthy_id rider_id
           then <[rider_name := default 0%Z rider_id]> rider_name_to_id
           else rider_name_to_id)
      else resolve_riders rs rider_name_to_id
  end.

(** [int(s) if s.isdigit() else None] *)
Definition int_if_digit (s : string) : option Z :=
  if py_isdigit s then py_int s else None.

(** [int(x) if x.isdigit() else 0] for the two match scores; [None.isdigit]
    raises. *)
Definition score_or_zero `{PyRuntime} (o : option string) : M Z :=
  match o with
  | None => raise AttributeError
  | Some s => mret (default 0%Z (int_if_digit s))
  end.

(** [int(x) if x.isdigit() else None] for the four heat scores. *)
Definition score_or_none `{PyRuntime} (o : option string) : M (option Z) :=
  match o with
  | None => raise AttributeError
  | Some s => mret (int_if_digit s)
  end.

Definition set_matches `{PyRuntime} (ms : gmap string (Z * MatchFields))
    (next : Z) (d : DB) : DB :=
  mkDB (arenas d) (competitions d) (referees d) (track_commissioners d)
       (riders d) (teams d) (teams_next d) ms next
       (match_team_info d) (match_rider_stats d) (match_rider_stats_next d)
       (heats d) (heats_next d) (heat_participants d).

(** [INSERT INTO matches (...) VALUES (...) ON CONFLICT (match_url) DO UPDATE
    SET ... RETURNING match_id], then [fetchone()[0]]. *)
Definition upsert_match `{PyRuntime} (url : string) (f : MatchFields) (d : DB)
  : Exn + (Z * DB) :=
  match matches d !! url with
  | Some (id, _) => inr (id, set_matches (<[url := (id, f)]> (matches d))
                                         (matches_next d) d)
  | None => inr (matches_next d,
                 set_matches (<[url := (matches_next d, f)]> (matches d))
                             (matches_next d + 1) d)
  end.

(** Pages of [execute_values]: [page_size] is 100. *)
Fixpoint paginate_go {A} (fuel : nat) (l : list A) : list (list A) :=
  match fuel with
  | O => []
  | S fuel =>
      match l with
      | [] => []
      | _ => take 100 l :: paginate_go fuel (drop 100 l)
      end
  end.

Definition paginate {A} (l : list A) : list (list A) :=
  paginate_go (length l) l.

(** [execute_values(cursor, query, argslist, fetch=True)]: one statement per
    page, the rows returned by the pages concatenated. *)
Fixpoint execute_pages `{PyRuntime} {A B}
    (stmt : list A → DB → Exn + (list B * DB)) (pages : list (list A))
  : M (list B) :=
  match pages with
  | [] => mret []
  | p :: ps =>
      r ← execute (stmt p);
      rs ← execute_pages stmt ps;
      mret (r ++ rs)
  end.

Definition execute_values `{PyRuntime} {A B}
    (stmt : list A → DB → Exn + (list B * DB)) (argslist : list A)
  : M (list B) :=
  execute_pages stmt (paginate argslist).

(** No key occurs twice among the rows of one statement. *)
Definition distinct_keys {K} `{EqDecision K} {V} (rows : list (K * V)) : bool :=
  bool_decide (NoDup rows.*1).

Definition set_match_team_info `{PyRuntime}
    (t : gmap (Z * Z) TeamInfoFields) (d : DB) : DB :=
  mkDB (arenas d) (competitions d) (referees d) (track_commissioners d)
       (riders d) (teams d) (teams_next d) (matches d) (matches_next d)
       t (match_rider_stats d) (match_rider_stats_next d)
       (heats d) (heats_next d) (heat_participants d).

(** The key of a row whose conflict target holds a column that may be
    [None]. *)
Definition team_info_key (k : Z * option Z) : option (Z * Z) :=
  team_id ← k.2; Some (k.1, team_id).

(** Modelled from the spec: the table definitions are not among the sources.
    The conflict target of each document table is its key ("one row per
    (match, team) pair"), so the store refuses a row with NULL in a column of
    the target.

    [INSERT INTO match_team_info (...) VALUES %s ON CONFLICT (match_id,
    team_id) DO UPDATE SET ...] for one page of rows. *)
Definition upsert_team_info `{PyRuntime}
    (rows : list ((Z * option Z) * TeamInfoFields)) (d : DB)
  : Exn + (list unit * DB) :=
  match mapM (λ r, k ← team_info_key r.1; Some (k, r.2)) rows with
  | None => inl NotNullViolation
  | Some keyed =>
      if distinct_keys keyed then
        inr ([], set_match_team_info
                   (foldl (λ t r, <[r.1 := r.2]> t) (match_team_info d) keyed)
                   d)
      else inl CardinalityViolation
  end.

Definition set_match_rider_stats `{PyRuntime}
    (t : gmap (Z * Z * Z) (Z * RiderStatFields)) (next : Z) (d : DB) : DB :=
  mkDB (arenas d) (competitions d) (referees d) (track_commissioners d)
       (riders d) (teams d) (teams_next d) (matches d) (matches_next d)
       (match_team_info d) t next
       (heats d) (heats_next d) (heat_participants d).

Definition rider_stat_key (k : Z * option Z * Z) : option (Z * Z * Z) :=
  team_id ← k.1.2; Some (k.1.1, team_id, k.2).

(** One row of the upsert into [match_rider_stats]: the table and serial
    after it, and the [(match_rider_stat_id, match_id, rider_id)] it
    returns. *)
Definition upsert_rider_stat_row
    (acc : gmap (Z * Z * Z) (Z * RiderStatFields) * Z * list (Z * Z * Z))
    (r : (Z * Z * Z) * RiderStatFields)
  : gmap (Z * Z * Z) (Z * RiderStatFields) * Z * list (Z * Z * Z) :=
  let '(t, next, out) := acc in
  match t !! r.1 with
  | Some (id, _) => (<[r.1 := (id, r.2)]> t, next, out ++ [(id, r.1.1.1, r.1.2)])
  | None => (<[r.1 := (next, r.2)]> t, (next + 1)%Z,
             out ++ [(next, r.1.1.1, r.1.2)])
  end.

(** [INSERT INTO match_rider_stats (...) VALUES %s ON CONFLICT (match_id,
    team_id, rider_id) DO UPDATE SET ... RETURNING match_rider_stat_id,
    match_id, rider_id] for one page of rows (NULL in the target refused, as
    for [match_team_info]). *)
Definition upsert_rider_stats `{PyRuntime}
    (rows : list ((Z * option Z * Z) * RiderStatFields)) (d : DB)
  : Exn + (list (Z * Z * Z) * DB) :=
  match mapM (λ r, k ← rider_stat_key r.1; Some (k, r.2)) rows with
  | None => inl NotNullViolation
  | Some keyed =>
      if distinct_keys keyed then
        let '(t, next, out) :=
          foldl upsert_rider_stat_row
                (match_rider_stats d, match_rider_stats_next d, []) keyed in
        inr (out, set_match_rider_stats t next d)
      else inl CardinalityViolation
  end.

Definition set_heats `{PyRuntime} (t : gmap (Z * Z) (Z * HeatFields)) (next : Z)
    (d : DB) : DB :=
  mkDB (arenas d) (competitions d) (referees d) (track_commissioners d)
       (riders d) (teams d) (teams_next d) (matches d) (matches_next d)
       (match_team_info d) (match_rider_stats d) (match_rider_stats_next d)
       t next (heat_participants d).

(** [INSERT INTO heats (...) VALUES (...) ON CONFLICT (match_id,
    heat_sequence_in_match) DO UPDATE SET ... RETURNING heat_id], then
    [fetchone()[0]]. *)
Definition upsert_heat `{PyRuntime} (match_id seq : Z) (f : HeatFields) (d : DB)
  : Exn + (Z * DB) :=
  match heats d !! (match_id, seq) with
  | Some (id, _) =>
      inr (id, set_heats (<[(match_id, seq) := (id, f)]> (heats d))
                         (heats_next d) d)
  | None =>
      inr (heats_next d,
           set_heats (<[(match_id, seq) := (heats_next d, f)]> (heats d))
                     (heats_next d + 1) d)
  end.

Definition set_heat_participants `{PyRuntime}
    (t : gmap (Z * Z) ParticipantFields) (d : DB) : DB :=
  mkDB (arenas d) (competitions d) (referees d) (track_commissioners d)
       (riders d) (teams d) (teams_next d) (matches d) (matches_next d)
       (match_team_info d) (match_rider_stats d) (match_rider_stats_next d)
       (heats d) (heats_next d) t.

(** [INSERT INTO heat_participants (...) VALUES %s ON CONFLICT (heat_id,
    match_rider_stat_id) DO UPDATE SET ...] for one page of rows. *)
Definition upsert_participants `{PyRuntime}
    (rows : list ((Z * Z) * ParticipantFields)) (d : DB)
  : Exn + (list unit * DB) :=
  if distinct_keys rows then
    inr ([], set_heat_participants
               (foldl (λ t r, <[r.1 := r.2]> t) (heat_participants d) rows) d)
  else inl CardinalityViolation.

(** *** Telemetry of a heat participant (lines 548-584) *)

(** [parse_telemetry_value]; [None] as argument is a value that is not a
    [str]. *)
Definition parse_telemetry_value `{PyRuntime} (value_str : option string)
  : option pyfloat :=
  match value_str with
  | None => None
  | Some s =>
      if blank s then None
      else float_of_str
             (py_strip (py_remove " km/h" (py_remove " m" (py_remove " s" s))))
  end.

(** The first summary of the flat list whose upper-cased name equals the
    upper-cased rider name. *)
Definition find_rider_telemetry_summary
    (all_rider_telemetry_list : list RiderTelemetry)
    (rider_name : option string) : option RiderTelemetry :=
  let rider_name_upper :=
    if truthy_opt rider_name then py_upper <$> rider_name else None in
  List.find
    (λ s, bool_decide (Some (py_upper (ts_rider_name s)) = rider_name_upper))
    all_rider_telemetry_list.

(** The comparison of heat labels: [a.replace('.', '') == b.replace('.', '')]. *)
Definition same_heat_label (a b : string) : bool :=
  bool_decide (py_remove_char "."%char a = py_remove_char "."%char b).

(** The first lap detail of the summary whose label agrees with the heat's. *)
Definition find_heat_telemetry (rider_telemetry_summary : option RiderTelemetry)
    (heat_display_number : string) : option HeatTelemetry :=
  match rider_telemetry_summary with
  | Some summary =>
      match ts_detailed_telemetry summary with
      | Some details =>
          List.find (λ d, same_heat_label (dt_heat_number d) heat_display_number)
                    details
      | None => None
      end
  | None => None
  end.

(** The telemetry list of the document, empty when the value is a text. *)
Definition telemetry_list (t : TelemetryData) : list RiderTelemetry :=
  match t with TelemetryList l => l | TelemetryText _ => [] end.

(** The row appended to [heat_participants_data] for one entry of a heat's
    [riders], or [None] where the loop skips the entry (lines 530-609). *)
Definition participant_row `{PyRuntime} (match_id heat_id : Z)
    (rider_name_to_id : gmap string Z)
    (rider_match_stat_id_map : gmap (Z * Z) Z)
    (all_rider_telemetry_list : list RiderTelemetry)
    (heat_display_number : string) (participant_data : ParticipantData)
  : option ((Z * Z) * ParticipantFields) :=
  let rider_name := pt_rider participant_data in
  let rider_id := rider_name ≫= (rider_name_to_id !!.) in
  if truthy_id rider_id then
    match rider_match_stat_id_map !! (match_id, default 0%Z rider_id) with
    | None => None
    | Some match_rider_stat_id =>
        let score_raw := pt_rider_score participant_data in
        let '(points_numeric, with_bonus, accident_text) :=
          parse_score score_raw in
        let received_warning := truthy_opt (pt_warning participant_data) in
        let participant_telemetry_details :=
          find_heat_telemetry
            (find_rider_telemetry_summary all_rider_telemetry_list rider_name)
            heat_display_number in
        let tele (field : HeatTelemetry → option string) :=
          participant_telemetry_details ≫= (λ d, parse_telemetry_value (field d)) in
        Some ((heat_id, match_rider_stat_id),
              mkParticipantFields
                rider_name
                (pt_substituted_rider participant_data)
                (match pt_starting_field participant_data with
                 | Some g => if truthy g && negb (blank g) then Some g else None
                 | None => None
                 end)
                (pt_helmet_color participant_data)
                score_raw points_numeric with_bonus accident_text
                received_warning
                (tele dt_lap_time) (tele dt_distance) (tele dt_vmax_lap)
                (tele dt_lap1_time) (tele dt_lap2_time) (tele dt_lap3_time)
                (tele dt_lap4_time))
    end
  else None.

(** [if rows: execute_values(cursor, query, rows)] *)
Definition execute_values_if_any `{PyRuntime} {A B}
    (stmt : list A → DB → Exn + (list B * DB)) (rows : list A) : M (list B) :=
  match rows with
  | [] => mret []
  | _ => execute_values stmt rows
  end.

(** The loop over [match_details] (lines 484-637); the counter is
    incremented for every heat object, before the label is looked at. *)
Fixpoint process_heats `{PyRuntime} (match_id : Z)
    (rider_name_to_id : gmap string Z)
    (rider_match_stat_id_map : gmap (Z * Z) Z)
    (all_rider_telemetry_list : list RiderTelemetry)
    (heat_list : list HeatData) (heat_sequence_counter : Z) : M unit :=
  match heat_list with
  | [] => mret ()
  | heat_data :: rest =>
      let heat_sequence_counter := (heat_sequence_counter + 1)%Z in
      if truthy_opt (ht_heat_number heat_data) then
        let heat_display_number := default "" (ht_heat_number heat_data) in
        s1 ← score_or_none (ht_hometeam_heat_score heat_data);
        s2 ← score_or_none (ht_awayteam_heat_score heat_data);
        s3 ← score_or_none (ht_hometeam_current_match_score heat_data);
        s4 ← score_or_none (ht_awayteam_current_match_score heat_data);
        heat_id ← execute
                    (upsert_heat match_id heat_sequence_counter
                       (mkHeatFields heat_display_number s1 s2 s3 s4));
        _ ← execute_values_if_any upsert_participants
              (omap (participant_row match_id heat_id rider_name_to_id
                       rider_match_stat_id_map all_rider_telemetry_list
                       heat_display_number)
                    (ht_riders heat_data));
        process_heats match_id rider_name_to_id rider_match_stat_id_map
          all_rider_telemetry_list rest heat_sequence_counter
      else
        process_heats match_id rider_name_to_id rider_match_stat_id_map
          all_rider_telemetry_list rest heat_sequence_counter
  end.

(** *** One document (lines 162-637) *)

(** The row of [match_team_info] for a team block, if the block is a team
    object. *)
Definition team_info_rows (match_id : Z) (team_id : option Z) (b : TeamBlock)
  : list ((Z * option Z) * TeamInfoFields) :=
  match block_dict b with
  | Some t => [((match_id, team_id),
                mkTeamInfoFields (tm_team_name t) (tm_manager t) (tm_coach t)
                                 (tm_head_of_team t))]
  | None => []
  end.

(** [process_team_rider_stats(team_data, team_id)] *)
Definition rider_stat_rows (match_id : Z) (team_id : option Z)
    (rider_name_to_id : gmap string Z) (b : TeamBlock)
  : list ((Z * option Z * Z) * RiderStatFields) :=
  omap (λ rider_data,
          let rider_id := rider_name_to_id !! rd_name rider_data in
          if truthy_id rider_id then
            Some ((match_id, team_id, default 0%Z rider_id),
                  mkRiderStatFields (rd_number rider_data)
                    (int_if_digit (rd_sum rider_data))
                    (int_if_digit (rd_bonus rider_data))
                    (rd_scores rider_data))
          else None)
       (block_riders b).

(** [rider_match_stat_id_map] from the rows the upsert returned. *)
Definition stat_id_map (results : list (Z * Z * Z)) : gmap (Z * Z) Z :=
  foldl (λ m r, <[(r.1.2, r.2) := r.1.1]> m) ∅ results.

Definition match_fields `{PyRuntime} (doc : Document)
    (competition_id referee_id commissioner_id arena_id
     home_team_id away_team_id : option Z) (home_score away_score : Z)
  : MatchFields :=
  mkMatchFields
    (source doc) competition_id (round_type doc) (round doc)
    (match match_date doc with
     | Some s => if truthy s then strptime s else None
     | None => None
     end)
    (match attendance_summary doc with
     | Some s => if truthy s then int_if_digit s else None
     | None => None
     end)
    referee_id commissioner_id arena_id home_team_id away_team_id
    home_score away_score (telemetry_data doc).

(** The body of the [try] block of [transform_and_load] for one parsed
    document, up to the commit. *)
Definition transform_document `{PyRuntime} (doc : Document) : M unit :=
  arena_id ← get_or_create_id Arenas (arena doc);
  competition_id ← get_or_create_id Competitions (competition doc);
  referee_id ← get_or_create_id Referees (referee doc);
  commissioner_id ← get_or_create_id TrackCommissioners (track_commissioner doc);
  home_team_full_name ← block_team_name (team1 doc);
  away_team_full_name ← block_team_name (team2 doc);
  home_team_id ← process_team (home_team_details doc) home_team_full_name
                   arena_id;
  away_team_id ← process_team (away_team_details doc) away_team_full_name None;
  rider_name_to_id ←
    resolve_riders (block_riders (team1 doc) ++ block_riders (team2 doc)) ∅;
  home_score ← score_or_zero (home_score_details doc);
  away_score ← score_or_zero (away_score_details doc);
  match_id ← execute
               (upsert_match (match_url doc)
                  (match_fields doc competition_id referee_id commissioner_id
                     arena_id home_team_id away_team_id home_score away_score));
  _ ← execute_values_if_any upsert_team_info
        (team_info_rows match_id home_team_id (team1 doc)
         ++ team_info_rows match_id away_team_id (team2 doc));
  results ← execute_values_if_any upsert_rider_stats
              (rider_stat_rows match_id home_team_id rider_name_to_id (team1 doc)
               ++ rider_stat_rows match_id away_team_id rider_name_to_id
                    (team2 doc));
  process_heats match_id rider_name_to_id (stat_id_map results)
    (telemetry_list (telemetry_data doc)) (match_details doc) 0%Z.

(** *** One file (lines 148-667) *)

(** What [open] and [json.load] make of a file of the inbound directory. *)
Inductive FileContent :=
| FileMissing
| FileNotJson
| FileJson (doc : Document).

(** [conn.commit()]: the store may fail it; on a transaction in which a
    statement has failed the server answers the COMMIT with a rollback, and
    psycopg2 does not raise. [snapshot] is the store at the start of the
    transaction. *)
Definition commit `{PyRuntime} (snapshot : DB) : M unit :=
  λ c, match faults c with
       | true :: fs => (inl OperationalError, mkConn (db c) true fs)
       | fs => (inr (), mkConn (if txn_failed c then snapshot else db c)
                               false (tail fs))
       end.

(** What processing one file leaves behind: the exception the handlers
    logged or [()] after the commit, the store, the failures the store still
    has in stock, and whether the file is now in the processed directory. *)
Record FileOutcome `{PyRuntime} := mkFileOutcome {
  fo_result : Exn + unit;
  fo_db : DB;
  fo_faults : list bool;
  fo_moved : bool
}.
Arguments mkFileOutcome {_}.

(** One iteration of the loop over the JSON files: each of the three
    handlers rolls back; [shutil.move] runs after the commit only, and its
    own failure ([move_ok] false) is logged. *)
Definition transform_file `{PyRuntime} (content : FileContent) (move_ok : bool)
    (d : DB) (fl : list bool) : FileOutcome :=
  match content with
  | FileMissing => mkFileOutcome (inl FileNotFoundError) d fl false
  | FileNotJson => mkFileOutcome (inl JSONDecodeError) d fl false
  | FileJson doc =>
      match (_ ← transform_document doc; commit d) (mkConn d false fl) with
      | (inl e, c) => mkFileOutcome (inl e) d (faults c) false
      | (inr _, c) => mkFileOutcome (inr ()) (db c) (faults c) move_ok
      end
  end.

(** The loop over the files of the inbound directory, each with what reading
    it gives and whether moving it would succeed; the result lists the files
    left in the inbound directory and those moved to the processed one. *)
Fixpoint transform_and_load `{PyRuntime}
    (files : list (string * FileContent * bool)) (d : DB) (fl : list bool)
  : DB * list string * list string :=
  match files with
  | [] => (d, [], [])
  | (filename, content, move_ok) :: rest =>
      let o := transform_file content move_ok d fl in
      let '(d', inbound, processed) :=
        transform_and_load rest (fo_db o) (fo_faults o) in
      if fo_moved o then (d', inbound, filename :: processed)
      else (d', filename :: inbound, processed)
  end.

(** *** Vocabulary of the statements *)

(** The seven telemetry columns of a participant row. *)
Definition telemetry_columns `{PyRuntime} (row : ParticipantFields)
  : list (option pyfloat) :=
  [pf_lap_time_seconds row; pf_distance_meters row; pf_vmax_kmh row;
   pf_lap1_time_seconds row; pf_lap2_time_seconds row;
   pf_lap3_time_seconds row; pf_lap4_time_seconds row].

(** The seven telemetry values of a lap detail, in the same order. *)
Definition telemetry_values (d : HeatTelemetry) : list (option string) :=
  [dt_lap_time d; dt_distance d; dt_vmax_lap d; dt_lap1_time d;
   dt_lap2_time d; dt_lap3_time d; dt_lap4_time d].




(** The document with its [arena] field replaced. *)
Definition with_arena (a : option string) (doc : Document) : Document :=
  mkDocument (match_url doc) (source doc) (competition doc) (round_type doc)
    (round doc) (match_date doc) (attendance_summary doc) (referee doc)
    (track_commissioner doc) a (home_team_details doc)
    (home_score_details doc) (away_team_details doc) (away_score_details doc)
    (team1 doc) (team2 doc) (match_details doc) (telemetry_data doc).

(** The store fails none of the next [n] statements. *)
Definition no_fault_in (n : nat) (fl : list bool) : Prop :=
  Forall (λ b, b = false) (take n fl).

(** A stand-in for the Python runtime, for evaluating the model on concrete
    documents: a float is kept as the text handed to [float], which accepts
    digits with at most one decimal point, and a date as the text handed to
    [strptime], which accepts every text of sixteen characters. *)
Definition sample_runtime : PyRuntime := {|
  pyfloat := string;
  float_of_str := λ s,
    if forallb (λ c, is_digit c || bool_decide (c = "."%char)) (chars s)
       && negb (bool_decide (chars s = []))
       && bool_decide (length (filter (λ c, c = "."%char) (chars s)) ≤ 1)%nat
    then Some s else None;
  datetime := string;
  strptime := λ s, if bool_decide (length (chars s) = 16%nat) then Some s else None
|}.

Definition sample_rider (n : string) : RiderData :=
  mkRider "9" n ["3"; "2'"; "d"; ""; ""; ""] "5" "1".

Definition sample_team (n r : string) : TeamBlock :=
  TeamDict (mkTeam (Some n) (Some "M") None None [sample_rider r]).

Definition sample_participant (r sc : string) : ParticipantData :=
  mkParticipant (Some "A") (Some "red") None (Some r) (Some sc) None.

Definition sample_heat (label : option string) : HeatData :=
  mkHeat label (Some "3") (Some "3") (Some "3") (Some "3")
         [sample_participant "Jan Kowalski" "3";
          sample_participant "Adam Nowak" "2'"].

Definition sample_detail (label : string) : HeatTelemetry :=
  mkHeatTelemetry label (Some "61.843 s") (Some "1400 m") (Some "110.5 km/h")
                  (Some "15.1 s") (Some "15.2 s") (Some "15.3 s") (Some "15.4 s").

Definition sample_document (heat_list : list HeatData) : Document :=
  mkDocument "https://ekstraliga.pl/se/mecz/1234" (Some "src")
    (Some "PGE Ekstraliga") (Some "Runda zasadnicza") (Some "Round 1")
    (Some "12.04.2024 19:00") (Some "5000") (Some "Ref") (Some "Com")
    (Some "Arena") (Some "GKM") (Some "48") (Some "WRO") (Some "42")
    (sample_team "GKM Grudziadz" "Jan Kowalski")
    (sample_team "Sparta Wroclaw" "Adam Nowak")
    heat_list
    (TelemetryList
       [mkRiderTelemetry "9" "GKM" "JAN KOWALSKI" "61.1" "111"
          (Some [sample_detail "1."; sample_detail "2."])]).


(** A document whose two sides carry the same code "GKM", with a lineup for
    the home side only, and a store that knows the home side's name under
    another code. *)
Definition one_sided_document : Document :=
  mkDocument "https://ekstraliga.pl/se/mecz/1234" (Some "src")
    (Some "PGE Ekstraliga") (Some "Runda zasadnicza") (Some "Round 1")
    (Some "12.04.2024 19:00") (Some "5000") (Some "Ref") (Some "Com")
    (Some "Arena") (Some "GKM") (Some "48") (Some "GKM") (Some "42")
    (sample_team "GKM Grudziadz" "Jan Kowalski") TeamAbsent [] (TelemetryList []).

Definition renamed_team_db : DB (H := sample_runtime) :=
  set_teams [mkTeamRow 1 (Some "GRU") (Some "GKM Grudziadz") None] 2 empty_db.

(** The document the spider writes for a page on which it found no lineup:
    both team blocks are the text "Not available". *)
Definition document_without_lineup : Document :=
  mkDocument "https://ekstraliga.pl/se/mecz/1234" (Some "src")
    (Some "PGE Ekstraliga") (Some "Runda zasadnicza") (Some "Round 1")
    (Some "12.04.2024 19:00") (Some "5000") (Some "Ref") (Some "Com")
    (Some "Arena") (Some "GKM") (Some "48") (Some "WRO") (Some "42")
    (TeamText "Not available") (TeamText "Not available") []
    (TelemetryList []).

(** *** Vocabulary of the reload statements *)

(** A connection at rest: no failed statement, no failure in stock. *)
Definition clean `{PyRuntime} (d : DB) : Conn := mkConn d false [].

(** What a natural-key table answers for [v]: the identifier it holds, or
    nothing although the unique index knows the key. *)
Definition resolved (lt : LookupTable) (v : string) (r : option Z) : Prop :=
  match r with
  | Some id => lt_rows lt !! v = Some id
  | None => lt_rows lt !! v = None ∧ v ∈ lt_hidden lt
  end.

(** [lt'] answers as [lt] does wherever [lt] answers. *)
Definition lookup_mono (lt lt' : LookupTable) : Prop :=
  ∀ v r, resolved lt v r → resolved lt' v r.

(** What a call [get_or_create_id t value] that returned [r] has settled
    about a store. *)
Definition settled `{PyRuntime} (t : Lookup) (value : option string)
    (r : option Z) (d : DB) : Prop :=
  match value with
  | Some v => if blank v then r = None else resolved (lookup_table t d) v r
  | None => r = None
  end.

(** The rows of one [execute_values] statement are in the table. *)
Definition rows_loaded {K} `{Countable K} {V} (rows : list (K * V))
    (t : gmap K V) : Prop :=
  ∀ k v, (k, v) ∈ rows → t !! k = Some v.

(** The rows of the upsert into [match_rider_stats] are in the table under
    the serial keys [out] reports. *)
Definition stats_loaded (keyed : list ((Z * Z * Z) * RiderStatFields))
    (out : list (Z * Z * Z)) (t : gmap (Z * Z * Z) (Z * RiderStatFields))
  : Prop :=
  Forall2 (λ kv o, t !! kv.1 = Some (o.1.1, kv.2)
                   ∧ o.1.2 = kv.1.1.1 ∧ o.2 = kv.1.2) keyed out.

(** The serial keys of [heats] are below the sequence and identify their
    rows. *)
Definition heats_wf `{PyRuntime} (d : DB) : Prop :=
  (∀ k id f, heats d !! k = Some (id, f) → (id < heats_next d)%Z)
  ∧ (∀ k1 k2 id f1 f2, heats d !! k1 = Some (id, f1) →
                        heats d !! k2 = Some (id, f2) → k1 = k2).

(** The columns of the heat row the loop writes for a heat object, when its
    four scores are strings. *)
Definition heat_fields (h : HeatData) : option HeatFields :=
  s1 ← ht_hometeam_heat_score h;
  s2 ← ht_awayteam_heat_score h;
  s3 ← ht_hometeam_current_match_score h;
  s4 ← ht_awayteam_current_match_score h;
  Some (mkHeatFields (default "" (ht_heat_number h)) (int_if_digit s1)
          (int_if_digit s2) (int_if_digit s3) (int_if_digit s4)).

(** The store holds, for every heat of the list that has a label, the heat
    row at the heat's position and the rows of its participants. *)
Fixpoint heats_loaded `{PyRuntime} (match_id : Z)
    (rider_name_to_id : gmap string Z)
    (rider_match_stat_id_map : gmap (Z * Z) Z)
    (all_rider_telemetry_list : list RiderTelemetry)
    (heat_list : list HeatData) (heat_sequence_counter : Z) (d : DB) : Prop :=
  match heat_list with
  | [] => True
  | h :: rest =>
      (truthy_opt (ht_heat_number h) = true →
       ∃ f heat_id,
         heat_fields h = Some f
         ∧ heats d !! (match_id, heat_sequence_counter + 1)%Z
           = Some (heat_id, f)
         ∧ NoDup (omap (participant_row match_id heat_id rider_name_to_id
                          rider_match_stat_id_map all_rider_telemetry_list
                          (default "" (ht_heat_number h)))
                       (ht_riders h)).*1
         ∧ rows_loaded
             (omap (participant_row match_id heat_id rider_name_to_id
                      rider_match_stat_id_map all_rider_telemetry_list
                      (default "" (ht_heat_number h)))
                   (ht_riders h))
             (heat_participants d))
      ∧ heats_loaded match_id rider_name_to_id rider_match_stat_id_map
          all_rider_telemetry_list rest (heat_sequence_counter + 1)%Z d
  end.

(** The rows handed to the upsert into [match_team_info] are in the store. *)
Definition team_info_loaded `{PyRuntime}
    (rows : list ((Z * option Z) * TeamInfoFields)) (d : DB) : Prop :=
  rows ≠ [] →
  ∃ keyed, mapM (λ r, k ← team_info_key r.1; Some (k, r.2)) rows = Some keyed
           ∧ NoDup keyed.*1
           ∧ rows_loaded keyed (match_team_info d).

(** The rows handed to the upsert into [match_rider_stats] are in the store
    under the serial keys of [results]. *)
Definition rider_stats_loaded `{PyRuntime}
    (rows : list ((Z * option Z * Z) * RiderStatFields))
    (results : list (Z * Z * Z)) (d : DB) : Prop :=
  match rows with
  | [] => results = []
  | _ =>
      ∃ keyed,
        mapM (λ r, k ← rider_stat_key r.1; Some (k, r.2)) rows = Some keyed
        ∧ NoDup keyed.*1
        ∧ stats_loaded keyed results (match_rider_stats d)
  end.

(** The first row of [teams] with the given code, or name. *)
Definition find_code (c : string) (ts : list TeamRow) : option TeamRow :=
  List.find (λ r, bool_decide (team_code r = Some c)) ts.

Definition find_name (n : string) (ts : list TeamRow) : option TeamRow :=
  List.find (λ r, bool_decide (full_name r = Some n)) ts.

(** The serial keys of [teams] are distinct and below the sequence. *)
Definition team_keys_wf (ts : list TeamRow) (nx : Z) : Prop :=
  NoDup (team_id <$> ts) ∧ Forall (λ r, (team_id r < nx)%Z) ts.

Definition teams_wf `{PyRuntime} (d : DB) : Prop :=
  team_keys_wf (teams d) (teams_next d).

(** The row with key [id] takes nothing more from the name and the arena. *)
Definition name_filled (n : option string) (a : option Z) (id : Z)
    (ts : list TeamRow) : Prop :=
  ∀ r, r ∈ ts → team_id r = id →
       coalesce (full_name r) n = full_name r
       ∧ coalesce (team_arena_id r) a = team_arena_id r.

(** The row with key [id] takes nothing more from the code and the arena. *)
Definition code_filled (c : option string) (a : option Z) (id : Z)
    (ts : list TeamRow) : Prop :=
  ∀ r, r ∈ ts → team_id r = id →
       coalesce (team_code r) c = team_code r
       ∧ coalesce (team_arena_id r) a = team_arena_id r.

(** What a team block that returned [r] for code [c], name [n] and arena [a]
    has settled about [teams]: the team is found by its code and its row is
    complete; or it is found by its name (not by its code) and its row is
    complete; or it can be neither found nor inserted; or it has neither
    code nor name. *)
Definition team_settled (c n : option string) (a : option Z) (r : option Z)
    (ts : list TeamRow) : Prop :=
  (truthy_opt c = true
   ∧ ∃ c' id, c = Some c' ∧ r = Some id
              ∧ team_id <$> find_code c' ts = Some id
              ∧ name_filled n a id ts)
  ∨ ((∀ c', c = Some c' → truthy c' = true → find_code c' ts = None)
     ∧ truthy_opt n = true
     ∧ ∃ n' id, n = Some n' ∧ r = Some id
                ∧ team_id <$> find_name n' ts = Some id
                ∧ code_filled c a id ts)
  ∨ (truthy_opt c = false ∧ truthy_opt n = true ∧ r = None
     ∧ ∃ c' n', c = Some c' ∧ n = Some n' ∧ code_taken c' ts = true
                ∧ find_name n' ts = None)
  ∨ (truthy_opt c = false ∧ truthy_opt n = false ∧ r = None).

(** The code is free in [ts] (or there is no code). *)
Definition code_free (c : option string) (ts : list TeamRow) : Prop :=
  from_option (λ c', code_taken c' ts) false c = false.

(** How a team block for code [c] and name [n] may change a row of [ts]: it
    fills an empty code with [c] (free in [ts]), an empty name with [n], an
    empty arena with anything. *)
Definition row_filled (ts : list TeamRow) (c n : option string)
    (r r' : TeamRow) : Prop :=
  team_id r' = team_id r
  ∧ (team_code r' = team_code r
     ∨ (team_code r = None ∧ team_code r' = c ∧ code_free c ts))
  ∧ (full_name r' = full_name r ∨ (full_name r = None ∧ full_name r' = n))
  ∧ (∀ x, team_arena_id r = Some x → team_arena_id r' = Some x).

(** How a team block for code [c] and name [n] may change [teams]: rows are
    filled, and at most one row with that code (free before) and name is
    appended under the next serial key. *)
Definition team_change (c n : option string) (ts : list TeamRow) (nx : Z)
    (ts' : list TeamRow) (nx' : Z) : Prop :=
  ∃ ts1 extra,
    ts' = ts1 ++ extra
    ∧ Forall2 (row_filled ts c n) ts ts1
    ∧ ((extra = [] ∧ nx' = nx)
       ∨ (∃ a, extra = [mkTeamRow nx c n a]) ∧ nx' = (nx + 1)%Z
         ∧ code_free c ts).

(** The name a team block gives its team. *)
Definition team_name_of (b : TeamBlock) : option string :=
  match b with TeamDict t => tm_team_name t | _ => None end.

(** The two sides of the document are different teams: the away side does
    not repeat the code of the home side, nor its name. *)
Definition sides_differ `{PyRuntime} (doc : Document) : Prop :=
  (truthy_opt (home_team_details doc) = true →
   away_team_details doc ≠ home_team_details doc)
  ∧ (truthy_opt (team_name_of (team1 doc)) = true →
     team_name_of (team2 doc) ≠ team_name_of (team1 doc)).

(** [int(x) if x.isdigit() else 0] of a score that is a string. *)
Definition score_value (o : option string) : Z :=
  default 0%Z (o ≫= int_if_digit).

(** The identifiers one load of a document works with. *)
Record Resolved := mkResolved {
  rv_arena_id : option Z;
  rv_competition_id : option Z;
  rv_referee_id : option Z;
  rv_commissioner_id : option Z;
  rv_home_team_id : option Z;
  rv_away_team_id : option Z;
  rv_rider_name_to_id : gmap string Z;
  rv_match_id : Z;
  rv_results : list (Z * Z * Z)
}.

(** The row of [matches] a load with the identifiers [v] writes. *)
Definition match_row `{PyRuntime} (doc : Document) (v : Resolved) : MatchFields :=
  match_fields doc (rv_competition_id v) (rv_referee_id v)
    (rv_commissioner_id v) (rv_arena_id v) (rv_home_team_id v)
    (rv_away_team_id v) (score_value (home_score_details doc))
    (score_value (away_score_details doc)).

(** The store holds the document as a load with the identifiers [v] writes
    it: the natural keys answer with [v], and every row of the five document
    tables is there with the values of the document. *)
Definition document_loaded `{PyRuntime} (doc : Document) (v : Resolved) (d : DB)
  : Prop :=
  settled Arenas (arena doc) (rv_arena_id v) d
  ∧ settled Competitions (competition doc) (rv_competition_id v) d
  ∧ settled Referees (referee doc) (rv_referee_id v) d
  ∧ settled TrackCommissioners (track_commissioner doc)
      (rv_commissioner_id v) d
  ∧ (∀ s, team1 doc ≠ TeamText s) ∧ (∀ s, team2 doc ≠ TeamText s)
  ∧ team_settled (home_team_details doc) (team_name_of (team1 doc))
      (rv_arena_id v) (rv_home_team_id v) (teams d)
  ∧ team_settled (away_team_details doc) (team_name_of (team2 doc))
      None (rv_away_team_id v) (teams d)
  ∧ resolve_riders (block_riders (team1 doc) ++ block_riders (team2 doc)) ∅
      (clean d) = (inr (rv_rider_name_to_id v), clean d)
  ∧ is_Some (home_score_details doc) ∧ is_Some (away_score_details doc)
  ∧ matches d !! match_url doc = Some (rv_match_id v, match_row doc v)
  ∧ team_info_loaded
      (team_info_rows (rv_match_id v) (rv_home_team_id v) (team1 doc)
       ++ team_info_rows (rv_match_id v) (rv_away_team_id v) (team2 doc)) d
  ∧ rider_stats_loaded
      (rider_stat_rows (rv_match_id v) (rv_home_team_id v)
         (rv_rider_name_to_id v) (team1 doc)
       ++ rider_stat_rows (rv_match_id v) (rv_away_team_id v)
            (rv_rider_name_to_id v) (team2 doc))
      (rv_results v) d
  ∧ heats_loaded (rv_match_id v) (rv_rider_name_to_id v)
      (stat_id_map (rv_results v)) (telemetry_list (telemetry_data doc))
      (match_details doc) 0%Z d.

(* ===================================================================== *)
(** ** The match page

    What [parse_match_details] (sections 1 to 4 and 6) makes of the texts
    its selectors return. A selector result is an input: [None] for a
    [.get()] that found nothing, a list for [.getall()]. The browser
    session of section 5 is an input as a whole. *)
(* ===================================================================== *)

(** [(x or "").strip()] *)
Definition strip_or_empty (o : option string) : string :=
  py_strip (default "" o).

(** [x or None] for a [str] *)
Definition none_if_empty (s : string) : option string :=
  if truthy s then Some s else None.

(** ["".join(texts)] *)
Definition join (texts : list string) : string := foldr String.append "" texts.


(** Replacement of the non-overlapping occurrences of [old], found from the
    left, by [new]; [skip] counts the characters of the occurrence being
    replaced. *)
Fixpoint replace_sub_go (old new : list ascii) (skip : nat) (l : list ascii)
  : list ascii :=
  match l with
  | [] => []
  | c :: r =>
      match skip with
      | S k => replace_sub_go old new k r
      | O => if is_prefix old l
             then new ++ replace_sub_go old new (length old - 1) r
             else c :: replace_sub_go old new 0 r
      end
  end.

(** [s.replace(old, new)] for a non-empty [old] *)
Definition py_replace (old new : string) (s : string) : string :=
  str (replace_sub_go (chars old) (chars new) 0 (chars s)).

(** The characters in front of the first [c]. *)
Fixpoint until (c : ascii) (l : list ascii) : list ascii :=
  match l with
  | [] => []
  | x :: r => if bool_decide (x = c) then [] else x :: until c r
  end.

(** [s.split(c)[-1]] for a one-character [c]: what follows the last [c]. *)
Definition after_last (c : ascii) (s : string) : string :=
  str (rev (until c (rev (chars s)))).

(** *** Section 1: match metadata *)

(** The digits at the front of a text. *)
Fixpoint leading_digits (l : list ascii) : list ascii :=
  match l with
  | c :: r => if is_digit c then c :: leading_digits r else []
  | [] => []
  end.

(** [re.search(r'(\d+)', s).group(1)]: the first run of digits, [None]
    where the search finds nothing. *)
Fixpoint first_digits (l : list ascii) : option (list ascii) :=
  match l with
  | [] => None
  | c :: r => if is_digit c then Some (c :: leading_digits r)
              else first_digits r
  end.

(** The loop over the text nodes of the round paragraph (lines 256-263). *)
Fixpoint round_info (round_text_nodes : list string) : option string :=
  match round_text_nodes with
  | [] => None
  | text :: rest =>
      let cleaned_text := py_strip text in
      if truthy cleaned_text then
        match first_digits (chars cleaned_text) with
        | Some round_number => Some ("Round " +:+ str round_number)
        | None => round_info rest
        end
      else round_info rest
  end.

(** The paragraphs of the match-info block. *)
Record MatchInfo := mkMatchInfo {
  mi_competition : option string;
  mi_round_type : option string;
  mi_round_text_nodes : list string;
  mi_match_date : option string
}.

(** [competition, round_type, round_info, match_date] (lines 250-263);
    all [None] without the block. *)
Definition match_info (match_info_element : option MatchInfo)
  : option string * option string * option string * option string :=
  match match_info_element with
  | None => (None, None, None, None)
  | Some e => (Some (strip_or_empty (mi_competition e)),
               Some (strip_or_empty (mi_round_type e)),
               round_info (mi_round_text_nodes e),
               Some (strip_or_empty (mi_match_date e)))
  end.

(** [referee, track_commissioner] from the text nodes of the two
    paragraphs of the officials block (lines 239-244). *)
Definition officials (officials_element : option (list string * list string))
  : option string * option string :=
  match officials_element with
  | None => (None, None)
  | Some (t1, t2) => (Some (py_strip (py_replace "  " " " (join t1))),
                      Some (py_strip (py_replace "  " " " (join t2))))
  end.

(** [arena] from the text nodes of the arena block (lines 246-248). *)
Definition arena_of (arena_element : option (list string)) : option string :=
  (λ texts, py_strip (py_remove "  -  " (join texts))) <$> arena_element.

(** *** Section 2: teams and scores *)

(** The first and the third of more than two elements, the two of two,
    nothing of fewer (lines 266-284). *)
Definition pick_sides (elements : list string) : option string * option string :=
  match elements with
  | e0 :: _ :: e2 :: _ => (Some (py_strip e0), Some (py_strip e2))
  | [e0; e1] => (Some (py_strip e0), Some (py_strip e1))
  | _ => (None, None)
  end.

(** *** Section 3: team lineups *)

(** A row of a lineup table: the texts of its cells; [rr_score_texts i] are
    the text nodes of the [i]-th cell. *)
Record RiderRow := mkRiderRow {
  rr_number : option string;
  rr_name_parts : list string;
  rr_last_name : option string;
  rr_score_texts : nat → list string;
  rr_sum : option string;
  rr_bonus : option string
}.

(** The rider object of a row (lines 318-326). *)
Definition rider_data (row : RiderRow) : RiderData :=
  let first_name := match rr_name_parts row with
                    | p :: _ => py_strip p
                    | [] => ""
                    end in
  let last_name := strip_or_empty (rr_last_name row) in
  mkRider (py_strip (py_remove_char "."%char (default "" (rr_number row))))
          (py_strip (first_name +:+ " " +:+ last_name))
          ((λ i, py_strip (join (rr_score_texts row i))) <$> seq 3 6)
          (strip_or_empty (rr_sum row))
          (strip_or_empty (rr_bonus row)).

(** [s.split(':')[-1].strip() if ':' in s else None] *)
Definition staff_name (s : string) : option string :=
  if py_contains ":"%char s then Some (py_strip (after_last ":"%char s))
  else None.

(** A team element: its name, the texts of its staff spans, its rows. *)
Record TeamElement := mkTeamElement {
  te_team_name : option string;
  te_staff_spans : list string;
  te_rows : list RiderRow
}.

(** The team object of a team element (lines 297-328). *)
Definition team_data (team_el : TeamElement) : TeamData :=
  let spans := te_staff_spans team_el in
  let manager := head spans ≫= staff_name in
  let '(coach, head_of_team) :=
    match spans with
    | [_; s1; s2] => (staff_name s1, staff_name s2)
    | [_; s1] => (None, staff_name s1)
    | _ => (None, None)
    end in
  mkTeam (Some (strip_or_empty (te_team_name team_el))) manager coach
         head_of_team (rider_data <$> te_rows team_el).

(** [team1_data, team2_data] (lines 288-334): [None] without the lineups
    container or with fewer than two team elements in it. *)
Definition team_lineups (team_lineups_container : option (list TeamElement))
  : option TeamData * option TeamData :=
  match team_lineups_container with
  | Some (team1_el :: team2_el :: _) =>
      (Some (team_data team1_el), Some (team_data team2_el))
  | _ => (None, None)
  end.

(** *** Section 4: heat-by-heat results *)

(** A row of a race block: the texts of its cells, the colour its class
    gives the helmet, and whether a selector raised on it. *)
Record HeatRow := mkHeatRow {
  hr_starting_field : option string;
  hr_rider : option string;
  hr_substituted_rider : option string;
  hr_helmet_color : option string;
  hr_rider_score : option string;
  hr_warning : option string;
  hr_raises : bool
}.

(** A race block: the text nodes of its header, the texts of its team-score
    cells, its rows. *)
Record RaceBlock := mkRaceBlock {
  rb_heat_text_nodes : list string;
  rb_score_elements : list (option string);
  rb_rows : list HeatRow
}.

(** [next((text.strip() for text in reversed(nodes)
          if text.strip().isdigit()), None)] *)
Definition heat_number_of (heat_text_nodes : list string) : option string :=
  List.find py_isdigit (py_strip <$> rev heat_text_nodes).

(** The entry of [riders_in_heat] for a row; a row on which a selector
    raises is logged and left out (lines 370-394). *)
Definition heat_rider (row : HeatRow) : option ParticipantData :=
  if hr_raises row then None
  else Some (mkParticipant
               (Some (strip_or_empty (hr_starting_field row)))
               (hr_helmet_color row)
               (none_if_empty (strip_or_empty (hr_substituted_rider row)))
               (Some (strip_or_empty (hr_rider row)))
               (Some (strip_or_empty (hr_rider_score row)))
               (none_if_empty (strip_or_empty (hr_warning row)))).

(** The heat object of a race block, or [None] for a block that is skipped
    because no text of its header is a number (lines 345-396). *)
Definition heat_data (block : RaceBlock) : option HeatData :=
  match heat_number_of (rb_heat_text_nodes block) with
  | None => None
  | Some heat_number =>
      if truthy heat_number then
        let riders_in_heat := omap heat_rider (rb_rows block) in
        match rb_score_elements block with
        | [s0; s1; s2; s3] =>
            Some (mkHeat (Some heat_number)
                    (Some (strip_or_empty s0)) (Some (strip_or_empty s1))
                    (Some (strip_or_empty s2)) (Some (strip_or_empty s3))
                    riders_in_heat)
        | _ => Some (mkHeat (Some heat_number) None None None None
                            riders_in_heat)
        end
      else None
  end.

(** [all_heats_data] *)
Definition all_heats_data (race_blocks : list RaceBlock) : list HeatData :=
  omap heat_data race_blocks.

(** *** Section 6: the document and its file *)

(** What the selectors of a match page return, and what section 5 made of
    the telemetry tab. *)
Record MatchPage := mkMatchPage {
  mp_match_info : option MatchInfo;
  mp_officials : option (list string * list string);
  mp_arena : option (list string);
  mp_team_name_elements : list string;
  mp_score_elements : list string;
  mp_team_lineups_container : option (list TeamElement);
  mp_race_blocks : list RaceBlock;
  mp_main_telemetry_data : TelemetryData
}.

(** [team1_data if team1_data else "Not available"] *)
Definition team_block (team_data : option TeamData) : TeamBlock :=
  match team_data with
  | Some t => TeamDict t
  | None => TeamText "Not available"
  end.

(** [match_data] (lines 553-563). *)
Definition match_data (match_url : string) (attendance_summary : option string)
    (page : MatchPage) : Document :=
  let '(competition, round_type, round_info, match_date) :=
    match_info (mp_match_info page) in
  let '(referee, track_commissioner) := officials (mp_officials page) in
  let '(home_team_details, away_team_details) :=
    pick_sides (mp_team_name_elements page) in
  let '(home_score_details, away_score_details) :=
    pick_sides (mp_score_elements page) in
  let '(team1_data, team2_data) :=
    team_lineups (mp_team_lineups_container page) in
  mkDocument match_url (Some "match_details_aggregated_with_telemetry")
    competition round_type round_info match_date attendance_summary
    referee track_commissioner (arena_of (mp_arena page))
    home_team_details home_score_details away_team_details
    away_score_details (team_block team1_data) (team_block team2_data)
    (all_heats_data (mp_race_blocks page)) (mp_main_telemetry_data page).



(* ===================================================================== *)
(** ** Vocabulary of the further properties *)
(* ===================================================================== *)

(** A heat the loop cannot write: it has a label, and one of its four team
    scores is null. *)
Definition heat_lacks_score (h : HeatData) : Prop :=
  truthy_opt (ht_heat_number h) = true
  ∧ (ht_hometeam_heat_score h = None ∨ ht_awayteam_heat_score h = None
     ∨ ht_hometeam_current_match_score h = None
     ∨ ht_awayteam_current_match_score h = None).

(** The rows of [m] are still in [m'], under the same serial key. *)
Definition ids_stable {K} `{Countable K} {V} (m m' : gmap K (Z * V)) : Prop :=
  ∀ k id f, m !! k = Some (id, f) → ∃ f', m' !! k = Some (id, f').

(** The keys of [m] are still in [m']. *)
Definition keys_kept {K} `{Countable K} {V} (m m' : gmap K V) : Prop :=
  ∀ k, is_Some (m !! k) → is_Some (m' !! k).

(** Nothing has been deleted between [d] and [d'], and no row has changed
    its serial key: the natural keys of the five lookup tables answer as
    before, the rows of [teams] are in place under their keys, and the
    document tables hold their keys (with the serial key where there is
    one). *)
Definition rows_kept `{PyRuntime} (d d' : DB) : Prop :=
  (∀ t, lt_rows (lookup_table t d) ⊆ lt_rows (lookup_table t d'))
  ∧ (team_id <$> teams d) `prefix_of` (team_id <$> teams d')
  ∧ ids_stable (matches d) (matches d')
  ∧ keys_kept (match_team_info d) (match_team_info d')
  ∧ ids_stable (match_rider_stats d) (match_rider_stats d')
  ∧ ids_stable (heats d) (heats d')
  ∧ keys_kept (heat_participants d) (heat_participants d').

(** The rows that do not belong to match [match_id] are the same in [d] and
    [d']. *)
Definition other_matches_same `{PyRuntime} (url : string) (match_id : Z)
    (d d' : DB) : Prop :=
  (∀ u, u ≠ url → matches d' !! u = matches d !! u)
  ∧ (∀ k, k.1 ≠ match_id → match_team_info d' !! k = match_team_info d !! k)
  ∧ (∀ k, k.1.1 ≠ match_id →
       match_rider_stats d' !! k = match_rider_stats d !! k)
  ∧ (∀ k, k.1 ≠ match_id → heats d' !! k = heats d !! k).

(** The tables that hold the rows of matches, without and with [heats]. *)
Definition match_tables `{PyRuntime} (d : DB) :=
  (matches d, match_team_info d, match_rider_stats d).

Definition document_tables `{PyRuntime} (d : DB) :=
  (matches d, match_team_info d, match_rider_stats d, heats d).

(** The statement takes the store to a store related to it by [R]. *)
Definition stmt_preserves `{PyRuntime} (R : DB → DB → Prop) {A}
    (stmt : DB → Exn + (A * DB)) : Prop :=
  ∀ d a d', stmt d = inr (a, d') → R d d'.

(** The computation takes the store to a store related to it by [R],
    whether it returns or raises. *)
Definition preserves `{PyRuntime} (R : DB → DB → Prop) {A} (m : M A) : Prop :=
  ∀ c r c', m c = (r, c') → R (db c) (db c').

(** The file holds a JSON document. *)
Definition is_json `{PyRuntime} (content : FileContent) : bool :=
  match content with FileJson _ => true | _ => false end.

(** On a transaction in which a statement has failed, the computation
    leaves the connection as it is, whether it returns or raises. *)
Definition stuck `{PyRuntime} {A} (m : M A) : Prop :=
  ∀ c r c', txn_failed c = true → m c = (r, c') → c' = c.

(** The page has a lineups container with two team elements. *)
Definition has_lineups (page : MatchPage) : bool :=
  match mp_team_lineups_container page with
  | Some (_ :: _ :: _) => true
  | _ => false
  end.

(** A race block that gets a heat object without team scores: its header
    has a number, and it has not exactly four score cells. *)
Definition block_lacks_scores (block : RaceBlock) : Prop :=
  is_Some (heat_number_of (rb_heat_text_nodes block))
  ∧ length (rb_score_elements block) ≠ 4%nat.

(** Where the serial keys of [teams] and of [heats] were distinct and below
    their sequences in [d], they are in [d']. *)
Definition serial_keys_kept `{PyRuntime} (d d' : DB) : Prop :=
  (teams_wf d → teams_wf d') ∧ (heats_wf d → heats_wf d').

(** A match page with its metadata, two lineups and one race block. *)
Definition sample_rider_row (first last : string) : RiderRow :=
  mkRiderRow (Some "9.") [first; " "] (Some last)
    (λ i, if (i =? 3)%nat then ["3"] else if (i =? 4)%nat then ["2"; "'"]
          else [])
    (Some "5") (Some "1").

Definition sample_heat_row (rider score : string) : HeatRow :=
  mkHeatRow (Some "A") (Some rider) None (Some "red") (Some score) None false.

Definition sample_race_block (header : list string)
    (scores : list (option string)) : RaceBlock :=
  mkRaceBlock header scores
    [sample_heat_row "Jan Kowalski" "3"; sample_heat_row "Adam Nowak" "2'"].

Definition sample_page (race_blocks : list RaceBlock) : MatchPage :=
  mkMatchPage
    (Some (mkMatchInfo (Some "PGE Ekstraliga") (Some " Runda zasadnicza ")
             [" "; "Runda 1"] (Some "12.04.2024 19:00")))
    (Some (["Ref"], ["Com"])) (Some ["Arena"])
    ["GKM"; "-"; "WRO"] ["48"; ":"; "42"]
    (Some [mkTeamElement (Some "GKM Grudziadz") ["Manager: M"]
             [sample_rider_row "Jan" "Kowalski"];
           mkTeamElement (Some "Sparta Wroclaw") []
             [sample_rider_row "Adam" "Nowak"]])
    race_blocks (TelemetryList []).
(* --------------------------------------------------------------------- *)
(** *** Frame and step lemmas *)

Lemma fired_app b (o1 o2 : list Effect) :
  fired b (o1 ++ o2) = (fired b o1 + fired b o2)%nat.
Proof. unfold fired. by rewrite filter_app, length_app. Qed.

Lemma fired_zero_iff b (out : list Effect) :
  fired b out = 0%nat ↔ LogAllCompleted b ∉ out.
Proof.
  unfold fired. induction out as [|e out IH]; simpl.
  - split; [intros _; apply not_elem_of_nil | done].
  - rewrite filter_cons. destruct (decide (e = LogAllCompleted b)) as [->|Hne].
    + simpl. split; [done | intros H; exfalso; apply H; left].
    + rewrite IH, not_elem_of_cons. naive_solver.
Qed.

Lemma batch_completed_fired b u s :
  fired b (batch_completed s u) = if decide (u = b) then 1%nat else 0%nat.
Proof.
  unfold fired, batch_completed. rewrite filter_cons.
  assert (Hrest : ∀ l : list Effect,
             (∀ e, e ∈ l → ∀ x, e ≠ LogAllCompleted x) →
             filter (λ e, e = LogAllCompleted b) l = []).
  { induction l as [|e l IH]; intros Hl; [done|].
    rewrite filter_cons, decide_False by (apply Hl; left).
    apply IH. intros e' He'. apply Hl. by right. }
  rewrite Hrest.
  - destruct (decide (u = b)) as [->|Hne].
    + by rewrite decide_True.
    + rewrite decide_False; [done | congruence].
  - intros e He x.
    destruct (default None (start_url_meta s !! u)) as [[]|];
      try destruct (db_connected s);
      apply list_elem_of_singleton in He; by subst.
Qed.

Lemma finally_block_other s u c b :
  u ≠ b →
  pending_match_requests (finally_block s u c).1 !! b
    = pending_match_requests s !! b
  ∧ start_url_meta (finally_block s u c).1 = start_url_meta s
  ∧ fired b (finally_block s u c).2 = 0%nat.
Proof.
  intros Hne. unfold finally_block.
  destruct (truthy u && truthy c); [|done].
  destruct (pending_match_requests s !! u) as [P|] eqn:HP; [|done].
  destruct (decide (c ∈ P)); [|done].
  destruct (decide (P ∖ {[c]} = ∅)); simpl;
    rewrite lookup_insert_ne by done; repeat split; try done.
  rewrite batch_completed_fired. by rewrite decide_False.
Qed.

Lemma finally_block_member s b c P :
  truthy b = true → truthy c = true →
  pending_match_requests s !! b = Some P → c ∈ P →
  pending_match_requests (finally_block s b c).1 !! b = Some (P ∖ {[c]})
  ∧ start_url_meta (finally_block s b c).1 = start_url_meta s
  ∧ fired b (finally_block s b c).2
    = if decide (P ∖ {[c]} = ∅) then 1%nat else 0%nat.
Proof.
  intros Hb Hc HP Hin. unfold finally_block. rewrite Hb, Hc, HP. simpl.
  rewrite decide_True by done.
  destruct (decide (P ∖ {[c]} = ∅)); simpl;
    rewrite lookup_insert_eq; repeat split; try done.
  rewrite batch_completed_fired. by rewrite decide_True.
Qed.

(** The completion branch is entered by a call of the [finally] block
    exactly when that call removes the last pending child. *)
Lemma finally_block_fires_iff s u c b :
  LogAllCompleted b ∈ (finally_block s u c).2
  ↔ u = b ∧ truthy c = true ∧ truthy b = true
    ∧ pending_match_requests s !! b = Some {[c]}.
Proof.
  destruct (decide (u = b)) as [->|Hne].
  - destruct (truthy b) eqn:Hb; cycle 1.
    { unfold finally_block. rewrite Hb. simpl. split; [|naive_solver].
      intros H%list_elem_of_singleton. done. }
    destruct (truthy c) eqn:Hc; cycle 1.
    { unfold finally_block. rewrite Hb, Hc. simpl. split; [|naive_solver].
      intros H%list_elem_of_singleton. done. }
    destruct (pending_match_requests s !! b) as [P|] eqn:HP; cycle 1.
    { unfold finally_block. rewrite Hb, Hc, HP. simpl. split; [|naive_solver].
      intros H%list_elem_of_singleton. done. }
    destruct (decide (c ∈ P)) as [Hin|Hnin]; cycle 1.
    { unfold finally_block. rewrite Hb, Hc, HP. simpl.
      rewrite decide_False by done. split.
      - intros H%list_elem_of_singleton. done.
      - intros (_ & _ & _ & [= ->]). set_solver. }
    destruct (finally_block_member s b c P Hb Hc HP Hin) as (_ & _ & Hf).
    destruct (decide (P ∖ {[c]} = ∅)) as [He|Hne].
    + split.
      * intros _. repeat split; try done. f_equal.
        apply set_eq. intros x. split; [|set_solver].
        intros Hx. destruct (decide (x = c)) as [->|]; [set_solver|].
        assert (x ∈ P ∖ {[c]}) by set_solver. set_solver.
      * intros _. apply dec_stable. intros Hn%fired_zero_iff. lia.
    + split.
      * intros Hin'. apply fired_zero_iff in Hf. done.
      * intros (_ & _ & _ & [= ->]). exfalso. apply Hne. set_solver.
  - destruct (finally_block_other s u c b Hne) as (_ & _ & Hf).
    apply fired_zero_iff in Hf. naive_solver.
Qed.


Lemma parse_match_details_other s r b :
  meta_starting_url r ≠ Some b →
  pending_match_requests (parse_match_details s r).1.1 !! b
    = pending_match_requests s !! b
  ∧ start_url_meta (parse_match_details s r).1.1 = start_url_meta s
  ∧ fired b (parse_match_details s r).1.2 = 0%nat.
Proof.
  intros Hne. unfold parse_match_details.
  destruct (meta_starting_url r) as [u|] eqn:Hu; simpl; [|done].
  destruct (truthy u); [|done].
  assert (u ≠ b) as Hub by congruence.
  pose proof (finally_block_other s u (meta_match_url r) b Hub) as H.
  by destruct (finally_block s u (meta_match_url r)).
Qed.


Lemma run_cons s e evs :
  crawl_run s (e :: evs)
  = ((crawl_run (crawl_step s e).1 evs).1, (crawl_step s e).2 ++ (crawl_run (crawl_step s e).1 evs).2).
Proof.
  simpl. destruct (crawl_step s e) as [s1 o1]. simpl.
  by destruct (crawl_run s1 evs) as [s2 o2].
Qed.

Lemma run_app s evs1 evs2 :
  crawl_run s (evs1 ++ evs2)
  = ((crawl_run (crawl_run s evs1).1 evs2).1, (crawl_run s evs1).2 ++ (crawl_run (crawl_run s evs1).1 evs2).2).
Proof.
  revert s. induction evs1 as [|e evs1 IH]; intros s.
  - simpl. by destruct (crawl_run s evs2).
  - rewrite <- app_comm_cons, !run_cons, IH. simpl. by rewrite app_assoc.
Qed.

(** Events that neither register with [b] nor complete one of its children
    leave its pending set alone and do not enter its completion branch. *)
Lemma step_other s e b :
  touches_registration b e = false →
  (∀ r, e = MatchDetails r → meta_starting_url r ≠ Some b) →
  pending_match_requests (crawl_step s e).1 !! b = pending_match_requests s !! b
  ∧ fired b (crawl_step s e).2 = 0%nat.
Proof.
  intros Ht Hm. destruct e as [u cur|u c|r]; simpl in *.
  - apply bool_decide_eq_false in Ht. by rewrite lookup_insert_ne.
  - apply bool_decide_eq_false in Ht. unfold register_match.
    destruct (pending_match_requests s !! u); simpl;
      by rewrite lookup_insert_ne.
  - destruct (parse_match_details_other s r b) as (H1 & _ & H2); eauto.
Qed.



Lemma elem_of_crawl_run (x : Effect) (evs : list Event) : ∀ s,
  x ∈ (crawl_run s evs).2
  ↔ ∃ before e after, evs = before ++ e :: after
      ∧ x ∈ (crawl_step (crawl_run s before).1 e).2.
Proof.
  induction evs as [|e evs IH]; intros s.
  - simpl. split; [by intros ?%elem_of_nil|].
    intros (before & e & after & Heq & _). by destruct before.
  - rewrite run_cons. simpl. rewrite elem_of_app, IH. split.
    + intros [Hx|(before & e' & after & -> & Hx)].
      * by exists [], e, evs.
      * exists (e :: before), e', after. split; [done|].
        by rewrite run_cons.
    + intros (before & e' & after & Heq & Hx).
      destruct before as [|e0 before].
      * injection Heq as -> ->. by left.
      * rewrite <- app_comm_cons in Heq. injection Heq as -> ->.
        right. exists before, e', after. split; [done|].
        by rewrite run_cons in Hx.
Qed.

Lemma crawl_step_pending_subset s e b P :
  touches_registration b e = false →
  pending_match_requests s !! b = Some P →
  ∃ P', pending_match_requests (crawl_step s e).1 !! b = Some P' ∧ P' ⊆ P.
Proof.
  intros Ht HP.
  assert (Hcase : (∃ r, e = MatchDetails r ∧ meta_starting_url r = Some b)
                  ∨ ∀ r, e = MatchDetails r → meta_starting_url r ≠ Some b).
  { destruct e as [| |r]; [by right|by right|].
    destruct (decide (meta_starting_url r = Some b)); [left; eauto|].
    right. by intros ? [= <-]. }
  destruct Hcase as [(r & -> & Hr)|Hm].
  - simpl. unfold parse_match_details. rewrite Hr. simpl.
    destruct (truthy b) eqn:Hb; [|by exists P].
    unfold finally_block. rewrite Hb, HP. simpl.
    destruct (truthy (meta_match_url r)); [|by exists P].
    destruct (decide (meta_match_url r ∈ P)); [|by exists P].
    exists (P ∖ {[meta_match_url r]}).
    destruct (decide (P ∖ {[meta_match_url r]} = ∅)); simpl;
      rewrite lookup_insert_eq; split; set_solver.
  - destruct (step_other s e b Ht Hm) as [-> _]. by exists P.
Qed.

Lemma crawl_run_pending_subset (evs : list Event) : ∀ s b P,
  (∀ e, e ∈ evs → touches_registration b e = false) →
  pending_match_requests s !! b = Some P →
  ∃ P', pending_match_requests (crawl_run s evs).1 !! b = Some P' ∧ P' ⊆ P.
Proof.
  induction evs as [|e evs IH]; intros s b P Hreg HP.
  - by exists P.
  - rewrite run_cons. simpl.
    destruct (crawl_step_pending_subset s e b P) as (P1 & HP1 & Hsub1);
      [apply Hreg; left|done|].
    destruct (IH (crawl_step s e).1 b P1) as (P2 & HP2 & Hsub2);
      [intros; apply Hreg; by right|done|].
    exists P2. split; [done|set_solver].
Qed.

(** Only [start_requests] writes [start_url_meta]. *)
Lemma crawl_step_meta s e b :
  (∀ cur, e ≠ StartRequest b cur) →
  start_url_meta (crawl_step s e).1 !! b = start_url_meta s !! b.
Proof.
  intros Hne. destruct e as [u cur|u c|r]; simpl.
  - rewrite lookup_insert_ne; [done|]. intros ->. by eapply Hne.
  - unfold register_match. by destruct (pending_match_requests s !! u).
  - unfold parse_match_details.
    destruct (truthy_opt (meta_starting_url r)); [|done].
    unfold finally_block.
    destruct (truthy _ && truthy _); [|done].
    destruct (pending_match_requests s !! _); [|done].
    destruct (decide _); [|done]. by destruct (decide _).
Qed.

Lemma crawl_run_meta (evs : list Event) : ∀ s b,
  (∀ e cur, e ∈ evs → e ≠ StartRequest b cur) →
  start_url_meta (crawl_run s evs).1 !! b = start_url_meta s !! b.
Proof.
  induction evs as [|e evs IH]; intros s b Hne; [done|].
  rewrite run_cons. simpl. rewrite IH.
  - apply crawl_step_meta. intros cur. apply Hne. left.
  - intros e' cur He'. apply Hne. by right.
Qed.

(** What one event can do about batch completion: the completion branch of
    [b] is entered only by a [parse_match_details] callback of one of its
    children that finds exactly that child pending, and the store write is
    issued only inside that branch, for a flag that is [False], over an open
    connection. *)
Lemma crawl_step_fires s e b :
  LogAllCompleted b ∈ (crawl_step s e).2 →
  ∃ r, e = MatchDetails r ∧ meta_starting_url r = Some b
       ∧ pending_match_requests s !! b = Some {[meta_match_url r]}.
Proof.
  destruct e as [u cur|u c|r]; simpl.
  - by intros ?%elem_of_nil.
  - unfold register_match. destruct (pending_match_requests s !! u); simpl.
    + by intros ?%elem_of_nil.
    + by intros ?%list_elem_of_singleton.
  - unfold parse_match_details.
    destruct (meta_starting_url r) as [u|] eqn:Hu; simpl;
      [|by intros ?%list_elem_of_singleton].
    destruct (truthy u); [|by intros ?%list_elem_of_singleton].
    pose proof (finally_block_fires_iff s u (meta_match_url r) b) as Hiff.
    destruct (finally_block s u (meta_match_url r)) as [s' out]. simpl in *.
    intros Hin. apply Hiff in Hin as (-> & _ & _ & HP). eauto.
Qed.

Lemma crawl_step_marks s e b :
  ExecUpdateIsScraped b ∈ (crawl_step s e).2 →
  start_url_meta s !! b = Some (Some false)
  ∧ db_connected s = true
  ∧ LogAllCompleted b ∈ (crawl_step s e).2.
Proof.
  destruct e as [u cur|u c|r]; simpl.
  - by intros ?%elem_of_nil.
  - unfold register_match. destruct (pending_match_requests s !! u); simpl.
    + by intros ?%elem_of_nil.
    + by intros ?%list_elem_of_singleton.
  - unfold parse_match_details.
    destruct (meta_starting_url r) as [u|] eqn:Hu; simpl;
      [|by intros ?%list_elem_of_singleton].
    destruct (truthy u); [|by intros ?%list_elem_of_singleton].
    unfold finally_block.
    destruct (truthy u && truthy (meta_match_url r));
      [|by intros ?%list_elem_of_singleton].
    destruct (pending_match_requests s !! u) as [P|];
      [|by intros ?%list_elem_of_singleton].
    destruct (decide (meta_match_url r ∈ P));
      [|by intros ?%list_elem_of_singleton].
    destruct (decide (P ∖ {[meta_match_url r]} = ∅));
      [|by intros ?%elem_of_nil].
    simpl. unfold batch_completed. simpl.
    destruct (start_url_meta s !! u) as [[[]|]|] eqn:Hm; simpl;
      try destruct (db_connected s) eqn:Hdb;
      rewrite elem_of_cons, list_elem_of_singleton;
      intros [?|?]; simplify_eq.
    repeat split; try done. left.
Qed.

(* --------------------------------------------------------------------- *)
(** *** Strings *)

Lemma str_chars s : str (chars s) = s.
Proof. apply String.string_of_list_ascii_of_string. Qed.

Lemma chars_str l : chars (str l) = l.
Proof. apply String.list_ascii_of_string_of_list_ascii. Qed.





(* --------------------------------------------------------------------- *)
(** *** First matches *)


Section ParticipantFacts.
Context `{PyRuntime}.

Lemma participant_row_resolved (match_id heat_id : Z)
    (rider_name_to_id : gmap string Z) (stat_map : gmap (Z * Z) Z)
    (tl : list RiderTelemetry) (label : string) (p : ParticipantData)
    (name : string) (rider_id stat_id : Z) :
  pt_rider p = Some name →
  rider_name_to_id !! name = Some rider_id →
  rider_id ≠ 0%Z →
  stat_map !! (match_id, rider_id) = Some stat_id →
  ∃ row,
    participant_row match_id heat_id rider_name_to_id stat_map tl label p
    = Some ((heat_id, stat_id), row)
    ∧ telemetry_columns row
      = match find_heat_telemetry
                (find_rider_telemetry_summary tl (Some name)) label with
        | Some d => parse_telemetry_value <$> telemetry_values d
        | None => replicate 7 None
        end.
Proof.
  intros Hname Hid Hnz Hstat. unfold participant_row.
  rewrite Hname. simpl. rewrite Hid. simpl.
  assert ((rider_id =? 0)%Z = false) as -> by lia. simpl. rewrite Hstat.
  destruct (parse_score (pt_rider_score p)) as [[points bonus] accident].
  eexists. split; [reflexivity|].
  unfold telemetry_columns. simpl.
  by destruct (find_heat_telemetry _ _).
Qed.

End ParticipantFacts.


(** The operations of the load are reasoned about through their lemmas. *)
Arguments get_or_create_id : simpl never.
Arguments process_team : simpl never.
Arguments execute : simpl never.
Arguments execute_values_if_any : simpl never.
Arguments score_or_none : simpl never.
Arguments score_or_zero : simpl never.
Arguments block_team_name : simpl never.
Arguments participant_row : simpl never.
Arguments clean : simpl never.

(* --------------------------------------------------------------------- *)
(** *** The connection monad *)

Section MonadFacts.
Context `{PyRuntime}.

Lemma bind_unfold {A B} (m : M A) (f : A → M B) (c : Conn) :
  (m ≫= f) c
  = match m c with (inl e, c') => (inl e, c') | (inr a, c') => f a c' end.
Proof. reflexivity. Qed.

Lemma ret_bind {A B} (a : A) (f : A → M B) (c : Conn) :
  (mret a ≫= f) c = f a c.
Proof. reflexivity. Qed.

Lemma bind_inr {A B} (m : M A) (f : A → M B) (c c' : Conn) (b : B) :
  (m ≫= f) c = (inr b, c') →
  ∃ a c1, m c = (inr a, c1) ∧ f a c1 = (inr b, c').
Proof.
  rewrite bind_unfold. destruct (m c) as [[e|a] c1]; [done|]. eauto.
Qed.

Lemma no_fault_in_S n b fl :
  no_fault_in (S n) (b :: fl) ↔ b = false ∧ no_fault_in n fl.
Proof. unfold no_fault_in. simpl. by rewrite Forall_cons. Qed.

Lemma no_fault_in_nil n : no_fault_in n [].
Proof. unfold no_fault_in. rewrite take_nil. constructor. Qed.

(** A statement the store does not fail, on a transaction that has not
    failed. *)
Lemma execute_no_fault {A} (stmt : DB → Exn + (A * DB)) (d : DB) (fl : list bool) :
  no_fault_in 1 fl →
  execute stmt (mkConn d false fl)
  = match stmt d with
    | inl e => (inl e, mkConn d true (tail fl))
    | inr (a, d') => (inr a, mkConn d' false (tail fl))
    end.
Proof.
  intros Hfl. unfold execute. simpl. destruct fl as [|[] fl]; try done.
  apply no_fault_in_S in Hfl as [? _]. done.
Qed.

Lemma execute_failed {A} (stmt : DB → Exn + (A * DB)) (c : Conn) :
  txn_failed c = true → execute stmt c = (inl InFailedSqlTransaction, c).
Proof. intros Hf. unfold execute. by rewrite Hf. Qed.

(** A statement that returns has run on a transaction that had not failed
    and leaves one that has not failed. *)
Lemma execute_inr {A} (stmt : DB → Exn + (A * DB)) (c c' : Conn) (a : A) :
  execute stmt c = (inr a, c') →
  txn_failed c = false ∧ txn_failed c' = false
  ∧ stmt (db c) = inr (a, db c') ∧ faults c' = tail (faults c)
  ∧ no_fault_in 1 (faults c).
Proof.
  unfold execute. destruct (txn_failed c); [done|].
  destruct (faults c) as [|[] fl] eqn:Hfl; try done.
  - destruct (stmt (db c)) as [e|[a' d']]; [done|].
    intros [= -> <-]. simpl. repeat split. apply no_fault_in_nil.
  - destruct (stmt (db c)) as [e|[a' d']]; [done|].
    intros [= -> <-]. simpl. repeat split. repeat constructor.
Qed.

Lemma lookup_table_set t lt (d : DB) :
  lookup_table t (set_lookup_table t lt d) = lt.
Proof. by destruct t. Qed.

Lemma lookup_table_set_ne t t' lt (d : DB) :
  t ≠ t' → lookup_table t' (set_lookup_table t lt d) = lookup_table t' d.
Proof. by destruct t, t'. Qed.

Lemma no_fault_in_tail n fl : no_fault_in (S n) fl → no_fault_in n (tail fl).
Proof.
  destruct fl as [|b fl]; [intros; apply no_fault_in_nil|].
  by intros [_ ?]%no_fault_in_S.
Qed.

Lemma no_fault_in_le n m fl : (m ≤ n)%nat → no_fault_in n fl → no_fault_in m fl.
Proof.
  unfold no_fault_in. intros Hle Hn.
  replace (take m fl) with (take m (take n fl))
    by (rewrite take_take; f_equal; lia).
  by apply Forall_take.
Qed.

(** The three outcomes of [get_or_create_id] on a store that fails none of
    its statements. *)
Lemma get_or_create_id_found t v (d : DB) fl id :
  blank v = false → no_fault_in 1 fl →
  lt_rows (lookup_table t d) !! v = Some id →
  get_or_create_id t (Some v) (mkConn d false fl)
  = (inr (Some id), mkConn d false (tail fl)).
Proof.
  intros Hb Hfl Hrow. unfold get_or_create_id. rewrite Hb.
  rewrite bind_unfold, execute_no_fault by done.
  unfold select_id. by rewrite Hrow.
Qed.

Lemma get_or_create_id_inserted t v (d : DB) fl :
  blank v = false → no_fault_in 2 fl →
  lt_rows (lookup_table t d) !! v = None →
  v ∉ lt_hidden (lookup_table t d) →
  get_or_create_id t (Some v) (mkConn d false fl)
  = (inr (Some (lt_next (lookup_table t d))),
     mkConn (set_lookup_table t
               (mkLookupTable
                  (<[v := lt_next (lookup_table t d)]>
                     (lt_rows (lookup_table t d)))
                  (lt_hidden (lookup_table t d))
                  (lt_next (lookup_table t d) + 1)) d)
            false (tail (tail fl))).
Proof.
  intros Hb Hfl Hrow Hhid. unfold get_or_create_id. rewrite Hb.
  rewrite bind_unfold, execute_no_fault by (eapply no_fault_in_le; [|done]; lia).
  unfold select_id at 1. rewrite Hrow.
  unfold try_except_psycopg2.
  rewrite bind_unfold, execute_no_fault by (by apply no_fault_in_tail).
  unfold insert_do_nothing. rewrite Hrow.
  rewrite bool_decide_eq_false_2 by (by intros [? ?]).
  by rewrite bool_decide_eq_false_2.
Qed.

Lemma get_or_create_id_unresolved t v (d : DB) fl :
  blank v = false → no_fault_in 3 fl →
  lt_rows (lookup_table t d) !! v = None →
  v ∈ lt_hidden (lookup_table t d) →
  get_or_create_id t (Some v) (mkConn d false fl)
  = (inr None, mkConn d false (tail (tail (tail fl)))).
Proof.
  intros Hb Hfl Hrow Hhid. unfold get_or_create_id. rewrite Hb.
  rewrite bind_unfold, execute_no_fault by (eapply no_fault_in_le; [|done]; lia).
  unfold select_id at 1. rewrite Hrow.
  unfold try_except_psycopg2.
  rewrite bind_unfold, execute_no_fault
    by (apply no_fault_in_tail; eapply no_fault_in_le; [|done]; lia).
  unfold insert_do_nothing. rewrite Hrow.
  rewrite (bool_decide_eq_true_2 (v ∈ _)) by done. rewrite orb_true_r.
  rewrite bind_unfold, execute_no_fault
    by (by do 2 apply no_fault_in_tail).
  unfold select_id. by rewrite Hrow.
Qed.

End MonadFacts.

Lemma tail_drop {A} (l : list A) n : tail (drop n l) = drop (S n) l.
Proof.
  revert l. induction n as [|n IH]; intros [|x l]; simpl; try done.
Qed.

(* --------------------------------------------------------------------- *)
(** *** A load that returns has not failed its transaction *)

Section CleanFacts.
Context `{PyRuntime}.

(** A computation that, when it returns, leaves the transaction unfailed if
    it found it so. Code that issues statements outside any [try] has this
    property; [get_or_create_id] does not. *)
Definition keeps_clean {A} (m : M A) : Prop :=
  ∀ c a c', m c = (inr a, c') → txn_failed c = false → txn_failed c' = false.

Lemma keeps_clean_ret {A} (a : A) : keeps_clean (mret a).
Proof. by intros c a' c' [= <- <-]. Qed.

Lemma keeps_clean_raise {A} (e : Exn) : keeps_clean (raise (A := A) e).
Proof. by intros c a' c'. Qed.

Lemma keeps_clean_execute {A} (stmt : DB → Exn + (A * DB)) :
  keeps_clean (execute stmt).
Proof. intros c a c' Hex _. by apply execute_inr in Hex as (_ & ? & _). Qed.

Lemma keeps_clean_bind {A B} (m : M A) (f : A → M B) :
  keeps_clean m → (∀ a, keeps_clean (f a)) → keeps_clean (m ≫= f).
Proof.
  intros Hm Hf c b c' Hrun Hc.
  apply bind_inr in Hrun as (a & c1 & Hm1 & Hf1).
  eapply Hf; [done|]. by eapply Hm.
Qed.

Lemma keeps_clean_execute_pages {A B}
    (stmt : list A → DB → Exn + (list B * DB)) (pages : list (list A)) :
  keeps_clean (execute_pages stmt pages).
Proof.
  induction pages as [|p ps IH]; simpl.
  - apply keeps_clean_ret.
  - apply keeps_clean_bind; [apply keeps_clean_execute|]. intros r.
    apply keeps_clean_bind; [done|]. intros rs. apply keeps_clean_ret.
Qed.

Lemma keeps_clean_execute_values_if_any {A B}
    (stmt : list A → DB → Exn + (list B * DB)) (rows : list A) :
  keeps_clean (execute_values_if_any stmt rows).
Proof.
  destruct rows; simpl; [apply keeps_clean_ret|].
  apply keeps_clean_execute_pages.
Qed.

Lemma keeps_clean_score_or_none o : keeps_clean (score_or_none o).
Proof. destruct o; [apply keeps_clean_ret|apply keeps_clean_raise]. Qed.

Lemma keeps_clean_process_heats match_id r2id stat_map tl heat_list : ∀ counter,
  keeps_clean (process_heats match_id r2id stat_map tl heat_list counter).
Proof.
  induction heat_list as [|h rest IH]; intros counter; simpl.
  - apply keeps_clean_ret.
  - destruct (truthy_opt (ht_heat_number h)); [|apply IH].
    repeat (apply keeps_clean_bind;
            [first [apply keeps_clean_score_or_none
                   |apply keeps_clean_execute
                   |apply keeps_clean_execute_values_if_any]|intros ?]).
    apply IH.
Qed.

(** Every path of [transform_document] that returns has run the upsert of
    the match row, which a failed transaction refuses; what follows it
    issues its statements outside any [try]. *)
Lemma transform_document_clean doc c c' :
  transform_document doc c = (inr (), c') → txn_failed c' = false.
Proof.
  unfold transform_document. intros Hrun.
  do 11 (apply bind_inr in Hrun as (? & ? & _ & Hrun)).
  apply bind_inr in Hrun as (match_id & c1 & Hmatch & Hrun).
  apply execute_inr in Hmatch as (_ & Hclean & _).
  match type of Hrun with
  | ?m c1 = _ => assert (Hk : keeps_clean m)
  end.
  { repeat (apply keeps_clean_bind;
            [apply keeps_clean_execute_values_if_any|intros ?]).
    apply keeps_clean_process_heats. }
  exact (Hk _ _ _ Hrun Hclean).
Qed.

End CleanFacts.

(* --------------------------------------------------------------------- *)
(** *** Frames: which tables a computation leaves alone *)

Section FrameFacts.
Context `{PyRuntime}.

(** The statement leaves the component [g] of the store as it was. *)
Definition stmt_frames {X A} (g : DB → X) (stmt : DB → Exn + (A * DB)) : Prop :=
  ∀ d a d', stmt d = inr (a, d') → g d' = g d.

(** The computation leaves the component [g] of the store as it was,
    whether it returns or raises. *)
Definition frames {X A} (g : DB → X) (m : M A) : Prop :=
  ∀ c r c', m c = (r, c') → g (db c') = g (db c).

Lemma frames_ret {X A} (g : DB → X) (a : A) : frames g (mret a).
Proof. by intros c r c' [= <- <-]. Qed.

Lemma frames_raise {X A} (g : DB → X) (e : Exn) : frames g (raise (A := A) e).
Proof. by intros c r c' [= <- <-]. Qed.

Lemma frames_bind {X A B} (g : DB → X) (m : M A) (f : A → M B) :
  frames g m → (∀ a, frames g (f a)) → frames g (m ≫= f).
Proof.
  intros Hm Hf c r c'. rewrite bind_unfold.
  destruct (m c) as [[e|a] c1] eqn:Hmc.
  - intros [= <- <-]. by eapply Hm.
  - intros Hfc. rewrite (Hf _ _ _ _ Hfc). by eapply Hm.
Qed.

Lemma frames_try {X A} (g : DB → X) (body handler : M A) :
  frames g body → frames g handler →
  frames g (try_except_psycopg2 body handler).
Proof.
  intros Hb Hh c r c'. unfold try_except_psycopg2.
  destruct (body c) as [[e|a] c1] eqn:Hbc.
  - destruct (is_psycopg2_error e).
    + intros Hhc. rewrite (Hh _ _ _ Hhc). by eapply Hb.
    + intros [= <- <-]. by eapply Hb.
  - intros [= <- <-]. by eapply Hb.
Qed.

Lemma frames_execute {X A} (g : DB → X) (stmt : DB → Exn + (A * DB)) :
  stmt_frames g stmt → frames g (execute stmt).
Proof.
  intros Hs c r c'. unfold execute.
  destruct (txn_failed c); [by intros [= <- <-]|].
  assert (∀ fl, match stmt (db c) with
                | inl e => (inl e, mkConn (db c) true fl)
                | inr (a, d) => (inr a, mkConn d false fl)
                end = (r, c') → g (db c') = g (db c)) as Hrun.
  { intros fl. destruct (stmt (db c)) as [e|[a d]] eqn:Hst.
    - by intros [= <- <-].
    - intros [= <- <-]. simpl. by eapply Hs. }
  destruct (faults c) as [|[] fl]; [apply Hrun|by intros [= <- <-]|apply Hrun].
Qed.

Lemma frames_execute_pages {X A B} (g : DB → X)
    (stmt : list A → DB → Exn + (list B * DB)) (pages : list (list A)) :
  (∀ p, stmt_frames g (stmt p)) → frames g (execute_pages stmt pages).
Proof.
  intros Hs. induction pages as [|p ps IH]; simpl.
  - apply frames_ret.
  - apply frames_bind; [by apply frames_execute|]. intros r.
    apply frames_bind; [done|]. intros rs. apply frames_ret.
Qed.

Lemma frames_execute_values_if_any {X A B} (g : DB → X)
    (stmt : list A → DB → Exn + (list B * DB)) (rows : list A) :
  (∀ p, stmt_frames g (stmt p)) → frames g (execute_values_if_any stmt rows).
Proof.
  intros Hs. destruct rows; simpl; [apply frames_ret|].
  by apply frames_execute_pages.
Qed.

Lemma frames_score_or_none {X} (g : DB → X) o : frames g (score_or_none o).
Proof. destruct o; [apply frames_ret|apply frames_raise]. Qed.

Lemma frames_score_or_zero {X} (g : DB → X) o : frames g (score_or_zero o).
Proof. destruct o; [apply frames_ret|apply frames_raise]. Qed.

Lemma frames_block_team_name {X} (g : DB → X) b : frames g (block_team_name b).
Proof. destruct b; first [apply frames_ret|apply frames_raise]. Qed.

End FrameFacts.

(** Statement frames are settled by unfolding the statement. *)
Ltac stmt_frame :=
  let d := fresh "d" in
  intros d ? ?;
  unfold select_id, insert_do_nothing, select_team_by_code,
    select_team_by_name, update_team_name, update_team_code, insert_team,
    upsert_match, upsert_team_info, upsert_rider_stats, upsert_heat,
    upsert_participants;
  repeat case_match; intros; simplify_eq; try done;
  try (match goal with t : Lookup |- _ => by destruct t end).

Section StatementFrames.
Context `{PyRuntime}.

Lemma select_id_frames {X} (g : DB → X) t v : stmt_frames g (select_id t v).
Proof. stmt_frame. Qed.

Lemma select_team_by_code_frames {X} (g : DB → X) c :
  stmt_frames g (select_team_by_code c).
Proof. stmt_frame. Qed.

Lemma select_team_by_name_frames {X} (g : DB → X) n :
  stmt_frames g (select_team_by_name n).
Proof. stmt_frame. Qed.

Lemma insert_do_nothing_heats t v : stmt_frames heats (insert_do_nothing t v).
Proof. stmt_frame. Qed.

Lemma update_team_name_heats n a id : stmt_frames heats (update_team_name n a id).
Proof. stmt_frame. Qed.

Lemma update_team_code_heats c a id : stmt_frames heats (update_team_code c a id).
Proof. stmt_frame. Qed.

Lemma insert_team_heats c n a : stmt_frames heats (insert_team c n a).
Proof. stmt_frame. Qed.

Lemma upsert_match_heats url f : stmt_frames heats (upsert_match url f).
Proof. stmt_frame. Qed.

Lemma upsert_team_info_heats rows : stmt_frames heats (upsert_team_info rows).
Proof. stmt_frame. Qed.

Lemma upsert_rider_stats_heats rows : stmt_frames heats (upsert_rider_stats rows).
Proof. stmt_frame. Qed.

Lemma upsert_participants_heats rows :
  stmt_frames heats (upsert_participants rows).
Proof. stmt_frame. Qed.

Lemma upsert_team_info_matches rows : stmt_frames matches (upsert_team_info rows).
Proof. stmt_frame. Qed.

Lemma upsert_rider_stats_matches rows :
  stmt_frames matches (upsert_rider_stats rows).
Proof. stmt_frame. Qed.

Lemma upsert_participants_matches rows :
  stmt_frames matches (upsert_participants rows).
Proof. stmt_frame. Qed.

Lemma upsert_heat_matches m s f : stmt_frames matches (upsert_heat m s f).
Proof. stmt_frame. Qed.

End StatementFrames.

Create HintDb frames.
#[export] Hint Resolve select_id_frames select_team_by_code_frames
  select_team_by_name_frames insert_do_nothing_heats update_team_name_heats
  update_team_code_heats insert_team_heats upsert_match_heats
  upsert_team_info_heats upsert_rider_stats_heats upsert_participants_heats
  upsert_team_info_matches upsert_rider_stats_matches
  upsert_participants_matches upsert_heat_matches : frames.

(** Frames of straight-line monadic code follow its structure. *)
Ltac solve_frames :=
  repeat first
    [ apply frames_ret
    | apply frames_raise
    | apply frames_block_team_name
    | apply frames_score_or_zero
    | apply frames_score_or_none
    | apply frames_execute; solve [eauto with frames]
    | apply frames_execute_values_if_any; intros ?; solve [eauto with frames]
    | apply frames_try
    | apply frames_bind; [|intros ?]
    | progress case_match
    | solve [eauto with frames] ].

Section HeatFacts.
Context `{PyRuntime}.

Lemma score_or_none_inr o (c c' : Conn) a :
  score_or_none o c = (inr a, c') →
  c' = c ∧ ∃ s, o = Some s ∧ a = int_if_digit s.
Proof. destruct o; [|done]. intros [= <- <-]. eauto. Qed.

Lemma score_or_zero_inr o (c c' : Conn) a :
  score_or_zero o c = (inr a, c') →
  c' = c ∧ ∃ s, o = Some s ∧ a = default 0%Z (int_if_digit s).
Proof. destruct o; [|done]. intros [= <- <-]. eauto. Qed.

Lemma get_or_create_id_heats t value : frames heats (get_or_create_id t value).
Proof. unfold get_or_create_id. solve_frames. Qed.

Lemma process_team_heats c n a : frames heats (process_team c n a).
Proof. unfold process_team. solve_frames. Qed.

Lemma resolve_riders_heats rs : ∀ m, frames heats (resolve_riders rs m).
Proof.
  induction rs as [|r rs IH]; intros m; simpl; [apply frames_ret|].
  case_match; [|apply IH].
  apply frames_bind; [apply get_or_create_id_heats|]. intros ?. apply IH.
Qed.

Lemma process_heats_matches match_id r2id stat_map tl heat_list : ∀ counter,
  frames matches (process_heats match_id r2id stat_map tl heat_list counter).
Proof.
  induction heat_list as [|h rest IH]; intros counter; simpl.
  - apply frames_ret.
  - case_match; [|apply IH].
    do 6 (apply frames_bind; [solve_frames|intros ?]). apply IH.
Qed.

(** The loop over the heats: a heat with a label is written at the key made
    of the match and the heat's position in the list (the counter on entry
    plus its index plus one); no other key of [heats] is touched. *)
Lemma process_heats_positions match_id r2id stat_map tl heat_list :
  ∀ counter c c',
    process_heats match_id r2id stat_map tl heat_list counter c = (inr (), c') →
    (∀ (i : nat) h, heat_list !! i = Some h →
       truthy_opt (ht_heat_number h) = true →
       ∃ id f, heats (db c') !! (match_id, counter + Z.of_nat i + 1)%Z
               = Some (id, f)
               ∧ hf_heat_display_number f = default "" (ht_heat_number h))
    ∧ (∀ k, (∀ (i : nat) h, heat_list !! i = Some h →
               truthy_opt (ht_heat_number h) = true →
               k ≠ (match_id, counter + Z.of_nat i + 1)%Z) →
            heats (db c') !! k = heats (db c) !! k).
Proof.
  induction heat_list as [|h rest IH]; intros counter c c' Hrun.
  - simpl in Hrun. injection Hrun as <-. split; [by intros ? ? ?|done].
  - simpl in Hrun.
    destruct (truthy_opt (ht_heat_number h)) eqn:Hlabel.
    + do 4 (apply bind_inr in Hrun as (? & ? & Hsc & Hrun);
            apply score_or_none_inr in Hsc as [-> _]).
      apply bind_inr in Hrun as (heat_id & c1 & Hheat & Hrun).
      apply bind_inr in Hrun as (? & c2 & Hpart & Hrun).
      apply execute_inr in Hheat as (_ & _ & Hheat & _).
      assert (Hc2 : heats (db c2) = heats (db c1)).
      { revert Hpart. apply frames_execute_values_if_any. eauto with frames. }
      destruct (IH _ _ _ Hrun) as [IHpos IHframe].
      assert (Hwritten : ∃ id f,
                 heats (db c1) !! (match_id, counter + 1)%Z = Some (id, f)
                 ∧ hf_heat_display_number f = default "" (ht_heat_number h)
                 ∧ ∀ k, k ≠ (match_id, counter + 1)%Z →
                        heats (db c1) !! k = heats (db c) !! k).
      { unfold upsert_heat in Hheat.
        destruct (heats (db c) !! (match_id, (counter + 1)%Z))
          as [[id f0]|]; injection Hheat as <- <-; simpl;
          rewrite lookup_insert_eq; eexists _, _; (split; [done|]);
          (split; [done|]); intros k Hk; by rewrite lookup_insert_ne. }
      destruct Hwritten as (id & f & Hrow & Hdisp & Hother).
      split.
      * intros [|i] h' Hi Hl'.
        -- injection Hi as <-. exists id, f. split; [|done].
           replace (counter + Z.of_nat 0 + 1)%Z with (counter + 1)%Z by lia.
           rewrite IHframe, Hc2; [done|].
           intros i h' _ _. intros [= ?]. lia.
        -- destruct (IHpos i h' Hi Hl') as (id' & f' & Hrow' & Hdisp').
           exists id', f'. split; [|done]. rewrite <- Hrow'. do 2 f_equal. lia.
      * intros k Hk. rewrite IHframe, Hc2.
        -- apply Hother. specialize (Hk 0%nat h eq_refl Hlabel).
           by replace (counter + Z.of_nat 0 + 1)%Z with (counter + 1)%Z
             in Hk by lia.
        -- intros i h' Hi Hl'. specialize (Hk (S i) h' Hi Hl').
           by replace (counter + Z.of_nat (S i) + 1)%Z
             with (counter + 1 + Z.of_nat i + 1)%Z in Hk by lia.
    + destruct (IH _ _ _ Hrun) as [IHpos IHframe]. split.
      * intros [|i] h' Hi Hl'.
        -- injection Hi as <-. congruence.
        -- destruct (IHpos i h' Hi Hl') as (id' & f' & Hrow' & Hdisp').
           exists id', f'. split; [|done]. rewrite <- Hrow'. do 2 f_equal. lia.
      * intros k Hk. apply IHframe.
        intros i h' Hi Hl'. specialize (Hk (S i) h' Hi Hl').
        by replace (counter + Z.of_nat (S i) + 1)%Z
          with (counter + 1 + Z.of_nat i + 1)%Z in Hk by lia.
Qed.

End HeatFacts.

(* --------------------------------------------------------------------- *)
(** *** Reloading: natural keys *)

Section ReloadLookups.
Context `{PyRuntime}.

Lemma execute_clean {A} (stmt : DB → Exn + (A * DB)) (d : DB) :
  execute stmt (clean d)
  = match stmt d with
    | inl e => (inl e, mkConn d true [])
    | inr (a, d') => (inr a, clean d')
    end.
Proof. unfold clean. rewrite execute_no_fault; [done|apply no_fault_in_nil]. Qed.

Lemma set_lookup_table_same t (d : DB) :
  set_lookup_table t (lookup_table t d) d = d.
Proof. by destruct t, d. Qed.

Lemma lookup_mono_refl lt : lookup_mono lt lt.
Proof. by intros v r. Qed.

Lemma lookup_mono_trans lt1 lt2 lt3 :
  lookup_mono lt1 lt2 → lookup_mono lt2 lt3 → lookup_mono lt1 lt3.
Proof. intros H12 H23 v r Hr. by apply H23, H12. Qed.

Lemma settled_mono t value r (d d' : DB) :
  lookup_mono (lookup_table t d) (lookup_table t d') →
  settled t value r d → settled t value r d'.
Proof.
  intros Hmono. unfold settled. destruct value as [v|]; [|done].
  destruct (blank v); [done|]. apply Hmono.
Qed.

(** A call that returns on a connection at rest leaves it at rest, changes
    its own table only, keeps every answer that table gave, and has settled
    its key. *)
Lemma get_or_create_id_post t value (d : DB) r c' :
  get_or_create_id t value (clean d) = (inr r, c') →
  ∃ lt', c' = clean (set_lookup_table t lt' d)
         ∧ lookup_mono (lookup_table t d) lt'
         ∧ settled t value r (set_lookup_table t lt' d).
Proof.
  unfold settled.
  destruct value as [v|]; cycle 1.
  { intros [= <- <-]. exists (lookup_table t d).
    rewrite set_lookup_table_same. by split; [|split; [apply lookup_mono_refl|]]. }
  destruct (blank v) eqn:Hb.
  { unfold get_or_create_id. rewrite Hb. intros [= <- <-].
    exists (lookup_table t d). rewrite set_lookup_table_same.
    by split; [|split; [apply lookup_mono_refl|]]. }
  destruct (lt_rows (lookup_table t d) !! v) as [id|] eqn:Hrow.
  - unfold clean.
    rewrite (get_or_create_id_found t v d [] id) by (done || apply no_fault_in_nil).
    intros [= <- <-]. exists (lookup_table t d).
    rewrite set_lookup_table_same.
    by split; [|split; [apply lookup_mono_refl|]].
  - destruct (decide (v ∈ lt_hidden (lookup_table t d))) as [Hhid|Hhid].
    + unfold clean.
      rewrite (get_or_create_id_unresolved t v d []) by (done || apply no_fault_in_nil).
      intros [= <- <-]. exists (lookup_table t d).
      rewrite set_lookup_table_same.
      by split; [|split; [apply lookup_mono_refl|]].
    + unfold clean.
      rewrite (get_or_create_id_inserted t v d []) by (done || apply no_fault_in_nil).
      intros [= <- <-]. eexists. split; [reflexivity|]. split.
      * intros w [id|]; simpl.
        -- intros Hw. rewrite lookup_insert_ne; [done|]. congruence.
        -- intros [Hw Hh]. split; [|done].
           rewrite lookup_insert_ne; [done|]. by intros ->.
      * rewrite lookup_table_set. simpl. apply lookup_insert_eq.
Qed.

(** On a store that has the key settled, the call returns the settled
    answer and changes nothing. *)
Lemma get_or_create_id_replay t value r (d : DB) :
  settled t value r d →
  get_or_create_id t value (clean d) = (inr r, clean d).
Proof.
  unfold settled. destruct value as [v|]; [|by intros ->].
  destruct (blank v) eqn:Hb.
  { intros ->. unfold get_or_create_id. by rewrite Hb. }
  destruct r as [id|]; simpl.
  - intros Hrow. unfold clean.
    rewrite (get_or_create_id_found t v d [] id); done || apply no_fault_in_nil.
  - intros [Hrow Hhid]. unfold clean.
    rewrite (get_or_create_id_unresolved t v d []); done || apply no_fault_in_nil.
Qed.

(** The loop over the riders: it changes [riders] only, keeps its answers,
    and on every store whose [riders] keeps the answers of the store it
    left, it returns the same map and changes nothing. *)
Lemma resolve_riders_post rs : ∀ m (d : DB) m' c',
  resolve_riders rs m (clean d) = (inr m', c') →
  ∃ lt', c' = clean (set_lookup_table Riders lt' d)
         ∧ lookup_mono (riders d) lt'
         ∧ ∀ D, lookup_mono lt' (riders D) →
                resolve_riders rs m (clean D) = (inr m', clean D).
Proof.
  induction rs as [|rider rs IH]; intros m d m' c'; cbn [resolve_riders].
  - intros [= <- <-]. exists (lookup_table Riders d).
    rewrite (set_lookup_table_same Riders).
    split; [done|]. split; [apply lookup_mono_refl|done].
  - destruct (truthy (rd_name rider) && negb (blank (rd_name rider))) eqn:Hname;
      [|apply IH].
    intros Hrun. apply bind_inr in Hrun as (r & c1 & Hgoc & Hrun).
    apply get_or_create_id_post in Hgoc as (lt1 & -> & Hmono1 & Hset).
    apply IH in Hrun as (lt2 & -> & Hmono2 & Hreplay).
    change (riders (set_lookup_table Riders lt1 d)) with lt1 in Hmono2.
    exists lt2. split; [by destruct d|]. split.
    { eapply lookup_mono_trans; [exact Hmono1|]. exact Hmono2. }
    intros D HD. rewrite bind_unfold.
    rewrite (get_or_create_id_replay Riders _ r D); [by apply Hreplay|].
    unfold settled in *. destruct (blank (rd_name rider)); [done|].
    rewrite (lookup_table_set Riders) in Hset.
    by apply HD, Hmono2.
Qed.

End ReloadLookups.

(* --------------------------------------------------------------------- *)
(** *** Reloading: rows written by upserts *)

Section FoldInsert.
Context {K : Type} `{Countable K} {V : Type}.

Lemma foldl_insert_other (l : list (K * V)) : ∀ (t : gmap K V) k,
  k ∉ l.*1 → foldl (λ t r, <[r.1 := r.2]> t) t l !! k = t !! k.
Proof.
  induction l as [|[k0 v0] l IH]; intros t k Hk; simpl in *; [done|].
  rewrite not_elem_of_cons in Hk. destruct Hk as [Hne Hk].
  rewrite IH by done. by rewrite lookup_insert_ne.
Qed.

Lemma foldl_insert_loaded (l : list (K * V)) : ∀ (t : gmap K V),
  NoDup l.*1 → rows_loaded l (foldl (λ t r, <[r.1 := r.2]> t) t l).
Proof.
  induction l as [|[k0 v0] l IH]; intros t Hnd k v Hin; simpl in *.
  - by apply elem_of_nil in Hin.
  - apply NoDup_cons in Hnd as [Hk0 Hnd].
    apply elem_of_cons in Hin as [[= -> ->]|Hin].
    + rewrite foldl_insert_other by done. apply lookup_insert_eq.
    + by apply IH.
Qed.

Lemma foldl_insert_absorb (l : list (K * V)) (t : gmap K V) :
  rows_loaded l t → foldl (λ t r, <[r.1 := r.2]> t) t l = t.
Proof.
  induction l as [|[k0 v0] l IH]; intros Hl; simpl; [done|].
  rewrite insert_id by (apply Hl; left). apply IH.
  intros k v Hin. apply Hl. by right.
Qed.

End FoldInsert.

Lemma paginate_single {A} (l : list A) :
  l ≠ [] → (length l ≤ 100)%nat → paginate l = [l].
Proof.
  intros Hne Hlen. unfold paginate. destruct l as [|x l]; [done|].
  cbn [length paginate_go]. rewrite take_ge by done.
  rewrite drop_ge by done. by destruct (length l).
Qed.

Section ReloadRows.
Context `{PyRuntime}.

(** [execute_values] of at most a page of rows is one statement. *)
Lemma execute_values_if_any_one_page {A B}
    (stmt : list A → DB → Exn + (list B * DB)) (rows : list A) (c : Conn) :
  rows ≠ [] → (length rows ≤ 100)%nat →
  execute_values_if_any stmt rows c
  = (r ← execute (stmt rows); mret (r ++ [])) c.
Proof.
  intros Hne Hlen. unfold execute_values_if_any, execute_values.
  destruct rows as [|x rows]; [done|].
  rewrite paginate_single by done. reflexivity.
Qed.

Lemma set_matches_same (d : DB) : set_matches (matches d) (matches_next d) d = d.
Proof. by destruct d. Qed.

Lemma upsert_match_post url f (d : DB) id c' :
  execute (upsert_match url f) (clean d) = (inr id, c') →
  ∃ ms nx, c' = clean (set_matches ms nx d) ∧ ms !! url = Some (id, f).
Proof.
  rewrite execute_clean. unfold upsert_match.
  destruct (matches d !! url) as [[id0 f0]|]; intros [= <- <-];
    eexists _, _; (split; [reflexivity|]); apply lookup_insert_eq.
Qed.

Lemma upsert_match_replay url f id (D : DB) :
  matches D !! url = Some (id, f) →
  execute (upsert_match url f) (clean D) = (inr id, clean D).
Proof.
  intros Hrow. rewrite execute_clean. unfold upsert_match. rewrite Hrow.
  rewrite insert_id by done. by rewrite set_matches_same.
Qed.

End ReloadRows.

Section ReloadBatches.
Context `{PyRuntime}.

Lemma set_match_team_info_same (d : DB) :
  set_match_team_info (match_team_info d) d = d.
Proof. by destruct d. Qed.

Lemma upsert_team_info_post rows (d : DB) r c' :
  (length rows ≤ 100)%nat →
  execute_values_if_any upsert_team_info rows (clean d) = (inr r, c') →
  ∃ t, c' = clean (set_match_team_info t d)
       ∧ team_info_loaded rows (set_match_team_info t d).
Proof.
  intros Hlen. destruct (decide (rows = [])) as [->|Hne].
  { intros [= <- <-]. exists (match_team_info d).
    rewrite set_match_team_info_same. split; [done|]. by intros ?. }
  rewrite execute_values_if_any_one_page by done.
  intros Hrun. apply bind_inr in Hrun as (r0 & c1 & Hex & [= <- <-]).
  rewrite execute_clean in Hex. unfold upsert_team_info in Hex.
  destruct (mapM _ rows) as [keyed|] eqn:Hkeyed; [|done].
  unfold distinct_keys in Hex. case_bool_decide as Hnd; [|done].
  injection Hex as <- <-. eexists. split; [reflexivity|].
  intros _. exists keyed. split; [done|]. split; [done|].
  simpl. by apply foldl_insert_loaded.
Qed.

Lemma upsert_team_info_replay rows (D : DB) :
  (length rows ≤ 100)%nat →
  team_info_loaded rows D →
  execute_values_if_any upsert_team_info rows (clean D) = (inr [], clean D).
Proof.
  intros Hlen Hloaded. destruct (decide (rows = [])) as [->|Hne]; [done|].
  destruct (Hloaded Hne) as (keyed & Hkeyed & Hnd & Hrows).
  rewrite execute_values_if_any_one_page by done.
  rewrite bind_unfold, execute_clean. unfold upsert_team_info.
  rewrite Hkeyed. unfold distinct_keys. rewrite bool_decide_eq_true_2 by done.
  rewrite foldl_insert_absorb by done.
  by rewrite set_match_team_info_same.
Qed.

Lemma stats_fold_other keyed : ∀ t nx out k,
  k ∉ keyed.*1 →
  (foldl upsert_rider_stat_row (t, nx, out) keyed).1.1 !! k = t !! k.
Proof.
  induction keyed as [|[k0 v0] keyed IH]; intros t nx out k Hk; simpl in *;
    [done|].
  rewrite not_elem_of_cons in Hk. destruct Hk as [Hne Hk].
  destruct (t !! k0) as [[id f]|]; rewrite IH by done;
    by rewrite lookup_insert_ne.
Qed.

Lemma stats_fold_post keyed : ∀ t nx out0 t' nx' out',
  NoDup keyed.*1 →
  foldl upsert_rider_stat_row (t, nx, out0) keyed = (t', nx', out') →
  ∃ out, out' = out0 ++ out ∧ stats_loaded keyed out t'.
Proof.
  induction keyed as [|[k0 v0] keyed IH]; intros t nx out0 t' nx' out' Hnd;
    simpl in *.
  - intros [= <- <- <-]. exists []. split; [by rewrite app_nil_r|constructor].
  - apply NoDup_cons in Hnd as [Hk0 Hnd].
    destruct (t !! k0) as [[id f]|] eqn:Hrow; intros Hfold;
      (match type of Hfold with
       | foldl _ (?t0, ?n0, ?o0) _ = _ =>
           pose proof (stats_fold_other keyed t0 n0 o0 k0 Hk0) as Hother
       end);
      rewrite Hfold in Hother; simpl in Hother;
      rewrite lookup_insert_eq in Hother;
      apply IH in Hfold as (out & -> & Hloaded); try done;
      eexists (_ :: out); (split; [by rewrite <- app_assoc|]);
      by constructor.
Qed.

Lemma stats_fold_replay keyed out : ∀ t nx out0,
  stats_loaded keyed out t →
  foldl upsert_rider_stat_row (t, nx, out0) keyed = (t, nx, out0 ++ out).
Proof.
  intros t nx out0 Hloaded. revert out0.
  induction Hloaded as [|[k v] o keyed out (Hrow & Ho1 & Ho2) _ IH];
    intros out0; simpl in *.
  - by rewrite app_nil_r.
  - rewrite Hrow. rewrite insert_id by done. rewrite IH.
    rewrite <- app_assoc. simpl. do 3 f_equal.
    destruct o as [[o1 o2] o3]. simpl in *. by subst.
Qed.

Lemma set_match_rider_stats_same (d : DB) :
  set_match_rider_stats (match_rider_stats d) (match_rider_stats_next d) d = d.
Proof. by destruct d. Qed.

Lemma upsert_rider_stats_post rows (d : DB) results c' :
  (length rows ≤ 100)%nat →
  execute_values_if_any upsert_rider_stats rows (clean d) = (inr results, c') →
  ∃ t nx, c' = clean (set_match_rider_stats t nx d)
          ∧ rider_stats_loaded rows results (set_match_rider_stats t nx d).
Proof.
  intros Hlen. destruct (decide (rows = [])) as [->|Hne].
  { intros [= <- <-]. exists (match_rider_stats d), (match_rider_stats_next d).
    by rewrite set_match_rider_stats_same. }
  rewrite execute_values_if_any_one_page by done.
  intros Hrun. apply bind_inr in Hrun as (r0 & c1 & Hex & [= <- <-]).
  rewrite execute_clean in Hex. unfold upsert_rider_stats in Hex.
  destruct (mapM _ rows) as [keyed|] eqn:Hkeyed; [|done].
  unfold distinct_keys in Hex. case_bool_decide as Hnd; [|done].
  destruct (foldl _ _ keyed) as [[t nx] out] eqn:Hfold.
  injection Hex as <- <-. exists t, nx. split; [done|].
  apply stats_fold_post in Hfold as (out' & -> & Hloaded); [|done].
  unfold rider_stats_loaded. destruct rows; [done|].
  exists keyed. simpl. by rewrite app_nil_r.
Qed.

Lemma upsert_rider_stats_replay rows results (D : DB) :
  (length rows ≤ 100)%nat →
  rider_stats_loaded rows results D →
  execute_values_if_any upsert_rider_stats rows (clean D)
  = (inr results, clean D).
Proof.
  intros Hlen Hloaded. destruct (decide (rows = [])) as [->|Hne].
  { simpl in Hloaded. by subst. }
  rewrite execute_values_if_any_one_page by done.
  unfold rider_stats_loaded in Hloaded. destruct rows as [|r0 rows]; [done|].
  destruct Hloaded as (keyed & Hkeyed & Hnd & Hrows).
  rewrite bind_unfold, execute_clean. unfold upsert_rider_stats.
  rewrite Hkeyed. unfold distinct_keys. rewrite bool_decide_eq_true_2 by done.
  rewrite (stats_fold_replay keyed results) by done.
  rewrite set_match_rider_stats_same. simpl. by rewrite app_nil_r.
Qed.

End ReloadBatches.

(* --------------------------------------------------------------------- *)
(** *** Reloading: the loop over the heats *)

Section ReloadHeats.
Context `{PyRuntime}.

Lemma set_heat_participants_same (d : DB) :
  set_heat_participants (heat_participants d) d = d.
Proof. by destruct d. Qed.

Lemma set_heats_same (d : DB) : set_heats (heats d) (heats_next d) d = d.
Proof. by destruct d. Qed.

Lemma length_omap_le {A B} (f : A → option B) (l : list A) :
  (length (omap f l) ≤ length l)%nat.
Proof.
  induction l as [|x l IH]; simpl; [done|].
  unfold omap in IH. destruct (f x); simpl; lia.
Qed.

Lemma participant_row_key match_id heat_id r2id stat_map tl label p k v :
  participant_row match_id heat_id r2id stat_map tl label p = Some (k, v) →
  k.1 = heat_id.
Proof.
  unfold participant_row. destruct (truthy_id _); [|done].
  destruct (stat_map !! _); [|done].
  destruct (parse_score _) as [[? ?] ?]. by intros [= <- _].
Qed.

Lemma participant_rows_keys match_id heat_id r2id stat_map tl label ps k :
  k ∈ (omap (participant_row match_id heat_id r2id stat_map tl label) ps).*1 →
  k.1 = heat_id.
Proof.
  intros ([k' v] & -> & Hin)%list_elem_of_fmap.
  apply list_elem_of_omap in Hin as (p & _ & Hp).
  by eapply participant_row_key.
Qed.

Lemma upsert_participants_post rows (d : DB) r c' :
  (length rows ≤ 100)%nat →
  execute_values_if_any upsert_participants rows (clean d) = (inr r, c') →
  ∃ ps, c' = clean (set_heat_participants ps d)
        ∧ NoDup rows.*1
        ∧ rows_loaded rows ps
        ∧ ∀ k, k ∉ rows.*1 → ps !! k = heat_participants d !! k.
Proof.
  intros Hlen. destruct (decide (rows = [])) as [->|Hne].
  { intros [= <- <-]. exists (heat_participants d).
    rewrite set_heat_participants_same. split; [done|].
    split; [constructor|]. split; [|done]. by intros k v ?%elem_of_nil. }
  rewrite execute_values_if_any_one_page by done.
  intros Hrun. apply bind_inr in Hrun as (r0 & c1 & Hex & [= <- <-]).
  rewrite execute_clean in Hex. unfold upsert_participants in Hex.
  unfold distinct_keys in Hex. case_bool_decide as Hnd; [|done].
  injection Hex as <- <-. eexists. split; [reflexivity|].
  split; [done|]. split; [by apply foldl_insert_loaded|].
  intros k Hk. by apply foldl_insert_other.
Qed.

Lemma upsert_participants_replay rows (D : DB) :
  (length rows ≤ 100)%nat →
  NoDup rows.*1 →
  rows_loaded rows (heat_participants D) →
  execute_values_if_any upsert_participants rows (clean D) = (inr [], clean D).
Proof.
  intros Hlen Hnd Hloaded. destruct (decide (rows = [])) as [->|Hne]; [done|].
  rewrite execute_values_if_any_one_page by done.
  rewrite bind_unfold, execute_clean. unfold upsert_participants.
  unfold distinct_keys. rewrite bool_decide_eq_true_2 by done.
  rewrite foldl_insert_absorb by done.
  by rewrite set_heat_participants_same.
Qed.

Lemma upsert_heat_post match_id seq f (d : DB) id c' :
  heats_wf d →
  execute (upsert_heat match_id seq f) (clean d) = (inr id, c') →
  ∃ hs nx, c' = clean (set_heats hs nx d)
           ∧ heats_wf (set_heats hs nx d)
           ∧ hs !! (match_id, seq) = Some (id, f)
           ∧ ∀ k, k ≠ (match_id, seq) → hs !! k = heats d !! k.
Proof.
  intros [Hlt Hinj]. rewrite execute_clean. unfold upsert_heat.
  destruct (heats d !! (match_id, seq)) as [[id0 f0]|] eqn:Hrow;
    intros [= <- <-]; eexists _, _; (split; [reflexivity|]).
  - split; [|split; [apply lookup_insert_eq|]].
    + split; simpl.
      * intros k id f1. rewrite lookup_insert.
        case_decide; [intros [= <- <-]|]; eauto.
      * intros k1 k2 id f1 f2. rewrite !lookup_insert.
        repeat case_decide; subst; intros; simplify_eq; eauto.
    + intros k Hk. by rewrite lookup_insert_ne.
  - split; [|split; [apply lookup_insert_eq|]].
    + split; simpl.
      * intros k id f1. rewrite lookup_insert.
        case_decide; [intros [= <- <-]; lia|].
        intros ?%Hlt. lia.
      * intros k1 k2 id f1 f2. rewrite !lookup_insert.
        repeat case_decide; subst; intros; simplify_eq; eauto.
        -- match goal with Hk : heats d !! _ = Some _ |- _ =>
             apply Hlt in Hk; lia end.
        -- match goal with Hk : heats d !! _ = Some _ |- _ =>
             apply Hlt in Hk; lia end.
    + intros k Hk. by rewrite lookup_insert_ne.
Qed.

Lemma upsert_heat_replay match_id seq f id (D : DB) :
  heats D !! (match_id, seq) = Some (id, f) →
  execute (upsert_heat match_id seq f) (clean D) = (inr id, clean D).
Proof.
  intros Hrow. rewrite execute_clean. unfold upsert_heat. rewrite Hrow.
  rewrite insert_id by done. by rewrite set_heats_same.
Qed.

(** On a store that holds the rows of the heats, the loop returns and
    changes nothing. *)
Lemma process_heats_replay match_id r2id stat_map tl heat_list :
  ∀ counter (D : DB),
    Forall (λ h, (length (ht_riders h) ≤ 100)%nat) heat_list →
    heats_loaded match_id r2id stat_map tl heat_list counter D →
    process_heats match_id r2id stat_map tl heat_list counter (clean D)
    = (inr (), clean D).
Proof.
  induction heat_list as [|h rest IH]; intros counter D Hlen Hloaded;
    cbn [process_heats heats_loaded] in *; [done|].
  apply Forall_cons in Hlen as [Hlen_h Hlen].
  destruct Hloaded as [Hhead Hrest].
  destruct (truthy_opt (ht_heat_number h)) eqn:Hlabel; [|by apply IH].
  destruct (Hhead eq_refl) as (f & heat_id & Hf & Hrow & Hnd & Hrows).
  unfold heat_fields in Hf.
  destruct (ht_hometeam_heat_score h) as [s1|]; [|done].
  destruct (ht_awayteam_heat_score h) as [s2|]; [|done].
  destruct (ht_hometeam_current_match_score h) as [s3|]; [|done].
  destruct (ht_awayteam_current_match_score h) as [s4|]; [|done].
  injection Hf as <-.
  unfold score_or_none. rewrite !ret_bind.
  rewrite bind_unfold, (upsert_heat_replay _ _ _ heat_id) by done.
  rewrite bind_unfold, upsert_participants_replay; [by apply IH| |done|done].
  etrans; [apply length_omap_le|done].
Qed.

Lemma heats_wf_ext (d d' : DB) :
  heats d' = heats d → heats_next d' = heats_next d →
  heats_wf d → heats_wf d'.
Proof. unfold heats_wf. intros -> ->. done. Qed.

Lemma heats_loaded_ext match_id r2id stat_map tl heat_list : ∀ counter (d d' : DB),
  heats d' = heats d → heat_participants d' = heat_participants d →
  heats_loaded match_id r2id stat_map tl heat_list counter d →
  heats_loaded match_id r2id stat_map tl heat_list counter d'.
Proof.
  induction heat_list as [|h rest IH]; intros counter d d' Hh Hp;
    cbn [heats_loaded]; [done|].
  rewrite Hh, Hp. intros [Hhead Hrest]. split; [done|]. by eapply IH.
Qed.

(** The loop, run on a store whose heat keys are well formed: it changes
    [heats] and [heat_participants] only, leaves the store holding the rows
    of the heats, and touches no participant row of a heat that is not one
    of its own. *)
Lemma process_heats_post match_id r2id stat_map tl heat_list :
  ∀ counter (d : DB) c',
    heats_wf d →
    Forall (λ h, (length (ht_riders h) ≤ 100)%nat) heat_list →
    process_heats match_id r2id stat_map tl heat_list counter (clean d)
    = (inr (), c') →
    ∃ hs nx ps,
      c' = clean (set_heats hs nx (set_heat_participants ps d))
      ∧ heats_wf (set_heats hs nx (set_heat_participants ps d))
      ∧ heats_loaded match_id r2id stat_map tl heat_list counter
          (set_heats hs nx (set_heat_participants ps d))
      ∧ (∀ k, (∀ k' f (i : nat) h,
                  hs !! k' = Some (k.1, f) → heat_list !! i = Some h →
                  truthy_opt (ht_heat_number h) = true →
                  k' ≠ (match_id, counter + Z.of_nat i + 1)%Z) →
              ps !! k = heat_participants d !! k).
Proof.
  induction heat_list as [|h rest IH]; intros counter d c' Hwf Hlen Hrun.
  - injection Hrun as <-. exists (heats d), (heats_next d), (heat_participants d).
    rewrite set_heat_participants_same, set_heats_same.
    split; [done|]. split; [done|]. split; [done|]. done.
  - apply Forall_cons in Hlen as [Hlen_h Hlen].
    cbn [process_heats] in Hrun.
    destruct (truthy_opt (ht_heat_number h)) eqn:Hlabel.
    + apply bind_inr in Hrun as (? & ? & Hs1 & Hrun).
      apply score_or_none_inr in Hs1 as (-> & s1 & Hs1 & ->).
      apply bind_inr in Hrun as (? & ? & Hs2 & Hrun).
      apply score_or_none_inr in Hs2 as (-> & s2 & Hs2 & ->).
      apply bind_inr in Hrun as (? & ? & Hs3 & Hrun).
      apply score_or_none_inr in Hs3 as (-> & s3 & Hs3 & ->).
      apply bind_inr in Hrun as (? & ? & Hs4 & Hrun).
      apply score_or_none_inr in Hs4 as (-> & s4 & Hs4 & ->).
      apply bind_inr in Hrun as (heat_id & c1 & Hheat & Hrun).
      apply bind_inr in Hrun as (? & c2 & Hpart & Hrun).
      apply upsert_heat_post in Hheat as (hs1 & nx1 & -> & Hwf1 & Hrow1 & Hother1);
        [|done].
      apply upsert_participants_post in Hpart
        as (ps2 & -> & Hnd & Hrows2 & Hother2);
        [|by etrans; [apply length_omap_le|]].
      pose proof (process_heats_positions _ _ _ _ _ _ _ _ Hrun) as [_ Hframe].
      apply IH in Hrun as (hs' & nx' & ps' & -> & Hwf' & Hloaded' & Hpframe');
        [|by eapply heats_wf_ext; [| |exact Hwf1]|done].
      exists hs', nx', ps'.
      assert (Heq : set_heats hs' nx'
                      (set_heat_participants ps'
                         (set_heat_participants ps2 (set_heats hs1 nx1 d)))
                    = set_heats hs' nx' (set_heat_participants ps' d))
        by (by destruct d).
      rewrite Heq in *. clear Heq.
      assert (Hrow' : hs' !! (match_id, (counter + 1)%Z)
                      = hs1 !! (match_id, (counter + 1)%Z)).
      { apply (Hframe (match_id, (counter + 1)%Z)).
        intros i h' _ _ [= ?]. lia. }
      split; [done|]. split; [done|]. split; [|].
      * cbn [heats_loaded]. split.
        -- intros _. eexists _, heat_id. split.
           { unfold heat_fields. rewrite Hs1, Hs2, Hs3, Hs4. reflexivity. }
           split; [by rewrite <- Hrow1, <- Hrow'|]. split; [done|].
           intros k v Hin. simpl.
           rewrite Hpframe'; [simpl; by apply Hrows2|].
           intros k' f i h' Hk' Hi Hl' ->.
           assert (Hk1 : k.1 = heat_id).
           { eapply participant_rows_keys. apply list_elem_of_fmap.
             by exists (k, v). }
           rewrite Hk1 in Hk'.
           destruct Hwf' as [_ Hinj]. simpl in Hinj.
           rewrite Hrow1 in Hrow'.
           specialize (Hinj _ _ _ _ _ Hk' Hrow'). injection Hinj. lia.
        -- done.
      * intros k Hk. rewrite Hpframe'.
        -- simpl. rewrite Hother2; [done|].
           intros Hin%participant_rows_keys.
           rewrite Hrow1 in Hrow'. rewrite <- Hin in Hrow'.
           specialize (Hk _ _ 0%nat h Hrow' eq_refl Hlabel).
           apply Hk. f_equal. lia.
        -- intros k' f i h' Hk' Hi Hl'.
           specialize (Hk k' f (S i) h' Hk' Hi Hl').
           by replace (counter + Z.of_nat (S i) + 1)%Z
             with (counter + 1 + Z.of_nat i + 1)%Z in Hk by lia.
    + apply IH in Hrun as (hs' & nx' & ps' & -> & Hwf' & Hloaded' & Hpframe');
        [|done|done].
      exists hs', nx', ps'. split; [done|]. split; [done|]. split.
      * cbn [heats_loaded]. split; [congruence|done].
      * intros k Hk. apply Hpframe'.
        intros k' f i h' Hk' Hi Hl'.
        specialize (Hk k' f (S i) h' Hk' Hi Hl').
        by replace (counter + Z.of_nat (S i) + 1)%Z
          with (counter + 1 + Z.of_nat i + 1)%Z in Hk by lia.
Qed.

End ReloadHeats.

(* --------------------------------------------------------------------- *)
(** *** Reloading: the team blocks *)

Section FindFacts.
Context {A : Type}.

Lemma find_fmap_inv (p : A → bool) (f : A → A) (l : list A) :
  (∀ r, p (f r) = p r) → List.find p (f <$> l) = f <$> List.find p l.
Proof.
  intros Hp. induction l as [|x l IH]; simpl; [done|].
  rewrite Hp. by destruct (p x).
Qed.

Lemma find_app (p : A → bool) (l1 l2 : list A) :
  List.find p (l1 ++ l2)
  = match List.find p l1 with
    | Some x => Some x
    | None => List.find p l2
    end.
Proof. induction l1 as [|x l1 IH]; simpl; [done|]. by destruct (p x). Qed.

Lemma find_none_forall (p : A → bool) (l : list A) :
  List.find p l = None ↔ Forall (λ r, p r = false) l.
Proof.
  induction l as [|x l IH]; simpl.
  - split; [constructor|done].
  - rewrite Forall_cons. destruct (p x); [naive_solver|]. rewrite IH. naive_solver.
Qed.

Lemma find_some_elem (p : A → bool) (l : list A) (x : A) :
  List.find p l = Some x → x ∈ l ∧ p x = true.
Proof.
  intros [Hin Hp]%List.find_some. split; [|done]. by apply list_elem_of_In.
Qed.

Lemma existsb_false_forall (p : A → bool) (l : list A) :
  existsb p l = false ↔ Forall (λ r, p r = false) l.
Proof.
  induction l as [|x l IH]; simpl.
  - split; [constructor|done].
  - rewrite Forall_cons, orb_false_iff. by rewrite IH.
Qed.

End FindFacts.

Lemma code_taken_false c ts : code_taken c ts = false ↔ find_code c ts = None.
Proof.
  unfold code_taken, find_code.
  by rewrite existsb_false_forall, find_none_forall.
Qed.

Lemma coalesce_idemp {A} (x y : option A) :
  coalesce (coalesce x y) y = coalesce x y.
Proof. by destruct x, y. Qed.

Lemma coalesce_same {A} (x : option A) : coalesce x x = x.
Proof. by destruct x. Qed.

Lemma coalesce_none_r {A} (x : option A) : coalesce x None = x.
Proof. by destruct x. Qed.

Section TeamStatements.
Context `{PyRuntime}.

Lemma set_teams_same (d : DB) : set_teams (teams d) (teams_next d) d = d.
Proof. by destruct d. Qed.

Lemma select_team_by_code_clean c (d : DB) :
  execute (select_team_by_code c) (clean d)
  = (inr (team_id <$> find_code c (teams d)), clean d).
Proof. by rewrite execute_clean. Qed.

Lemma select_team_by_name_clean n (d : DB) :
  execute (select_team_by_name n) (clean d)
  = (inr (team_id <$> find_name n (teams d)), clean d).
Proof. by rewrite execute_clean. Qed.

Lemma update_team_name_clean n a id (d : DB) :
  execute (update_team_name n a id) (clean d)
  = (inr (), clean (set_teams (fill_name n a id <$> teams d) (teams_next d) d)).
Proof. by rewrite execute_clean. Qed.

Lemma update_team_code_clean c a id (d : DB) :
  existsb (λ r, bool_decide (team_id r = id)
                && bool_decide (team_code r = None)) (teams d)
  && from_option (λ c', code_taken c' (teams d)) false c = false →
  execute (update_team_code c a id) (clean d)
  = (inr (), clean (set_teams (fill_code c a id <$> teams d) (teams_next d) d)).
Proof. intros Hok. rewrite execute_clean. unfold update_team_code. by rewrite Hok. Qed.

Lemma row_eta (r : TeamRow) c n a :
  c = team_code r → n = full_name r → a = team_arena_id r →
  mkTeamRow (team_id r) c n a = r.
Proof. intros -> -> ->. by destruct r. Qed.

Lemma fill_name_id n a id ts :
  name_filled n a id ts → fill_name n a id <$> ts = ts.
Proof.
  intros Hfilled. rewrite <- (list_fmap_id ts) at 2.
  apply Forall_fmap_ext, Forall_forall. intros r Hr. unfold fill_name.
  case_bool_decide as Hid; [|done].
  destruct (Hfilled r Hr Hid) as [Hn Ha]. by apply row_eta.
Qed.

Lemma fill_code_id c a id ts :
  code_filled c a id ts → fill_code c a id <$> ts = ts.
Proof.
  intros Hfilled. rewrite <- (list_fmap_id ts) at 2.
  apply Forall_fmap_ext, Forall_forall. intros r Hr. unfold fill_code.
  case_bool_decide as Hid; [|done].
  destruct (Hfilled r Hr Hid) as [Hc Ha]. by apply row_eta.
Qed.

(** A row that takes nothing more from the code cannot violate the unique
    index. *)
Lemma code_filled_no_violation c a id ts :
  code_filled c a id ts →
  existsb (λ r, bool_decide (team_id r = id)
                && bool_decide (team_code r = None)) ts
  && from_option (λ c', code_taken c' ts) false c = false.
Proof.
  intros Hfilled. destruct c as [c'|]; [|apply andb_false_r].
  apply andb_false_iff. left. apply existsb_false_forall, Forall_forall.
  intros r Hr. apply andb_false_iff.
  destruct (decide (team_id r = id)) as [Hid|Hid].
  - right. apply bool_decide_eq_false. intros Hnone.
    destruct (Hfilled r Hr Hid) as [Hc _]. by rewrite Hnone in Hc.
  - left. by apply bool_decide_eq_false.
Qed.

(** On a store that has the team settled, the block returns the settled
    answer and changes nothing. *)
Lemma process_team_replay c n a r (D : DB) :
  team_settled c n a r (teams D) →
  process_team c n a (clean D) = (inr r, clean D).
Proof.
  unfold process_team.
  intros [(Hc & c' & id & -> & -> & Hfind & Hfilled)
         |[(Hcode & Hn & n' & id & -> & -> & Hfind & Hfilled)
          |[(Hc & Hn & -> & c' & n' & -> & -> & Htaken & Hfind)
           |(Hc & Hn & ->)]]].
  - rewrite Hc. simpl.
    rewrite bind_unfold, bind_unfold, select_team_by_code_clean, Hfind.
    rewrite bind_unfold, update_team_name_clean.
    rewrite fill_name_id, set_teams_same by done. reflexivity.
  - assert (Hblock1 :
      (if truthy_opt c
       then execute (select_team_by_code (default "" c))
            ≫= λ result, match result with
                         | Some id0 =>
                             execute (update_team_name (Some n') a id0)
                             ≫= λ _, mret (Some id0)
                         | None => mret None
                         end
       else mret None) (clean D) = (inr None, clean D)).
    { destruct c as [c'|]; [|done]. simpl.
      destruct (truthy c') eqn:Hc'; [|done].
      rewrite bind_unfold, select_team_by_code_clean.
      by rewrite (Hcode c' eq_refl Hc'). }
    rewrite bind_unfold, Hblock1. rewrite Hn. simpl.
    rewrite bind_unfold, bind_unfold, select_team_by_name_clean, Hfind.
    rewrite bind_unfold, update_team_code_clean
      by (by eapply code_filled_no_violation).
    rewrite fill_code_id, set_teams_same by done. reflexivity.
  - simpl in Hc, Hn. simpl. rewrite Hc, Hn. simpl.
    rewrite ret_bind.
    rewrite bind_unfold, bind_unfold, select_team_by_name_clean, Hfind. simpl.
    rewrite bind_unfold, execute_clean. unfold insert_team. simpl.
    by rewrite Htaken.
  - by rewrite Hc, Hn.
Qed.

End TeamStatements.

(** Rows under the changes a team block may make. *)
Section TeamChange.

Lemma row_filled_refl T c n r : row_filled T c n r r.
Proof. unfold row_filled. naive_solver. Qed.

Lemma team_change_refl c n ts nx : team_change c n ts nx ts nx.
Proof.
  exists ts, []. rewrite app_nil_r. split; [done|]. split; [|by left].
  apply Forall_Forall2_diag, Forall_forall. intros r _. apply row_filled_refl.
Qed.

Lemma row_filled_fill_name T c n a id r : row_filled T c n r (fill_name n a id r).
Proof.
  unfold row_filled, fill_name. case_bool_decide; simpl;
    [|by apply row_filled_refl].
  split; [done|]. split; [by left|]. split.
  - destruct (full_name r); simpl; [by left|by right].
  - by intros x ->.
Qed.

Lemma row_filled_fill_code T c n a id r :
  (team_id r = id → team_code r = None → code_free c T) →
  row_filled T c n r (fill_code c a id r).
Proof.
  intros Hfree. unfold row_filled, fill_code. case_bool_decide as Hid; simpl;
    [|by apply row_filled_refl].
  split; [done|]. split; [|split; [by left|by intros x ->]].
  destruct (team_code r) eqn:Hc; simpl; [by left|right]. eauto.
Qed.

Lemma filled_ids T c n ts ts1 :
  Forall2 (row_filled T c n) ts ts1 → team_id <$> ts1 = team_id <$> ts.
Proof.
  induction 1 as [|r r' ts ts1 (Hid & _) _ IH]; simpl; [done|]. by f_equal.
Qed.

Lemma elem_of_filled T c n ts ts1 r' :
  Forall2 (row_filled T c n) ts ts1 → r' ∈ ts1 →
  ∃ r, r ∈ ts ∧ row_filled T c n r r'.
Proof.
  intros Hfilled Hin. apply list_elem_of_lookup in Hin as [i Hi].
  destruct (Forall2_lookup_r _ _ _ _ _ Hfilled Hi) as (r & Hr & Hrr').
  exists r. split; [|done]. apply list_elem_of_lookup. eauto.
Qed.

Lemma team_change_wf c n ts nx ts' nx' :
  team_keys_wf ts nx → team_change c n ts nx ts' nx' → team_keys_wf ts' nx'.
Proof.
  intros [Hnd Hlt] (ts1 & extra & -> & Hfilled & Hextra).
  pose proof (filled_ids _ _ _ _ _ Hfilled) as Hids.
  assert (Hlt1 : Forall (λ r, (team_id r < nx)%Z) ts1).
  { apply Forall_forall. intros r' Hr'.
    destruct (elem_of_filled _ _ _ _ _ _ Hfilled Hr') as (r & Hr & Hid & _).
    rewrite Forall_forall in Hlt. rewrite Hid. by apply Hlt. }
  destruct Hextra as [[-> ->]|([a ->] & -> & _)].
  - rewrite app_nil_r. split; [by rewrite Hids|done].
  - split.
    + rewrite fmap_app, Hids. simpl. apply NoDup_app. split; [done|].
      split; [|apply NoDup_singleton].
      intros i Hi ->%list_elem_of_singleton.
      apply list_elem_of_fmap in Hi as (r & Hr & Hin).
      rewrite Forall_forall in Hlt. apply Hlt in Hin. lia.
    + apply Forall_app. split.
      * eapply Forall_impl; [done|]. simpl. intros; lia.
      * constructor; [simpl; lia|constructor].
Qed.

(** A code taken before stays with rows of the same keys; a code or a name
    that the block does not bring is found as before. *)
Lemma find_code_filled T c2 n2 c' l l1 ρ :
  code_taken c' T = true →
  Forall2 (row_filled T c2 n2) l l1 →
  find_code c' l = Some ρ →
  ∃ ρ', find_code c' l1 = Some ρ' ∧ team_id ρ' = team_id ρ.
Proof.
  intros Htaken Hfilled. unfold find_code.
  induction Hfilled as [|r r' l l1 (Hid & Hcode & _) _ IH]; simpl; [done|].
  case_bool_decide as Hr.
  - intros [= <-]. exists r'. split; [|done].
    rewrite bool_decide_eq_true_2; [done|].
    destruct Hcode as [->|(Hnone & _)]; congruence.
  - intros Hfind. rewrite bool_decide_eq_false_2; [by apply IH|].
    destruct Hcode as [->|(_ & -> & Hfree)]; [done|].
    intros ->. unfold code_free in Hfree. simpl in Hfree. congruence.
Qed.

Lemma find_code_none_filled T c2 n2 c' l l1 :
  c2 ≠ Some c' →
  Forall2 (row_filled T c2 n2) l l1 →
  find_code c' l = None → find_code c' l1 = None.
Proof.
  intros Hne Hfilled. unfold find_code.
  induction Hfilled as [|r r' l l1 (Hid & Hcode & _) _ IH]; simpl; [done|].
  case_bool_decide as Hr; [done|].
  intros Hfind. rewrite bool_decide_eq_false_2; [by apply IH|].
  destruct Hcode as [->|(_ & -> & _)]; done.
Qed.

Lemma find_name_filled T c2 n2 n' l l1 :
  n2 ≠ Some n' →
  Forall2 (row_filled T c2 n2) l l1 →
  team_id <$> find_name n' l1 = team_id <$> find_name n' l.
Proof.
  intros Hne Hfilled. unfold find_name.
  induction Hfilled as [|r r' l l1 (Hid & _ & Hname & _) _ IH]; simpl; [done|].
  assert (Hiff : full_name r' = Some n' ↔ full_name r = Some n').
  { destruct Hname as [->|(Hnone & ->)]; [done|]. split; congruence. }
  case_bool_decide as Hr.
  - rewrite bool_decide_eq_true_2 by (by apply Hiff). simpl. by f_equal.
  - rewrite bool_decide_eq_false_2 by (by intros ?%Hiff). apply IH.
Qed.

Lemma code_taken_true_find c ts :
  code_taken c ts = true → ∃ ρ, find_code c ts = Some ρ.
Proof.
  intros Htaken. destruct (find_code c ts) as [ρ|] eqn:Hfind; [eauto|].
  apply code_taken_false in Hfind. congruence.
Qed.

Lemma find_code_some_taken c ts ρ :
  find_code c ts = Some ρ → code_taken c ts = true.
Proof.
  intros Hfind. destruct (code_taken c ts) eqn:Htaken; [done|].
  apply code_taken_false in Htaken. congruence.
Qed.

Lemma fmap_find_some {A B} (f : A → B) (o : option A) (b : B) :
  f <$> o = Some b → ∃ a, o = Some a ∧ f a = b.
Proof. destruct o as [a|]; [|done]. intros [= <-]. eauto. Qed.

Lemma name_filled_change T c2 n2 n a id ts ts1 :
  Forall2 (row_filled T c2 n2) ts ts1 →
  name_filled n a id ts → name_filled n a id ts1.
Proof.
  intros Hfilled Hn r' Hr' Hid.
  destruct (elem_of_filled _ _ _ _ _ _ Hfilled Hr')
    as (r & Hr & Hid' & _ & Hname & Harena).
  destruct (Hn r Hr) as [Hn1 Ha1]; [congruence|]. split.
  - destruct Hname as [->|[Hnone ->]]; [done|].
    rewrite Hnone in Hn1. simpl in Hn1. subst n. apply coalesce_none_r.
  - destruct (team_arena_id r) as [x|] eqn:Hx.
    + by rewrite (Harena x eq_refl).
    + simpl in Ha1. subst a. apply coalesce_none_r.
Qed.

Lemma code_filled_change T c2 n2 c a id ts ts1 :
  Forall2 (row_filled T c2 n2) ts ts1 →
  code_filled c a id ts → code_filled c a id ts1.
Proof.
  intros Hfilled Hc r' Hr' Hid.
  destruct (elem_of_filled _ _ _ _ _ _ Hfilled Hr')
    as (r & Hr & Hid' & Hcode & _ & Harena).
  destruct (Hc r Hr) as [Hc1 Ha1]; [congruence|]. split.
  - destruct Hcode as [->|(Hnone & -> & _)]; [done|].
    rewrite Hnone in Hc1. simpl in Hc1. subst c. apply coalesce_none_r.
  - destruct (team_arena_id r) as [x|] eqn:Hx.
    + by rewrite (Harena x eq_refl).
    + simpl in Ha1. subst a. apply coalesce_none_r.
Qed.

(** What one team block has settled survives the block of a team with
    another code and another name. *)
Lemma team_settled_stable c n a r ts nx c2 n2 ts' nx' :
  team_keys_wf ts nx →
  team_settled c n a r ts →
  team_change c2 n2 ts nx ts' nx' →
  (truthy_opt c = true → c2 ≠ c) →
  (truthy_opt n = true → n2 ≠ n) →
  team_settled c n a r ts'.
Proof.
  intros [_ Hlt] Hsettled (ts1 & extra & -> & Hfilled & Hextra) Hc2 Hn2.
  rewrite Forall_forall in Hlt.
  assert (Hnew : ∀ r', r' ∈ extra →
            team_id r' = nx ∧ team_code r' = c2 ∧ full_name r' = n2).
  { destruct Hextra as [[-> _]|([a' ->] & _)]; intros r' Hr'.
    - by apply elem_of_nil in Hr'.
    - by apply list_elem_of_singleton in Hr' as ->. }
  destruct Hsettled
    as [(Hc & c' & id & -> & -> & Hfind & Hfill)
       |[(Hcode & Hn & n' & id & -> & -> & Hfind & Hfill)
        |[(Hc & Hn & -> & c' & n' & -> & -> & Htaken & Hfind)
         |(Hc & Hn & ->)]]].
  - left. split; [done|]. exists c', id. split; [done|]. split; [done|].
    apply fmap_find_some in Hfind as (ρ & Hfind & Hid).
    pose proof (find_some_elem _ _ _ Hfind) as [Hρ _].
    destruct (find_code_filled _ _ _ _ _ _ _ (find_code_some_taken _ _ _ Hfind)
                Hfilled Hfind) as (ρ' & Hfind' & Hid').
    split.
    + unfold find_code in *. rewrite find_app, Hfind'. simpl. congruence.
    + intros r' [Hr'|Hr']%elem_of_app Hidr'.
      * by eapply name_filled_change.
      * destruct (Hnew r' Hr') as (Hnx & _). apply Hlt in Hρ. lia.
  - right. left. split; [|split; [done|]].
    + intros c' -> Hc'. unfold find_code. rewrite find_app.
      assert (Hne : c2 ≠ Some c') by (by apply Hc2).
      fold (find_code c' ts1).
      rewrite (find_code_none_filled _ _ _ _ _ _ Hne Hfilled)
        by (by apply Hcode).
      apply find_none_forall, Forall_forall. intros r' Hr'.
      destruct (Hnew r' Hr') as (_ & Hcode' & _).
      apply bool_decide_eq_false. congruence.
    + exists n', id. split; [done|]. split; [done|].
      pose proof (find_name_filled _ _ _ n' _ _ (Hn2 Hn) Hfilled) as Hname.
      rewrite Hfind in Hname.
      apply fmap_find_some in Hname as (ρ' & Hfind' & Hid').
      apply fmap_find_some in Hfind as (ρ & Hfind & Hid).
      pose proof (find_some_elem _ _ _ Hfind) as [Hρ _].
      split.
      * unfold find_name in *. rewrite find_app, Hfind'. simpl. congruence.
      * intros r' [Hr'|Hr']%elem_of_app Hidr'.
        -- by eapply code_filled_change.
        -- destruct (Hnew r' Hr') as (Hnx & _). apply Hlt in Hρ. lia.
  - right. right. left. split; [done|]. split; [done|]. split; [done|].
    exists c', n'. split; [done|]. split; [done|]. split.
    + destruct (code_taken_true_find _ _ Htaken) as (ρ & Hfind0).
      destruct (find_code_filled _ _ _ _ _ _ _ Htaken Hfilled Hfind0)
        as (ρ' & Hfind' & _).
      apply (find_code_some_taken _ _ ρ').
      unfold find_code in *. by rewrite find_app, Hfind'.
    + pose proof (find_name_filled _ _ _ n' _ _ (Hn2 Hn) Hfilled) as Hname.
      rewrite Hfind in Hname. simpl in Hname.
      unfold find_name in *. rewrite find_app.
      destruct (List.find _ ts1); [done|].
      apply find_none_forall, Forall_forall. intros r' Hr'.
      destruct (Hnew r' Hr') as (_ & _ & Hname').
      apply bool_decide_eq_false. rewrite Hname'. by apply Hn2.
  - by repeat right.
Qed.

End TeamChange.

Section TeamPost.
Context `{PyRuntime}.

Lemma nodup_ids_eq ts (r1 r2 : TeamRow) :
  NoDup (team_id <$> ts) → r1 ∈ ts → r2 ∈ ts → team_id r1 = team_id r2 →
  r1 = r2.
Proof.
  induction ts as [|r ts IH]; simpl; intros Hnd H1 H2 Hid.
  - by apply elem_of_nil in H1.
  - apply NoDup_cons in Hnd as [Hr Hnd].
    apply elem_of_cons in H1 as [->|H1]; apply elem_of_cons in H2 as [->|H2].
    + done.
    + exfalso. apply Hr. rewrite Hid. by apply list_elem_of_fmap_2.
    + exfalso. apply Hr. rewrite <- Hid. by apply list_elem_of_fmap_2.
    + by apply IH.
Qed.

Lemma fill_name_code n a id r : team_code (fill_name n a id r) = team_code r.
Proof. unfold fill_name. by case_bool_decide. Qed.

Lemma fill_name_key n a id r : team_id (fill_name n a id r) = team_id r.
Proof. unfold fill_name. by case_bool_decide. Qed.

Lemma fill_code_name c a id r : full_name (fill_code c a id r) = full_name r.
Proof. unfold fill_code. by case_bool_decide. Qed.

Lemma fill_code_key c a id r : team_id (fill_code c a id r) = team_id r.
Proof. unfold fill_code. by case_bool_decide. Qed.

Lemma settled_by_code c' n a ts ρ :
  truthy c' = true →
  find_code c' ts = Some ρ →
  team_settled (Some c') n a (Some (team_id ρ))
    (fill_name n a (team_id ρ) <$> ts).
Proof.
  intros Hc Hfind. left. split; [done|].
  exists c', (team_id ρ). split; [done|]. split; [done|]. split.
  - unfold find_code in *. rewrite find_fmap_inv, Hfind.
    + simpl. by rewrite fill_name_key.
    + intros r. by rewrite fill_name_code.
  - intros r' (r0 & -> & Hr0)%list_elem_of_fmap Hid.
    rewrite fill_name_key in Hid. unfold fill_name.
    rewrite bool_decide_eq_true_2 by done. simpl.
    by rewrite !coalesce_idemp.
Qed.

Lemma settled_by_name c n' a ts ρ :
  NoDup (team_id <$> ts) →
  (∀ c', c = Some c' → truthy c' = true → find_code c' ts = None) →
  truthy n' = true →
  find_name n' ts = Some ρ →
  team_settled c (Some n') a (Some (team_id ρ))
    (fill_code c a (team_id ρ) <$> ts).
Proof.
  intros Hnd Hcode Hn Hfind.
  pose proof (find_some_elem _ _ _ Hfind) as [Hρ Hname%bool_decide_eq_true].
  assert (Hfilled : code_filled c a (team_id ρ)
                      (fill_code c a (team_id ρ) <$> ts)).
  { intros r' (r0 & -> & Hr0)%list_elem_of_fmap Hid.
    rewrite fill_code_key in Hid. unfold fill_code.
    rewrite bool_decide_eq_true_2 by done. simpl.
    by rewrite !coalesce_idemp. }
  assert (Hfind' : team_id <$> find_name n' (fill_code c a (team_id ρ) <$> ts)
                   = Some (team_id ρ)).
  { unfold find_name in *. rewrite find_fmap_inv, Hfind.
    - simpl. by rewrite fill_code_key.
    - intros r. by rewrite fill_code_name. }
  destruct (decide (truthy_opt c = true ∧ team_code ρ = None))
    as [[Hc Hnone]|Hnot].
  - destruct c as [c'|]; [|done]. simpl in Hc.
    pose proof (Hcode c' eq_refl Hc) as Hfree.
    apply find_none_forall in Hfree. rewrite Forall_forall in Hfree.
    left. split; [done|]. exists c', (team_id ρ).
    split; [done|]. split; [done|]. split.
    + destruct (find_code c' (fill_code (Some c') a (team_id ρ) <$> ts))
        as [x|] eqn:Hx.
      * simpl. f_equal.
        apply find_some_elem in Hx as [Hx Hxc%bool_decide_eq_true].
        apply list_elem_of_fmap in Hx as (r0 & -> & Hr0).
        rewrite fill_code_key. unfold fill_code in Hxc.
        case_bool_decide as Hid; [done|].
        apply Hfree in Hr0. apply bool_decide_eq_false in Hr0. done.
      * exfalso. apply find_none_forall in Hx. rewrite Forall_forall in Hx.
        specialize (Hx (fill_code (Some c') a (team_id ρ) ρ)).
        rewrite bool_decide_eq_false in Hx. apply Hx.
        -- by apply list_elem_of_fmap_2.
        -- unfold fill_code. rewrite bool_decide_eq_true_2 by done.
           simpl. by rewrite Hnone.
    + intros r' (r0 & -> & Hr0)%list_elem_of_fmap Hid.
      rewrite fill_code_key in Hid.
      assert (r0 = ρ) as -> by (by eapply nodup_ids_eq).
      rewrite fill_code_name, Hname. split; [done|].
      unfold fill_code. rewrite bool_decide_eq_true_2 by done. simpl.
      by rewrite coalesce_idemp.
  - right. left. split; [|split; [done|]].
    + intros c' -> Hc'. pose proof (Hcode c' eq_refl Hc') as Hfree.
      apply find_none_forall in Hfree. rewrite Forall_forall in Hfree.
      apply find_none_forall, Forall_forall.
      intros r' (r0 & -> & Hr0)%list_elem_of_fmap.
      pose proof (Hfree r0 Hr0) as Hr0c. apply bool_decide_eq_false in Hr0c.
      apply bool_decide_eq_false. unfold fill_code.
      case_bool_decide as Hid; [|done]. simpl.
      assert (r0 = ρ) as -> by (by eapply nodup_ids_eq).
      destruct (team_code ρ) eqn:Hcρ; [done|].
      exfalso. apply Hnot. done.
    + exists n', (team_id ρ). done.
Qed.

Lemma settled_inserted c n a ts nx :
  team_keys_wf ts nx →
  (∀ c', c = Some c' → truthy c' = true → find_code c' ts = None) →
  (∀ n', n = Some n' → truthy n' = true → find_name n' ts = None) →
  truthy_opt c || truthy_opt n = true →
  team_settled c n a (Some nx) (ts ++ [mkTeamRow nx c n a]).
Proof.
  intros [_ Hlt] Hcode Hname Hsome. rewrite Forall_forall in Hlt.
  assert (Hnew : ∀ r, r ∈ ts ++ [mkTeamRow nx c n a] → team_id r = nx →
                      r = mkTeamRow nx c n a).
  { intros r [Hr|Hr%list_elem_of_singleton]%elem_of_app Hid; [|done].
    apply Hlt in Hr. lia. }
  destruct (truthy_opt c) eqn:Hc.
  - destruct c as [c'|]; [|done]. simpl in Hc.
    left. split; [done|]. exists c', nx. split; [done|]. split; [done|]. split.
    + unfold find_code in *. rewrite find_app.
      rewrite (Hcode c' eq_refl Hc). simpl.
      by rewrite bool_decide_eq_true_2.
    + intros r Hr Hid. rewrite (Hnew r Hr Hid). simpl.
      by rewrite !coalesce_same.
  - simpl in Hsome. destruct n as [n'|]; [|done]. simpl in Hsome.
    right. left. split; [|split; [done|]].
    + intros c' -> Hc'. simpl in Hc. congruence.
    + exists n', nx. split; [done|]. split; [done|]. split.
      * unfold find_name in *. rewrite find_app.
        rewrite (Hname n' eq_refl Hsome). simpl.
        by rewrite bool_decide_eq_true_2.
      * intros r Hr Hid. rewrite (Hnew r Hr Hid). simpl.
        by rewrite !coalesce_same.
Qed.

Lemma team_change_fill_name c n a id ts nx :
  team_change c n ts nx (fill_name n a id <$> ts) nx.
Proof.
  exists (fill_name n a id <$> ts), []. rewrite app_nil_r.
  split; [done|]. split; [|by left].
  apply Forall2_fmap_r, Forall_Forall2_diag, Forall_forall.
  intros r _. apply row_filled_fill_name.
Qed.

Lemma team_change_fill_code c n a id ts nx :
  existsb (λ r, bool_decide (team_id r = id)
                && bool_decide (team_code r = None)) ts
  && from_option (λ c', code_taken c' ts) false c = false →
  team_change c n ts nx (fill_code c a id <$> ts) nx.
Proof.
  intros Hok. exists (fill_code c a id <$> ts), []. rewrite app_nil_r.
  split; [done|]. split; [|by left].
  apply Forall2_fmap_r, Forall_Forall2_diag, Forall_forall.
  intros r Hr. apply row_filled_fill_code. intros Hid Hnone.
  apply andb_false_iff in Hok as [Hex|Hfree]; [|done].
  apply existsb_false_forall in Hex. rewrite Forall_forall in Hex.
  specialize (Hex r Hr). simpl in Hex.
  rewrite !bool_decide_eq_true_2 in Hex by done. done.
Qed.

Lemma team_change_insert c n a ts nx :
  code_free c ts →
  team_change c n ts nx (ts ++ [mkTeamRow nx c n a]) (nx + 1).
Proof.
  intros Hfree. exists ts, [mkTeamRow nx c n a]. split; [done|]. split.
  - apply Forall_Forall2_diag, Forall_forall. intros r _.
    apply row_filled_refl.
  - right. eauto.
Qed.

(** A team block that returns leaves a connection at rest, has the team
    settled in the [teams] it leaves, and has changed [teams] by filling
    rows and appending at most one. *)
Lemma process_team_post c n a (d : DB) r c' :
  teams_wf d →
  process_team c n a (clean d) = (inr r, c') →
  ∃ ts' nx', c' = clean (set_teams ts' nx' d)
     ∧ team_settled c n a r ts'
     ∧ team_change c n (teams d) (teams_next d) ts' nx'
     ∧ (r = None → ts' = teams d ∧ nx' = teams_next d).
Proof.
  intros Hwf Hrun. unfold process_team in Hrun.
  assert (Hby_code :
    (∃ c0 ρ, c = Some c0 ∧ truthy c0 = true
             ∧ find_code c0 (teams d) = Some ρ)
    ∨ (∀ c0, c = Some c0 → truthy c0 = true → find_code c0 (teams d) = None)).
  { destruct c as [c0|]; [|by right].
    destruct (truthy c0) eqn:Hc0; [|right; intros ? [= <-]; congruence].
    destruct (find_code c0 (teams d)) as [ρ|] eqn:Hfind; [left; eauto|].
    right. by intros ? [= <-]. }
  destruct Hby_code as [(c0 & ρ & -> & Hc0 & Hfind)|Hcode].
  { simpl in Hrun. rewrite Hc0 in Hrun.
    rewrite bind_unfold, bind_unfold, select_team_by_code_clean, Hfind in Hrun.
    simpl in Hrun. rewrite ret_bind in Hrun. injection Hrun as <- <-.
    eexists _, _. split; [done|]. split; [by apply settled_by_code|].
    split; [apply team_change_fill_name|done]. }
  match type of Hrun with
  | (?m ≫= _) _ = _ => assert (Hblock1 : m (clean d) = (inr None, clean d))
  end.
  { destruct c as [c0|]; [|done]. simpl.
    destruct (truthy c0) eqn:Hc0; [|done].
    rewrite bind_unfold, select_team_by_code_clean.
    by rewrite (Hcode c0 eq_refl Hc0). }
  rewrite bind_unfold, Hblock1 in Hrun. clear Hblock1.
  assert (Hby_name :
    (∃ n0 ρ, n = Some n0 ∧ truthy n0 = true
             ∧ find_name n0 (teams d) = Some ρ)
    ∨ (∀ n0, n = Some n0 → truthy n0 = true → find_name n0 (teams d) = None)).
  { destruct n as [n0|]; [|by right].
    destruct (truthy n0) eqn:Hn0; [|right; intros ? [= <-]; congruence].
    destruct (find_name n0 (teams d)) as [ρ|] eqn:Hfind; [left; eauto|].
    right. by intros ? [= <-]. }
  destruct Hby_name as [(n0 & ρ & -> & Hn0 & Hfind)|Hname].
  { simpl in Hrun. rewrite Hn0 in Hrun.
    rewrite bind_unfold, bind_unfold, select_team_by_name_clean, Hfind in Hrun.
    simpl in Hrun. rewrite bind_unfold, execute_clean in Hrun.
    unfold update_team_code in Hrun.
    destruct (existsb _ (teams d) && _) eqn:Hok; [done|].
    simpl in Hrun. injection Hrun as <- <-.
    eexists _, _. split; [done|].
    split; [apply settled_by_name; [apply Hwf|done..]|].
    split; [by apply team_change_fill_code|done]. }
  match type of Hrun with
  | (?m ≫= _) _ = _ => assert (Hblock2 : m (clean d) = (inr None, clean d))
  end.
  { destruct n as [n0|]; [|done]. simpl.
    destruct (truthy n0) eqn:Hn0; [|done].
    rewrite bind_unfold, select_team_by_name_clean.
    by rewrite (Hname n0 eq_refl Hn0). }
  rewrite bind_unfold, Hblock2 in Hrun. clear Hblock2.
  destruct (truthy_opt c || truthy_opt n) eqn:Hsome.
  - rewrite bind_unfold, execute_clean in Hrun. unfold insert_team in Hrun.
    destruct (from_option (λ c0, code_taken c0 (teams d)) false c) eqn:Htaken.
    + destruct c as [c0|]; [|done]. simpl in Htaken, Hrun.
      destruct (truthy c0) eqn:Hc0.
      { pose proof (Hcode c0 eq_refl Hc0) as Hfree.
        apply code_taken_false in Hfree. congruence. }
      simpl in Hsome. rewrite Hc0 in Hsome.
      destruct n as [n0|]; [|done]. simpl in Hsome.
      injection Hrun as <- <-.
      exists (teams d), (teams_next d). rewrite set_teams_same.
      split; [done|]. split; [|split; [apply team_change_refl|done]].
      right. right. left. simpl. rewrite Hc0.
      split; [done|]. split; [done|]. split; [done|].
      exists c0, n0. eauto.
    + simpl in Hrun. injection Hrun as <- <-.
      eexists _, _. split; [done|]. split; [by apply settled_inserted|].
      split; [by apply team_change_insert|done].
  - injection Hrun as <- <-. apply orb_false_iff in Hsome as [Hc Hn].
    exists (teams d), (teams_next d). rewrite set_teams_same.
    split; [done|]. split; [|split; [apply team_change_refl|done]].
    by right; right; right.
Qed.

End TeamPost.

(** *** A document on a store that holds it *)

Section ReloadDocument.
Context `{PyRuntime}.

Lemma block_team_name_inr b (c c' : Conn) n :
  block_team_name b c = (inr n, c') →
  c' = c ∧ n = team_name_of b ∧ ∀ s, b ≠ TeamText s.
Proof.
  unfold block_team_name. destruct b; [|done|]; intros [= <- <-]; done.
Qed.

Lemma block_team_name_replay b (c : Conn) :
  (∀ s, b ≠ TeamText s) →
  block_team_name b c = (inr (team_name_of b), c).
Proof.
  unfold block_team_name. destruct b as [|s|t]; [done| |done].
  intros Hb. by destruct (Hb s).
Qed.

Lemma score_or_zero_replay o (c : Conn) :
  is_Some o → score_or_zero o c = (inr (score_value o), c).
Proof. by intros [s ->]. Qed.

Lemma team_info_rows_length match_id team_id b :
  (length (team_info_rows match_id team_id b) ≤ 1)%nat.
Proof. unfold team_info_rows. destruct (block_dict b); simpl; lia. Qed.

Lemma rider_stat_rows_length match_id team_id r2id b :
  (length (rider_stat_rows match_id team_id r2id b)
   ≤ length (block_riders b))%nat.
Proof. apply length_omap_le. Qed.

(** On a store that holds the document, loading it answers with the same
    identifiers and changes nothing. *)
Lemma transform_document_replay doc v (D : DB) :
  (length (block_riders (team1 doc) ++ block_riders (team2 doc)) ≤ 100)%nat →
  Forall (λ h, (length (ht_riders h) ≤ 100)%nat) (match_details doc) →
  document_loaded doc v D →
  transform_document doc (clean D) = (inr (), clean D).
Proof.
  intros Hroster Hriders
    (Ha & Hb & Hr & Hc & Ht1 & Ht2 & Hhome & Haway & Hres & Hs1 & Hs2
     & Hmatch & Hinfo & Hstats & Hheats).
  unfold transform_document. unfold match_row in Hmatch.
  rewrite bind_unfold, (get_or_create_id_replay _ _ _ _ Ha).
  rewrite bind_unfold, (get_or_create_id_replay _ _ _ _ Hb).
  rewrite bind_unfold, (get_or_create_id_replay _ _ _ _ Hr).
  rewrite bind_unfold, (get_or_create_id_replay _ _ _ _ Hc).
  rewrite bind_unfold, (block_team_name_replay _ _ Ht1).
  rewrite bind_unfold, (block_team_name_replay _ _ Ht2).
  rewrite bind_unfold, (process_team_replay _ _ _ _ _ Hhome).
  rewrite bind_unfold, (process_team_replay _ _ _ _ _ Haway).
  rewrite bind_unfold, Hres.
  rewrite bind_unfold, (score_or_zero_replay _ _ Hs1).
  rewrite bind_unfold, (score_or_zero_replay _ _ Hs2).
  rewrite bind_unfold, (upsert_match_replay _ _ _ _ Hmatch).
  rewrite bind_unfold, upsert_team_info_replay; [|..|done].
  2:{ rewrite length_app.
      pose proof (team_info_rows_length (rv_match_id v) (rv_home_team_id v)
                    (team1 doc)).
      pose proof (team_info_rows_length (rv_match_id v) (rv_away_team_id v)
                    (team2 doc)). lia. }
  rewrite bind_unfold, (upsert_rider_stats_replay _ (rv_results v));
    [|..|done].
  2:{ rewrite length_app in *.
      pose proof (rider_stat_rows_length (rv_match_id v) (rv_home_team_id v)
                    (rv_rider_name_to_id v) (team1 doc)).
      pose proof (rider_stat_rows_length (rv_match_id v) (rv_away_team_id v)
                    (rv_rider_name_to_id v) (team2 doc)). lia. }
  by apply process_heats_replay.
Qed.

(** A load that returns, on a store with sound serial keys, leaves a
    connection at rest whose store holds the document. *)
Lemma transform_document_post doc (d : DB) c1 :
  teams_wf d → heats_wf d → sides_differ doc →
  (length (block_riders (team1 doc) ++ block_riders (team2 doc)) ≤ 100)%nat →
  Forall (λ h, (length (ht_riders h) ≤ 100)%nat) (match_details doc) →
  transform_document doc (clean d) = (inr (), c1) →
  ∃ v d1, c1 = clean d1 ∧ teams_wf d1 ∧ heats_wf d1
          ∧ document_loaded doc v d1.
Proof.
  intros Hteams Hheats [Hcodes Hnames] Hroster Hriders Hrun.
  unfold transform_document in Hrun.
  apply bind_inr in Hrun as (arena_id & c & Ha & Hrun).
  apply get_or_create_id_post in Ha as (lta & -> & _ & Hsa).
  apply bind_inr in Hrun as (competition_id & c & Hb & Hrun).
  apply get_or_create_id_post in Hb as (ltb & -> & _ & Hsb).
  apply bind_inr in Hrun as (referee_id & c & Hr & Hrun).
  apply get_or_create_id_post in Hr as (ltr & -> & _ & Hsr).
  apply bind_inr in Hrun as (commissioner_id & c & Hc & Hrun).
  apply get_or_create_id_post in Hc as (ltc & -> & _ & Hsc).
  apply bind_inr in Hrun as (home_name & c & Hn1 & Hrun).
  apply block_team_name_inr in Hn1 as (-> & -> & Ht1).
  apply bind_inr in Hrun as (away_name & c & Hn2 & Hrun).
  apply block_team_name_inr in Hn2 as (-> & -> & Ht2).
  apply bind_inr in Hrun as (home_team_id & c & Hh & Hrun).
  apply process_team_post in Hh as (ts1 & nx1 & -> & Hsh & Hch & _); [|done].
  pose proof (team_change_wf _ _ _ _ _ _ Hteams Hch) as Hwf1.
  apply bind_inr in Hrun as (away_team_id & c & Haw & Hrun).
  apply process_team_post in Haw as (ts2 & nx2 & -> & Hsaw & Hcaw & _); [|done].
  simpl in Hcaw.
  pose proof (team_change_wf _ _ _ _ _ _ Hwf1 Hcaw) as Hwf2.
  pose proof (team_settled_stable _ _ _ _ _ _ _ _ _ _ Hwf1 Hsh Hcaw
                Hcodes Hnames) as Hsh2.
  apply bind_inr in Hrun as (rider_name_to_id & c & Hres & Hrun).
  apply resolve_riders_post in Hres as (ltri & -> & _ & Hreplay).
  apply bind_inr in Hrun as (home_score & c & Hs1 & Hrun).
  apply score_or_zero_inr in Hs1 as (-> & s1 & Hs1 & ->).
  apply bind_inr in Hrun as (away_score & c & Hs2 & Hrun).
  apply score_or_zero_inr in Hs2 as (-> & s2 & Hs2 & ->).
  apply bind_inr in Hrun as (match_id & c & Hm & Hrun).
  apply upsert_match_post in Hm as (ms & mnx & -> & Hmrow).
  apply bind_inr in Hrun as (info & c & Hi & Hrun).
  apply upsert_team_info_post in Hi as (ti & -> & Hinfo).
  2:{ rewrite length_app.
      pose proof (team_info_rows_length match_id home_team_id (team1 doc)).
      pose proof (team_info_rows_length match_id away_team_id (team2 doc)).
      lia. }
  apply bind_inr in Hrun as (results & c & Hst & Hrun).
  apply upsert_rider_stats_post in Hst as (st & snx & -> & Hstats).
  2:{ rewrite length_app in *.
      pose proof (rider_stat_rows_length match_id home_team_id
                    rider_name_to_id (team1 doc)).
      pose proof (rider_stat_rows_length match_id away_team_id
                    rider_name_to_id (team2 doc)). lia. }
  apply process_heats_post in Hrun as (hs & hnx & ps & -> & Hhwf & Hloaded & _);
    [|by eapply heats_wf_ext; [| |exact Hheats]|done].
  exists (mkResolved arena_id competition_id referee_id commissioner_id
            home_team_id away_team_id rider_name_to_id match_id results).
  eexists. split; [reflexivity|]. split; [exact Hwf2|]. split; [exact Hhwf|].
  unfold document_loaded, match_row. simpl.
  rewrite Hs1, Hs2. simpl.
  split; [exact Hsa|]. split; [exact Hsb|]. split; [exact Hsr|].
  split; [exact Hsc|]. split; [exact Ht1|]. split; [exact Ht2|].
  split; [exact Hsh2|]. split; [exact Hsaw|].
  split; [apply Hreplay, lookup_mono_refl|].
  split; [eauto|]. split; [eauto|]. split; [exact Hmrow|].
  split; [exact Hinfo|]. split; [exact Hstats|]. exact Hloaded.
Qed.

End ReloadDocument.

(* --------------------------------------------------------------------- *)
(** *** What a load that returns says about its document *)

Section Rejected.
Context `{PyRuntime}.

Lemma process_heats_inr_scores match_id r2id stat_map tl heat_list :
  ∀ counter c c',
    process_heats match_id r2id stat_map tl heat_list counter c = (inr (), c') →
    Forall (λ h, ¬ heat_lacks_score h) heat_list.
Proof.
  induction heat_list as [|h rest IH]; intros counter c c' Hrun; [done|].
  cbn [process_heats] in Hrun.
  destruct (truthy_opt (ht_heat_number h)) eqn:Hlabel.
  - apply bind_inr in Hrun as (s1 & c1 & H1 & Hrun).
    apply score_or_none_inr in H1 as (-> & x1 & E1 & _).
    apply bind_inr in Hrun as (s2 & c2 & H2 & Hrun).
    apply score_or_none_inr in H2 as (-> & x2 & E2 & _).
    apply bind_inr in Hrun as (s3 & c3 & H3 & Hrun).
    apply score_or_none_inr in H3 as (-> & x3 & E3 & _).
    apply bind_inr in Hrun as (s4 & c4 & H4 & Hrun).
    apply score_or_none_inr in H4 as (-> & x4 & E4 & _).
    apply bind_inr in Hrun as (heat_id & c5 & _ & Hrun).
    apply bind_inr in Hrun as (? & c6 & _ & Hrun).
    constructor; [|by eapply IH].
    intros [_ [?|[?|[?|?]]]]; congruence.
  - constructor; [|by eapply IH]. intros [? _]. congruence.
Qed.

Lemma transform_document_inr_shape doc c c' :
  transform_document doc c = (inr (), c') →
  (∀ s, team1 doc ≠ TeamText s) ∧ (∀ s, team2 doc ≠ TeamText s)
  ∧ is_Some (home_score_details doc) ∧ is_Some (away_score_details doc)
  ∧ Forall (λ h, ¬ heat_lacks_score h) (match_details doc).
Proof.
  unfold transform_document. intros Hrun.
  do 4 (apply bind_inr in Hrun as (? & ? & _ & Hrun)).
  apply bind_inr in Hrun as (? & ? & Ht1 & Hrun).
  apply block_team_name_inr in Ht1 as (_ & _ & Ht1).
  apply bind_inr in Hrun as (? & ? & Ht2 & Hrun).
  apply block_team_name_inr in Ht2 as (_ & _ & Ht2).
  do 3 (apply bind_inr in Hrun as (? & ? & _ & Hrun)).
  apply bind_inr in Hrun as (? & ? & Hs1 & Hrun).
  apply score_or_zero_inr in Hs1 as (_ & s1 & Hs1 & _).
  apply bind_inr in Hrun as (? & ? & Hs2 & Hrun).
  apply score_or_zero_inr in Hs2 as (_ & s2 & Hs2 & _).
  do 3 (apply bind_inr in Hrun as (? & ? & _ & Hrun)).
  apply process_heats_inr_scores in Hrun. eauto 10.
Qed.

End Rejected.

(* --------------------------------------------------------------------- *)
(** *** The riders a load knows *)

Section RiderNames.
Context `{PyRuntime}.

(** The map built by the loop over the lineups holds, besides what it
    started with, only riders of the lineups, under non-blank names and
    with identifiers that are not zero. *)
Lemma resolve_riders_names rs : ∀ m c m' c',
  resolve_riders rs m c = (inr m', c') →
  ∀ name id, m' !! name = Some id →
    m !! name = Some id
    ∨ ∃ r, r ∈ rs ∧ rd_name r = name ∧ blank name = false ∧ id ≠ 0%Z.
Proof.
  induction rs as [|r rs IH]; intros m c m' c' Hrun name id Hname.
  - injection Hrun as <- <-. by left.
  - cbn [resolve_riders] in Hrun.
    destruct (truthy (rd_name r) && negb (blank (rd_name r))) eqn:Hr.
    + apply bind_inr in Hrun as (rider_id & c1 & _ & Hrun).
      destruct (IH _ _ _ _ Hrun name id Hname) as [Hm|(r' & Hr' & ?)];
        [|right; exists r'; split; [by right|done]].
      destruct (truthy_id rider_id) eqn:Hid; [|by left].
      destruct (decide (rd_name r = name)) as [<-|Hne].
      * rewrite lookup_insert_eq in Hm. injection Hm as <-.
        right. exists r. split; [by left|]. split; [done|].
        apply andb_true_iff in Hr as [_ Hb%negb_true_iff]. split; [done|].
        destruct rider_id as [z|]; [|done]. simpl in *.
        apply negb_true_iff in Hid. lia.
      * rewrite lookup_insert_ne in Hm by done. by left.
    + destruct (IH _ _ _ _ Hrun name id Hname) as [Hm|(r' & Hr' & ?)];
        [by left|right; exists r'; split; [by right|done]].
Qed.

Lemma participant_row_inv match_id heat_id r2id stat_map tl label p k row :
  participant_row match_id heat_id r2id stat_map tl label p = Some (k, row) →
  k.1 = heat_id
  ∧ ∃ name rider_id, pt_rider p = Some name ∧ r2id !! name = Some rider_id
      ∧ rider_id ≠ 0%Z ∧ stat_map !! (match_id, rider_id) = Some k.2.
Proof.
  unfold participant_row.
  destruct (pt_rider p) as [name|]; simpl; [|done].
  destruct (r2id !! name) as [rider_id|] eqn:Hid; simpl; [|done].
  destruct (rider_id =? 0)%Z eqn:Hz; simpl; [done|].
  destruct (stat_map !! (match_id, rider_id)) as [stat_id|] eqn:Hstat; [|done].
  destruct (parse_score (pt_rider_score p)) as [[points bonus] accident].
  intros [= <- _]. split; [done|]. exists name, rider_id.
  repeat split; [done|lia|done].
Qed.

End RiderNames.

(* --------------------------------------------------------------------- *)
(** *** A transaction that has failed *)

Section Stuck.
Context `{PyRuntime}.

Lemma stuck_ret {A} (a : A) : stuck (mret a).
Proof. by intros c r c' _ [= _ <-]. Qed.

Lemma stuck_raise {A} (e : Exn) : stuck (raise (A := A) e).
Proof. by intros c r c' _ [= _ <-]. Qed.

Lemma stuck_bind {A B} (m : M A) (f : A → M B) :
  stuck m → (∀ a, stuck (f a)) → stuck (m ≫= f).
Proof.
  intros Hm Hf c r c' Hc. rewrite bind_unfold.
  destruct (m c) as [[e|a] c1] eqn:Hmc.
  - intros [= _ <-]. by eapply Hm.
  - pose proof (Hm _ _ _ Hc Hmc) as ->. intros Hfc. by eapply Hf.
Qed.

Lemma stuck_try {A} (body handler : M A) :
  stuck body → stuck handler → stuck (try_except_psycopg2 body handler).
Proof.
  intros Hb Hh c r c' Hc. unfold try_except_psycopg2.
  destruct (body c) as [[e|a] c1] eqn:Hbc;
    pose proof (Hb _ _ _ Hc Hbc) as ->.
  - destruct (is_psycopg2_error e); [|by intros [= _ <-]].
    intros Hhc. by eapply Hh.
  - by intros [= _ <-].
Qed.

Lemma stuck_execute {A} (stmt : DB → Exn + (A * DB)) : stuck (execute stmt).
Proof. intros c r c' Hc. rewrite execute_failed by done. by intros [= _ <-]. Qed.

Lemma stuck_execute_values_if_any {A B}
    (stmt : list A → DB → Exn + (list B * DB)) (rows : list A) :
  stuck (execute_values_if_any stmt rows).
Proof.
  unfold execute_values_if_any, execute_values.
  destruct rows as [|x rows]; [apply stuck_ret|].
  induction (paginate (x :: rows)) as [|p ps IH]; simpl; [apply stuck_ret|].
  apply stuck_bind; [apply stuck_execute|]. intros r.
  apply stuck_bind; [done|]. intros rs. apply stuck_ret.
Qed.

Lemma stuck_score_or_zero o : stuck (score_or_zero o).
Proof. destruct o; [apply stuck_ret|apply stuck_raise]. Qed.

Lemma stuck_block_team_name b : stuck (block_team_name b).
Proof. destruct b; first [apply stuck_ret|apply stuck_raise]. Qed.

End Stuck.

Ltac solve_stuck :=
  repeat first
    [ apply stuck_ret
    | apply stuck_raise
    | apply stuck_execute
    | apply stuck_try
    | apply stuck_bind; [|intros ?]
    | progress case_match ].

Section StuckLoad.
Context `{PyRuntime}.

Lemma stuck_get_or_create_id t value : stuck (get_or_create_id t value).
Proof. unfold get_or_create_id. solve_stuck. Qed.

Lemma stuck_process_team c n a : stuck (process_team c n a).
Proof. unfold process_team. solve_stuck. Qed.

Lemma stuck_resolve_riders rs : ∀ m, stuck (resolve_riders rs m).
Proof.
  induction rs as [|r rs IH]; intros m; simpl; [apply stuck_ret|].
  case_match; [|apply IH].
  apply stuck_bind; [apply stuck_get_or_create_id|]. intros ?. apply IH.
Qed.

(** A statement of [get_or_create_id] that the store fails after the first
    SELECT is swallowed: the function answers [None], on a transaction that
    has failed. *)
Lemma get_or_create_id_swallows t v (d : DB) fl :
  blank v = false →
  lt_rows (lookup_table t d) !! v = None →
  get_or_create_id t (Some v) (mkConn d false (false :: true :: fl))
  = (inr None, mkConn d true fl).
Proof.
  intros Hb Hrow. unfold get_or_create_id. rewrite Hb.
  rewrite bind_unfold, execute_no_fault by repeat constructor.
  unfold select_id. by rewrite Hrow.
Qed.

(** On a transaction that has failed, the body of the load raises. *)
Lemma transform_document_failed doc c r c' :
  txn_failed c = true → transform_document doc c = (r, c') → ∃ e, r = inl e.
Proof.
  intros Hc Hrun. destruct r as [e|[]]; [eauto|]. exfalso.
  unfold transform_document in Hrun.
  do 4 (apply bind_inr in Hrun as (? & ? & Hstep & Hrun);
        apply stuck_get_or_create_id in Hstep as ->; [|done]).
  do 2 (apply bind_inr in Hrun as (? & ? & Hstep & Hrun);
        apply stuck_block_team_name in Hstep as ->; [|done]).
  do 2 (apply bind_inr in Hrun as (? & ? & Hstep & Hrun);
        apply stuck_process_team in Hstep as ->; [|done]).
  apply bind_inr in Hrun as (? & ? & Hstep & Hrun).
  apply stuck_resolve_riders in Hstep as ->; [|done].
  do 2 (apply bind_inr in Hrun as (? & ? & Hstep & Hrun);
        apply stuck_score_or_zero in Hstep as ->; [|done]).
  apply bind_inr in Hrun as (? & ? & Hstep & _).
  apply execute_inr in Hstep as (Hok & _). congruence.
Qed.

End StuckLoad.

(* --------------------------------------------------------------------- *)
(** *** Telemetry values and their units *)

Lemma chars_app (a b : string) : chars (a +:+ b) = chars a ++ chars b.
Proof.
  induction a as [|c a IH]; [done|].
  unfold chars in *. simpl. by rewrite IH.
Qed.

(** In front of a tail, a text without whitespace is kept by the removal of
    a pattern that starts with a space, and removal goes on in the tail. *)
Lemma remove_sub_go_skip (p l tl : list ascii) :
  head p = Some " "%char →
  Forall (λ c, is_space c = false) l →
  remove_sub_go p 0 (l ++ tl) = l ++ remove_sub_go p 0 tl.
Proof.
  intros Hp. destruct p as [|x p]; [done|]. injection Hp as ->.
  induction 1 as [|c l Hc _ IH]; [done|].
  rewrite <- !app_comm_cons. cbn [remove_sub_go is_prefix].
  rewrite bool_decide_eq_false_2; [simpl; by rewrite IH|].
  intros <-. done.
Qed.

Lemma remove_sub_go_absent (p l : list ascii) :
  head p = Some " "%char →
  Forall (λ c, is_space c = false) l →
  remove_sub_go p 0 l = l.
Proof.
  intros Hp Hl. rewrite <- (app_nil_r l) at 1.
  rewrite remove_sub_go_skip by done. apply app_nil_r.
Qed.

Lemma strip_chars_solid (l : list ascii) :
  Forall (λ c, is_space c = false) l → strip_chars l = l.
Proof.
  intros Hl. unfold strip_chars.
  assert (Hlstrip : ∀ k, Forall (λ c, is_space c = false) k → lstrip k = k).
  { intros k [|c k' Hc _]; [done|]. simpl. by rewrite Hc. }
  rewrite (Hlstrip l Hl), Hlstrip by (by apply List.Forall_rev).
  apply rev_involutive.
Qed.

(** The three removals of [parse_telemetry_value] take the unit off a text
    without whitespace. *)
Lemma remove_units (l : list ascii) (unit : string) :
  unit ∈ [" s"; " m"; " km/h"] →
  Forall (λ c, is_space c = false) l →
  remove_sub_go (chars " km/h") 0
    (remove_sub_go (chars " m") 0
       (remove_sub_go (chars " s") 0 (l ++ chars unit))) = l.
Proof.
  intros Hunit Hl.
  repeat (apply elem_of_cons in Hunit as [->|Hunit]);
    [| | |by apply elem_of_nil in Hunit].
  - rewrite (remove_sub_go_skip (chars " s")) by done.
    change (remove_sub_go (chars " s") 0 (chars " s")) with (@nil ascii).
    rewrite app_nil_r.
    rewrite (remove_sub_go_absent (chars " m")) by done.
    by rewrite (remove_sub_go_absent (chars " km/h")).
  - rewrite (remove_sub_go_skip (chars " s")) by done.
    change (remove_sub_go (chars " s") 0 (chars " m")) with (chars " m").
    rewrite (remove_sub_go_skip (chars " m")) by done.
    change (remove_sub_go (chars " m") 0 (chars " m")) with (@nil ascii).
    rewrite app_nil_r.
    by rewrite (remove_sub_go_absent (chars " km/h")).
  - rewrite (remove_sub_go_skip (chars " s")) by done.
    change (remove_sub_go (chars " s") 0 (chars " km/h"))
      with (chars " km/h").
    rewrite (remove_sub_go_skip (chars " m")) by done.
    change (remove_sub_go (chars " m") 0 (chars " km/h"))
      with (chars " km/h").
    rewrite (remove_sub_go_skip (chars " km/h")) by done.
    change (remove_sub_go (chars " km/h") 0 (chars " km/h"))
      with (@nil ascii).
    apply app_nil_r.
Qed.

Lemma lstrip_head (c : ascii) (l : list ascii) :
  is_space c = false → lstrip (c :: l) = c :: l.
Proof. intros Hc. simpl. by rewrite Hc. Qed.

(** A text that starts and ends with a character that is no whitespace is
    kept by [strip]. *)
Lemma strip_chars_ends (c u : ascii) (l : list ascii) :
  is_space c = false → is_space u = false →
  strip_chars (c :: l ++ [u]) = c :: l ++ [u].
Proof.
  intros Hc Hu. unfold strip_chars. rewrite lstrip_head by done.
  replace (rev (c :: l ++ [u])) with (u :: rev (c :: l))
    by (by rewrite app_comm_cons, rev_app_distr).
  rewrite lstrip_head by done.
  change (rev (u :: rev (c :: l))) with (rev (rev (c :: l)) ++ [u]).
  by rewrite rev_involutive.
Qed.

(* --------------------------------------------------------------------- *)
(** *** Relations a computation keeps between the store before and after *)

Section Preserves.
Context `{PyRuntime}.
Context (R : DB → DB → Prop) `{!Reflexive R} `{!Transitive R}.

Lemma preserves_ret {A} (a : A) : preserves R (mret a).
Proof. by intros c r c' [= <- <-]. Qed.

Lemma preserves_raise {A} (e : Exn) : preserves R (raise (A := A) e).
Proof. by intros c r c' [= <- <-]. Qed.

Lemma preserves_bind {A B} (m : M A) (f : A → M B) :
  preserves R m → (∀ a, preserves R (f a)) → preserves R (m ≫= f).
Proof.
  intros Hm Hf c r c'. rewrite bind_unfold.
  destruct (m c) as [[e|a] c1] eqn:Hmc.
  - intros [= <- <-]. by eapply Hm.
  - intros Hfc. etrans; [by eapply Hm|by eapply Hf].
Qed.

Lemma preserves_try {A} (body handler : M A) :
  preserves R body → preserves R handler →
  preserves R (try_except_psycopg2 body handler).
Proof.
  intros Hb Hh c r c'. unfold try_except_psycopg2.
  destruct (body c) as [[e|a] c1] eqn:Hbc.
  - destruct (is_psycopg2_error e).
    + intros Hhc. etrans; [by eapply Hb|by eapply Hh].
    + intros [= <- <-]. by eapply Hb.
  - intros [= <- <-]. by eapply Hb.
Qed.

Lemma preserves_execute {A} (stmt : DB → Exn + (A * DB)) :
  stmt_preserves R stmt → preserves R (execute stmt).
Proof.
  intros Hs c r c'. unfold execute.
  destruct (txn_failed c); [by intros [= <- <-]|].
  assert (∀ fl, match stmt (db c) with
                | inl e => (inl e, mkConn (db c) true fl)
                | inr (a, d) => (inr a, mkConn d false fl)
                end = (r, c') → R (db c) (db c')) as Hrun.
  { intros fl. destruct (stmt (db c)) as [e|[a d]] eqn:Hst.
    - by intros [= <- <-].
    - intros [= <- <-]. simpl. by eapply Hs. }
  destruct (faults c) as [|[] fl]; [apply Hrun|by intros [= <- <-]|apply Hrun].
Qed.

Lemma preserves_execute_pages {A B}
    (stmt : list A → DB → Exn + (list B * DB)) (pages : list (list A)) :
  (∀ p, p ∈ pages → stmt_preserves R (stmt p)) →
  preserves R (execute_pages stmt pages).
Proof.
  induction pages as [|p ps IH]; intros Hs; simpl.
  - apply preserves_ret.
  - apply preserves_bind.
    + apply preserves_execute, Hs. by left.
    + intros r. apply preserves_bind; [|intros rs; apply preserves_ret].
      apply IH. intros q Hq. apply Hs. by right.
Qed.

Lemma preserves_score_or_none o : preserves R (score_or_none o).
Proof. destruct o; [apply preserves_ret|apply preserves_raise]. Qed.

Lemma preserves_score_or_zero o : preserves R (score_or_zero o).
Proof. destruct o; [apply preserves_ret|apply preserves_raise]. Qed.

Lemma preserves_block_team_name b : preserves R (block_team_name b).
Proof. destruct b; first [apply preserves_ret|apply preserves_raise]. Qed.

End Preserves.

Lemma elem_of_paginate_go {A} (fuel : nat) : ∀ (l p : list A) x,
  p ∈ paginate_go fuel l → x ∈ p → x ∈ l.
Proof.
  induction fuel as [|fuel IH]; intros l p x Hp Hx; simpl in Hp.
  - by apply elem_of_nil in Hp.
  - destruct l as [|y l]; [by apply elem_of_nil in Hp|].
    apply elem_of_cons in Hp as [->|Hp].
    + by apply (subseteq_take 100).
    + apply (subseteq_drop 100). by eapply IH.
Qed.

Lemma elem_of_paginate {A} (l p : list A) x :
  p ∈ paginate l → x ∈ p → x ∈ l.
Proof. apply elem_of_paginate_go. Qed.

Section PreservesValues.
Context `{PyRuntime}.
Context (R : DB → DB → Prop) `{!Reflexive R} `{!Transitive R}.

(** [execute_values] keeps a relation that each of its statements keeps,
    for pages made of rows of the argument list. *)
Lemma preserves_execute_values_if_any {A B}
    (stmt : list A → DB → Exn + (list B * DB)) (rows : list A) :
  (∀ p, (∀ x, x ∈ p → x ∈ rows) → stmt_preserves R (stmt p)) →
  preserves R (execute_values_if_any stmt rows).
Proof.
  intros Hs. unfold execute_values_if_any.
  destruct rows as [|x rows]; [by apply preserves_ret|].
  apply preserves_execute_pages; [done..|].
  intros p Hp. apply Hs. intros y Hy. by eapply elem_of_paginate.
Qed.

End PreservesValues.

(* --------------------------------------------------------------------- *)
(** *** No statement of the load deletes a row or changes a serial key *)

Section Stable.
Context {K : Type} `{Countable K} {V : Type}.

#[export] Instance ids_stable_refl : Reflexive (ids_stable (K := K) (V := V)).
Proof. intros m k id f ?. eauto. Qed.

#[export] Instance ids_stable_trans : Transitive (ids_stable (K := K) (V := V)).
Proof.
  intros m1 m2 m3 H12 H23 k id f Hk.
  destruct (H12 _ _ _ Hk) as [f' Hk']. eauto.
Qed.

#[export] Instance keys_kept_refl : Reflexive (keys_kept (K := K) (V := V)).
Proof. by intros m k ?. Qed.

#[export] Instance keys_kept_trans : Transitive (keys_kept (K := K) (V := V)).
Proof. intros m1 m2 m3 H12 H23 k Hk. eauto. Qed.

Lemma ids_stable_upsert (m : gmap K (Z * V)) k next f :
  ids_stable m (<[k := (default next (fst <$> m !! k), f)]> m).
Proof.
  intros k' id f' Hk'. destruct (decide (k' = k)) as [->|Hne].
  - rewrite lookup_insert_eq, Hk'. simpl. eauto.
  - rewrite lookup_insert_ne by done. eauto.
Qed.

Lemma keys_kept_insert (m : gmap K V) k v : keys_kept m (<[k := v]> m).
Proof.
  intros k' Hk'. destruct (decide (k' = k)) as [->|Hne].
  - by rewrite lookup_insert_eq.
  - by rewrite lookup_insert_ne.
Qed.

Lemma keys_kept_foldl_insert (l : list (K * V)) : ∀ m : gmap K V,
  keys_kept m (foldl (λ t r, <[r.1 := r.2]> t) m l).
Proof.
  induction l as [|r l IH]; intros m; simpl; [done|].
  etrans; [apply (keys_kept_insert m r.1 r.2)|apply IH].
Qed.

End Stable.

Lemma ids_stable_stats_fold keyed : ∀ t nx out,
  ids_stable t (foldl upsert_rider_stat_row (t, nx, out) keyed).1.1.
Proof.
  induction keyed as [|r keyed IH]; intros t nx out; simpl; [done|].
  destruct (t !! r.1) as [[id f0]|] eqn:Hr.
  - etrans; [|apply IH]. intros k id' f' Hk.
    destruct (decide (k = r.1)) as [->|Hne].
    + rewrite lookup_insert_eq. rewrite Hr in Hk. injection Hk as <- <-. eauto.
    + rewrite lookup_insert_ne by done. eauto.
  - etrans; [|apply IH]. intros k id' f' Hk.
    destruct (decide (k = r.1)) as [->|Hne]; [congruence|].
    rewrite lookup_insert_ne by done. eauto.
Qed.

Section RowsKept.
Context `{PyRuntime}.

#[export] Instance rows_kept_refl : Reflexive rows_kept.
Proof. intros d. by repeat split. Qed.

#[export] Instance rows_kept_trans : Transitive rows_kept.
Proof.
  intros d1 d2 d3 (L1 & T1 & M1 & I1 & S1 & H1 & P1)
    (L2 & T2 & M2 & I2 & S2 & H2 & P2).
  split; [intros t; etrans; [apply L1|apply L2]|].
  split; [etrans; [exact T1|exact T2]|].
  split; [etrans; [exact M1|exact M2]|].
  split; [etrans; [exact I1|exact I2]|].
  split; [etrans; [exact S1|exact S2]|].
  split; [etrans; [exact H1|exact H2]|etrans; [exact P1|exact P2]].
Qed.

(** A store that differs from [d] in one component is related to [d] when
    that component is. *)
Lemma rows_kept_lookup t lt (d : DB) :
  lt_rows (lookup_table t d) ⊆ lt_rows lt →
  rows_kept d (set_lookup_table t lt d).
Proof.
  intros Hsub.
  destruct t; (split; [intros []; simpl in *; done|by repeat split]).
Qed.

Lemma rows_kept_teams ts nx (d : DB) :
  (team_id <$> teams d) `prefix_of` (team_id <$> ts) →
  rows_kept d (set_teams ts nx d).
Proof. intros Hpre. split; [by intros []|]. by repeat split. Qed.

Lemma rows_kept_matches ms nx (d : DB) :
  ids_stable (matches d) ms → rows_kept d (set_matches ms nx d).
Proof. intros Hst. split; [by intros []|]. by repeat split. Qed.

Lemma rows_kept_team_info t (d : DB) :
  keys_kept (match_team_info d) t → rows_kept d (set_match_team_info t d).
Proof. intros Hst. split; [by intros []|]. by repeat split. Qed.

Lemma rows_kept_rider_stats t nx (d : DB) :
  ids_stable (match_rider_stats d) t →
  rows_kept d (set_match_rider_stats t nx d).
Proof. intros Hst. split; [by intros []|]. by repeat split. Qed.

Lemma rows_kept_heats t nx (d : DB) :
  ids_stable (heats d) t → rows_kept d (set_heats t nx d).
Proof. intros Hst. split; [by intros []|]. by repeat split. Qed.

Lemma rows_kept_participants t (d : DB) :
  keys_kept (heat_participants d) t →
  rows_kept d (set_heat_participants t d).
Proof. intros Hst. split; [by intros []|]. by repeat split. Qed.

Lemma team_ids_fmap (f : TeamRow → TeamRow) (ts : list TeamRow) :
  (∀ r, team_id (f r) = team_id r) → team_id <$> (f <$> ts) = team_id <$> ts.
Proof.
  intros Hf. induction ts as [|r ts IH]; [done|].
  rewrite !fmap_cons. by rewrite Hf, IH.
Qed.

Lemma select_id_kept t v : stmt_preserves rows_kept (select_id t v).
Proof. by intros d a d' [= _ <-]. Qed.

Lemma select_team_by_code_kept c :
  stmt_preserves rows_kept (select_team_by_code c).
Proof. by intros d a d' [= _ <-]. Qed.

Lemma select_team_by_name_kept n :
  stmt_preserves rows_kept (select_team_by_name n).
Proof. by intros d a d' [= _ <-]. Qed.

Lemma insert_do_nothing_kept t v :
  stmt_preserves rows_kept (insert_do_nothing t v).
Proof.
  intros d a d'. unfold insert_do_nothing.
  destruct (bool_decide (is_Some (lt_rows (lookup_table t d) !! v))) eqn:Hv;
    simpl; [by intros [= _ <-]|].
  destruct (bool_decide (v ∈ lt_hidden (lookup_table t d)));
    intros [= _ <-]; [done|].
  apply rows_kept_lookup. simpl. apply insert_subseteq.
  apply bool_decide_eq_false in Hv. by apply eq_None_not_Some.
Qed.

Lemma update_team_name_kept n a id :
  stmt_preserves rows_kept (update_team_name n a id).
Proof.
  intros d x d' [= _ <-]. apply rows_kept_teams.
  rewrite team_ids_fmap; [done|]. intros r. apply fill_name_key.
Qed.

Lemma update_team_code_kept c a id :
  stmt_preserves rows_kept (update_team_code c a id).
Proof.
  intros d x d'. unfold update_team_code. case_match; [done|].
  intros [= _ <-]. apply rows_kept_teams.
  rewrite team_ids_fmap; [done|]. intros r. apply fill_code_key.
Qed.

Lemma insert_team_kept c n a : stmt_preserves rows_kept (insert_team c n a).
Proof.
  intros d x d'. unfold insert_team. case_match; intros [= _ <-]; [done|].
  apply rows_kept_teams. rewrite fmap_app. by apply prefix_app_r.
Qed.

Lemma upsert_match_kept url f : stmt_preserves rows_kept (upsert_match url f).
Proof.
  intros d x d'. unfold upsert_match.
  pose proof (ids_stable_upsert (matches d) url (matches_next d) f) as Hst.
  destruct (matches d !! url) as [[id f0]|]; intros [= _ <-];
    by apply rows_kept_matches.
Qed.

Lemma upsert_team_info_kept rows :
  stmt_preserves rows_kept (upsert_team_info rows).
Proof.
  intros d x d'. unfold upsert_team_info.
  repeat case_match; intros [= _ <-].
  apply rows_kept_team_info, keys_kept_foldl_insert.
Qed.

Lemma upsert_rider_stats_kept rows :
  stmt_preserves rows_kept (upsert_rider_stats rows).
Proof.
  intros d x d'. unfold upsert_rider_stats.
  destruct (mapM _ rows) as [keyed|]; [|done].
  destruct (distinct_keys keyed); [|done].
  pose proof (ids_stable_stats_fold keyed (match_rider_stats d)
                (match_rider_stats_next d) []) as Hst.
  destruct (foldl _ _ keyed) as [[t nx] out]. intros [= _ <-].
  by apply rows_kept_rider_stats.
Qed.

Lemma upsert_heat_kept match_id seq f :
  stmt_preserves rows_kept (upsert_heat match_id seq f).
Proof.
  intros d x d'. unfold upsert_heat.
  pose proof (ids_stable_upsert (heats d) (match_id, seq) (heats_next d) f)
    as Hst.
  destruct (heats d !! (match_id, seq)) as [[id f0]|]; intros [= _ <-];
    by apply rows_kept_heats.
Qed.

Lemma upsert_participants_kept rows :
  stmt_preserves rows_kept (upsert_participants rows).
Proof.
  intros d x d'. unfold upsert_participants. case_match; intros [= _ <-].
  apply rows_kept_participants, keys_kept_foldl_insert.
Qed.

End RowsKept.

Create HintDb kept.
#[export] Hint Resolve select_id_kept select_team_by_code_kept
  select_team_by_name_kept insert_do_nothing_kept update_team_name_kept
  update_team_code_kept insert_team_kept upsert_match_kept
  upsert_team_info_kept upsert_rider_stats_kept upsert_heat_kept
  upsert_participants_kept : kept.

(** The relation is kept by straight-line monadic code whose statements
    keep it. *)
Ltac solve_preserves :=
  repeat first
    [ apply preserves_ret; typeclasses eauto
    | apply preserves_raise; typeclasses eauto
    | apply preserves_block_team_name; typeclasses eauto
    | apply preserves_score_or_zero; typeclasses eauto
    | apply preserves_score_or_none; typeclasses eauto
    | apply preserves_execute; [typeclasses eauto..|solve [eauto with kept]]
    | apply preserves_execute_values_if_any;
        [typeclasses eauto..|intros ? _; solve [eauto with kept]]
    | apply preserves_try; [typeclasses eauto..| |]
    | apply preserves_bind; [typeclasses eauto..| |intros ?]
    | progress case_match
    | solve [eauto with kept] ].

Section LoadKeeps.
Context `{PyRuntime}.

Lemma get_or_create_id_kept t value :
  preserves rows_kept (get_or_create_id t value).
Proof. unfold get_or_create_id. solve_preserves. Qed.

Lemma process_team_kept c n a : preserves rows_kept (process_team c n a).
Proof. unfold process_team. solve_preserves. Qed.

Lemma resolve_riders_kept rs : ∀ m, preserves rows_kept (resolve_riders rs m).
Proof.
  induction rs as [|r rs IH]; intros m; simpl; [by apply preserves_ret|].
  case_match; [|apply IH].
  apply preserves_bind; [typeclasses eauto..|apply get_or_create_id_kept|].
  intros ?. apply IH.
Qed.

Lemma process_heats_kept match_id r2id stat_map tl heat_list : ∀ counter,
  preserves rows_kept
    (process_heats match_id r2id stat_map tl heat_list counter).
Proof.
  induction heat_list as [|h rest IH]; intros counter; simpl.
  - by apply preserves_ret.
  - case_match; [|apply IH].
    do 6 (apply preserves_bind;
          [typeclasses eauto..|solve_preserves|intros ?]).
    apply IH.
Qed.

Lemma transform_document_kept doc : preserves rows_kept (transform_document doc).
Proof.
  unfold transform_document.
  do 4 (apply preserves_bind;
        [typeclasses eauto..|apply get_or_create_id_kept|intros ?]).
  do 2 (apply preserves_bind;
        [typeclasses eauto..|by apply preserves_block_team_name|intros ?]).
  do 2 (apply preserves_bind;
        [typeclasses eauto..|apply process_team_kept|intros ?]).
  apply preserves_bind; [typeclasses eauto..|apply resolve_riders_kept|].
  intros ?.
  do 5 (apply preserves_bind; [typeclasses eauto..|solve_preserves|intros ?]).
  apply process_heats_kept.
Qed.

End LoadKeeps.

(* --------------------------------------------------------------------- *)
(** *** The rows of other matches *)

Section OtherMatches.
Context `{PyRuntime}.

Lemma insert_do_nothing_documents t v :
  stmt_frames document_tables (insert_do_nothing t v).
Proof. stmt_frame. Qed.

Lemma update_team_name_documents n a id :
  stmt_frames document_tables (update_team_name n a id).
Proof. stmt_frame. Qed.

Lemma update_team_code_documents c a id :
  stmt_frames document_tables (update_team_code c a id).
Proof. stmt_frame. Qed.

Lemma insert_team_documents c n a :
  stmt_frames document_tables (insert_team c n a).
Proof. stmt_frame. Qed.

Lemma upsert_heat_match_tables m s f :
  stmt_frames match_tables (upsert_heat m s f).
Proof. stmt_frame. Qed.

Lemma upsert_participants_match_tables rows :
  stmt_frames match_tables (upsert_participants rows).
Proof. stmt_frame. Qed.

End OtherMatches.

#[export] Hint Resolve insert_do_nothing_documents update_team_name_documents
  update_team_code_documents insert_team_documents upsert_heat_match_tables
  upsert_participants_match_tables : frames.

Section OtherMatchesLoad.
Context `{PyRuntime}.

Lemma get_or_create_id_documents t value :
  frames document_tables (get_or_create_id t value).
Proof. unfold get_or_create_id. solve_frames. Qed.

Lemma process_team_documents c n a :
  frames document_tables (process_team c n a).
Proof. unfold process_team. solve_frames. Qed.

Lemma resolve_riders_documents rs : ∀ m,
  frames document_tables (resolve_riders rs m).
Proof.
  induction rs as [|r rs IH]; intros m; simpl; [apply frames_ret|].
  case_match; [|apply IH].
  apply frames_bind; [apply get_or_create_id_documents|]. intros ?. apply IH.
Qed.

Lemma process_heats_match_tables match_id r2id stat_map tl heat_list :
  ∀ counter,
    frames match_tables
      (process_heats match_id r2id stat_map tl heat_list counter).
Proof.
  induction heat_list as [|h rest IH]; intros counter; simpl.
  - apply frames_ret.
  - case_match; [|apply IH].
    do 6 (apply frames_bind; [solve_frames|intros ?]). apply IH.
Qed.

#[export] Instance other_matches_same_refl url match_id :
  Reflexive (other_matches_same url match_id).
Proof. intros d. by repeat split. Qed.

#[export] Instance other_matches_same_trans url match_id :
  Transitive (other_matches_same url match_id).
Proof.
  intros d1 d2 d3 (M1 & I1 & S1 & H1) (M2 & I2 & S2 & H2).
  split; [intros u Hu; by rewrite M2, M1|].
  split; [intros k Hk; by rewrite I2, I1|].
  split; [intros k Hk; by rewrite S2, S1|].
  intros k Hk. by rewrite H2, H1.
Qed.

Lemma mapM_keys {A K V} (key : A → option K) (val : A → V) (l : list A) keyed k :
  mapM (λ r, k ← key r; Some (k, val r)) l = Some keyed →
  k ∈ keyed.*1 → ∃ r, r ∈ l ∧ key r = Some k.
Proof.
  intros Hm%mapM_Some_1 Hk.
  apply list_elem_of_fmap in Hk as ([k' v] & -> & Hkv).
  apply list_elem_of_lookup in Hkv as [i Hi].
  destruct (Forall2_lookup_r _ _ _ _ _ Hm Hi) as (r & Hr & Hkey).
  exists r. split; [by eapply list_elem_of_lookup_2|].
  simpl. destruct (key r) as [k0|]; simpl in Hkey; [|done].
  by injection Hkey as ->.
Qed.

Lemma upsert_team_info_others url match_id rows :
  (∀ r, r ∈ rows → r.1.1 = match_id) →
  stmt_preserves (other_matches_same url match_id) (upsert_team_info rows).
Proof.
  intros Hrows d x d'. unfold upsert_team_info.
  destruct (mapM _ rows) as [keyed|] eqn:Hkeyed; [|done].
  destruct (distinct_keys keyed); [|done]. intros [= _ <-].
  split; [done|]. split; [|done]. simpl. intros k Hk.
  apply foldl_insert_other. intros Hin.
  eapply (mapM_keys (λ r, team_info_key r.1) snd) in Hin as (r & Hr & Hkey);
    [|exact Hkeyed].
  apply Hk. unfold team_info_key in Hkey.
  destruct r.1.2; simpl in Hkey; [|done]. injection Hkey as <-.
  by apply Hrows.
Qed.

Lemma upsert_rider_stats_others url match_id rows :
  (∀ r, r ∈ rows → r.1.1.1 = match_id) →
  stmt_preserves (other_matches_same url match_id) (upsert_rider_stats rows).
Proof.
  intros Hrows d x d'. unfold upsert_rider_stats.
  destruct (mapM _ rows) as [keyed|] eqn:Hkeyed; [|done].
  destruct (distinct_keys keyed); [|done].
  pose proof (stats_fold_other keyed (match_rider_stats d)
                (match_rider_stats_next d) []) as Hother.
  destruct (foldl _ _ keyed) as [[t nx] out]. intros [= _ <-].
  split; [done|]. split; [done|]. split; [|done]. simpl. intros k Hk.
  apply Hother. intros Hin.
  eapply (mapM_keys (λ r, rider_stat_key r.1) snd) in Hin as (r & Hr & Hkey);
    [|exact Hkeyed].
  apply Hk. unfold rider_stat_key in Hkey.
  destruct r.1.1.2; simpl in Hkey; [|done]. injection Hkey as <-.
  by apply Hrows.
Qed.

Lemma team_info_rows_match match_id team_id b r :
  r ∈ team_info_rows match_id team_id b → r.1.1 = match_id.
Proof.
  unfold team_info_rows. destruct (block_dict b); [|by intros ?%elem_of_nil].
  by intros ->%list_elem_of_singleton.
Qed.

Lemma rider_stat_rows_match match_id team_id r2id b r :
  r ∈ rider_stat_rows match_id team_id r2id b → r.1.1.1 = match_id.
Proof.
  unfold rider_stat_rows. intros (x & _ & Hx)%list_elem_of_omap.
  case_match; [|done]. by injection Hx as <-.
Qed.

End OtherMatchesLoad.

(* --------------------------------------------------------------------- *)
(** *** No statement of the load gives two rows one serial key *)

Section SerialKeys.
Context `{PyRuntime}.

#[export] Instance serial_keys_kept_refl : Reflexive serial_keys_kept.
Proof. by intros d. Qed.

#[export] Instance serial_keys_kept_trans : Transitive serial_keys_kept.
Proof. intros d1 d2 d3 [? ?] [? ?]. split; eauto. Qed.

(** A statement that leaves [teams] and [heats] with their sequences. *)
Lemma serial_keys_kept_ext (d d' : DB) :
  teams d' = teams d → teams_next d' = teams_next d →
  heats d' = heats d → heats_next d' = heats_next d →
  serial_keys_kept d d'.
Proof.
  intros Ht Htn Hh Hhn. unfold serial_keys_kept, teams_wf, heats_wf.
  by rewrite Ht, Htn, Hh, Hhn.
Qed.

Lemma select_id_sound t v : stmt_preserves serial_keys_kept (select_id t v).
Proof. by intros d a d' [= _ <-]. Qed.

Lemma select_team_by_code_sound c :
  stmt_preserves serial_keys_kept (select_team_by_code c).
Proof. by intros d a d' [= _ <-]. Qed.

Lemma select_team_by_name_sound n :
  stmt_preserves serial_keys_kept (select_team_by_name n).
Proof. by intros d a d' [= _ <-]. Qed.

Lemma insert_do_nothing_sound t v :
  stmt_preserves serial_keys_kept (insert_do_nothing t v).
Proof.
  intros d a d'. unfold insert_do_nothing.
  case_match; intros [= _ <-]; [done|].
  by apply serial_keys_kept_ext; destruct t.
Qed.

Lemma update_team_name_sound n a id :
  stmt_preserves serial_keys_kept (update_team_name n a id).
Proof.
  intros d x d' [= _ <-]. split; [|done]. intros [Hnd Hlt]. split; simpl.
  - rewrite team_ids_fmap; [done|]. intros r. apply fill_name_key.
  - apply Forall_fmap. eapply Forall_impl; [done|]. simpl.
    intros r. by rewrite fill_name_key.
Qed.

Lemma update_team_code_sound c a id :
  stmt_preserves serial_keys_kept (update_team_code c a id).
Proof.
  intros d x d'. unfold update_team_code. case_match; [done|].
  intros [= _ <-]. split; [|done]. intros [Hnd Hlt]. split; simpl.
  - rewrite team_ids_fmap; [done|]. intros r. apply fill_code_key.
  - apply Forall_fmap. eapply Forall_impl; [done|]. simpl.
    intros r. by rewrite fill_code_key.
Qed.

Lemma insert_team_sound c n a :
  stmt_preserves serial_keys_kept (insert_team c n a).
Proof.
  intros d x d'. unfold insert_team. case_match; intros [= _ <-]; [done|].
  split; [|done]. intros [Hnd Hlt]. split; simpl.
  - rewrite fmap_app. simpl. apply NoDup_app. split; [done|].
    split; [|apply NoDup_singleton].
    intros i Hi ->%list_elem_of_singleton.
    apply list_elem_of_fmap in Hi as (r & Hr & Hin).
    rewrite Forall_forall in Hlt. apply Hlt in Hin. lia.
  - apply Forall_app. split.
    + eapply Forall_impl; [done|]. simpl. intros; lia.
    + constructor; [simpl; lia|constructor].
Qed.

Lemma upsert_match_sound url f :
  stmt_preserves serial_keys_kept (upsert_match url f).
Proof.
  intros d x d'. unfold upsert_match.
  destruct (matches d !! url) as [[id f0]|]; intros [= _ <-];
    by apply serial_keys_kept_ext.
Qed.

Lemma upsert_team_info_sound rows :
  stmt_preserves serial_keys_kept (upsert_team_info rows).
Proof.
  intros d x d'. unfold upsert_team_info.
  repeat case_match; intros [= _ <-]. by apply serial_keys_kept_ext.
Qed.

Lemma upsert_rider_stats_sound rows :
  stmt_preserves serial_keys_kept (upsert_rider_stats rows).
Proof.
  intros d x d'. unfold upsert_rider_stats.
  destruct (mapM _ rows) as [keyed|]; [|done].
  destruct (distinct_keys keyed); [|done].
  destruct (foldl _ _ keyed) as [[t nx] out]. intros [= _ <-].
  by apply serial_keys_kept_ext.
Qed.

Lemma upsert_heat_sound match_id seq f :
  stmt_preserves serial_keys_kept (upsert_heat match_id seq f).
Proof.
  intros d x d' Hst. split.
  - unfold upsert_heat in Hst.
    destruct (heats d !! (match_id, seq)) as [[id f0]|];
      injection Hst as _ <-; done.
  - intros Hwf.
    destruct (upsert_heat_post match_id seq f d x
                (mkConn d' false (faults (clean d))) Hwf)
      as (hs & nx & Hc & Hwf' & _).
    + rewrite execute_clean. by rewrite Hst.
    + by injection Hc as ->.
Qed.

Lemma upsert_participants_sound rows :
  stmt_preserves serial_keys_kept (upsert_participants rows).
Proof.
  intros d x d'. unfold upsert_participants. case_match; intros [= _ <-].
  by apply serial_keys_kept_ext.
Qed.

End SerialKeys.

#[export] Hint Resolve select_id_sound select_team_by_code_sound
  select_team_by_name_sound insert_do_nothing_sound update_team_name_sound
  update_team_code_sound insert_team_sound upsert_match_sound
  upsert_team_info_sound upsert_rider_stats_sound upsert_heat_sound
  upsert_participants_sound : kept.

Section LoadSound.
Context `{PyRuntime}.

Lemma get_or_create_id_sound t value :
  preserves serial_keys_kept (get_or_create_id t value).
Proof. unfold get_or_create_id. solve_preserves. Qed.

Lemma process_team_sound c n a :
  preserves serial_keys_kept (process_team c n a).
Proof. unfold process_team. solve_preserves. Qed.

Lemma resolve_riders_sound rs : ∀ m,
  preserves serial_keys_kept (resolve_riders rs m).
Proof.
  induction rs as [|r rs IH]; intros m; simpl; [by apply preserves_ret|].
  case_match; [|apply IH].
  apply preserves_bind; [typeclasses eauto..|apply get_or_create_id_sound|].
  intros ?. apply IH.
Qed.

Lemma process_heats_sound match_id r2id stat_map tl heat_list : ∀ counter,
  preserves serial_keys_kept
    (process_heats match_id r2id stat_map tl heat_list counter).
Proof.
  induction heat_list as [|h rest IH]; intros counter; simpl.
  - by apply preserves_ret.
  - case_match; [|apply IH].
    do 6 (apply preserves_bind;
          [typeclasses eauto..|solve_preserves|intros ?]).
    apply IH.
Qed.

Lemma transform_document_sound doc :
  preserves serial_keys_kept (transform_document doc).
Proof.
  unfold transform_document.
  do 4 (apply preserves_bind;
        [typeclasses eauto..|apply get_or_create_id_sound|intros ?]).
  do 2 (apply preserves_bind;
        [typeclasses eauto..|by apply preserves_block_team_name|intros ?]).
  do 2 (apply preserves_bind;
        [typeclasses eauto..|apply process_team_sound|intros ?]).
  apply preserves_bind; [typeclasses eauto..|apply resolve_riders_sound|].
  intros ?.
  do 5 (apply preserves_bind; [typeclasses eauto..|solve_preserves|intros ?]).
  apply process_heats_sound.
Qed.

End LoadSound.

(* --------------------------------------------------------------------- *)
(** *** More on the tracker *)

(** Run again for the same match, the [finally] block changes nothing and
    only writes a warning. *)
Lemma finally_block_twice (s : ScheduleSpider) (u m : string) :
  ∃ w, finally_block (finally_block s u m).1 u m
       = ((finally_block s u m).1, [w])
       ∧ (∀ b, w ≠ LogAllCompleted b) ∧ (∀ b, w ≠ ExecUpdateIsScraped b).
Proof.
  assert (Hfirst :
    (finally_block s u m).1 = s
    ∨ ∃ P, truthy u && truthy m = true
           ∧ pending_match_requests s !! u = Some P ∧ m ∈ P
           ∧ (finally_block s u m).1 = set_pending s u (P ∖ {[m]})).
  { unfold finally_block. destruct (truthy u && truthy m); [|by left].
    destruct (pending_match_requests s !! u) as [P|]; [|by left].
    destruct (decide (m ∈ P)); [|by left].
    right. exists P. repeat split; [done|]. by destruct (decide (_ = ∅)). }
  destruct Hfirst as [Hsame|(P & Hkeys & HP & Hin & Hs1)].
  - rewrite Hsame. unfold finally_block.
    destruct (truthy u && truthy m) eqn:Hkeys; [|by eexists].
    destruct (pending_match_requests s !! u) as [P|] eqn:HP; [|by eexists].
    destruct (decide (m ∈ P)) as [Hin|Hout]; [|by eexists].
    exfalso. revert Hsame. unfold finally_block. rewrite Hkeys, HP.
    rewrite decide_True by done.
    assert (Hne : set_pending s u (P ∖ {[m]}) ≠ s).
    { intros Heq. apply (f_equal (λ x, pending_match_requests x !! u)) in Heq.
      simpl in Heq. rewrite lookup_insert_eq, HP in Heq.
      injection Heq as Heq. set_solver. }
    by destruct (decide (_ = ∅)).
  - rewrite Hs1. unfold finally_block at 1. rewrite Hkeys. simpl.
    rewrite lookup_insert_eq. rewrite decide_False by set_solver.
    by eexists.
Qed.


(** A child registered on an empty pending set and completed at once
    empties the set again and enters the completion branch. *)
Lemma early_child_step (s0 : ScheduleSpider) (b c : string) (raises : bool) :
  truthy b = true → truthy c = true →
  pending_match_requests s0 !! b = Some ∅ →
  let r := crawl_run s0 [Register b c;
                         MatchDetails (mkResponse (Some b) c raises)] in
  r.2 = batch_completed s0 b
  ∧ pending_match_requests r.1 !! b = Some ∅
  ∧ start_url_meta r.1 = start_url_meta s0
  ∧ db_connected r.1 = db_connected s0.
Proof.
  intros Hb Hc Hs0. simpl. unfold register_match. rewrite Hs0. simpl.
  unfold parse_match_details. simpl. rewrite Hb. unfold finally_block.
  rewrite Hb, Hc. simpl. rewrite lookup_insert_eq.
  rewrite decide_True by set_solver. rewrite decide_True by set_solver.
  simpl. rewrite app_nil_r. split; [done|].
  rewrite lookup_insert_eq. split; [|done]. f_equal. set_solver.
Qed.

(* --------------------------------------------------------------------- *)
(** *** The registrations of a schedule page *)

Lemma parse_events (s : ScheduleSpider) (b : string)
    (containers : list Container) :
  truthy b = true →
  parse s (Some b) containers
  = Register b <$> omap (container_request (db_connected s)) containers.
Proof.
  intros Hb. unfold parse. rewrite Hb.
  induction containers as [|c cs IH]; [done|]. csimpl.
  destruct (container_request (db_connected s) c); csimpl; by rewrite IH.
Qed.

(** Registrations for an open batch add to its pending set and log
    nothing. *)
Lemma run_registers (b : string) (urls : list string) :
  ∀ (s : ScheduleSpider) (P : gset string),
    pending_match_requests s !! b = Some P →
    crawl_run s (Register b <$> urls)
    = (set_pending s b (P ∪ list_to_set urls), []).
Proof.
  induction urls as [|m urls IH]; intros s P HP.
  - simpl. f_equal. destruct s as [p meta conn]. unfold set_pending. simpl in *.
    f_equal. rewrite insert_id; [done|]. rewrite HP. f_equal. set_solver.
  - rewrite fmap_cons, run_cons. cbn [crawl_step]. unfold register_match.
    rewrite HP.
    rewrite (IH _ (P ∪ {[m]})) by (simpl; apply lookup_insert_eq).
    simpl. f_equal. unfold set_pending. simpl. rewrite insert_insert_eq.
    do 2 f_equal. set_solver.
Qed.

(* --------------------------------------------------------------------- *)
(** *** The match page *)


Lemma py_isdigit_truthy (s : string) : py_isdigit s = true → truthy s = true.
Proof. by destruct s. Qed.

Lemma heat_number_of_digits (nodes : list string) (label : string) :
  heat_number_of nodes = Some label →
  py_isdigit label = true ∧ truthy label = true.
Proof.
  unfold heat_number_of. intros [_ Hd]%find_some_elem.
  split; [done|by apply py_isdigit_truthy].
Qed.

(** The heat object of a block carries the number of the block's header,
    the riders of its rows, and either four team scores or none. *)
Lemma heat_data_inv (block : RaceBlock) (h : HeatData) :
  heat_data block = Some h →
  ∃ label, heat_number_of (rb_heat_text_nodes block) = Some label
    ∧ ht_heat_number h = Some label
    ∧ ht_riders h = omap heat_rider (rb_rows block)
    ∧ ((length (rb_score_elements block) = 4%nat
        ∧ is_Some (ht_hometeam_heat_score h)
        ∧ is_Some (ht_awayteam_heat_score h)
        ∧ is_Some (ht_hometeam_current_match_score h)
        ∧ is_Some (ht_awayteam_current_match_score h))
       ∨ (length (rb_score_elements block) ≠ 4%nat
          ∧ ht_hometeam_heat_score h = None
          ∧ ht_awayteam_heat_score h = None
          ∧ ht_hometeam_current_match_score h = None
          ∧ ht_awayteam_current_match_score h = None)).
Proof.
  unfold heat_data.
  destruct (heat_number_of _) as [label|] eqn:Hlabel; [|done].
  destruct (heat_number_of_digits _ _ Hlabel) as [_ ->].
  exists label. split; [done|].
  destruct (rb_score_elements block) as [|s0 [|s1 [|s2 [|s3 [|s4 rest]]]]];
    injection H as <-; simpl; (split; [done|]); (split; [done|]);
    first [by right | left; eauto 10].
Qed.

Section PageLoad.
Context `{PyRuntime}.


End PageLoad.



Lemma match_data_heats url att page :
  match_details (match_data url att page)
  = all_heats_data (mp_race_blocks page).
Proof. unfold match_data. by repeat case_match. Qed.

(** The fields of the compiled document. *)
Lemma match_data_fields url att page :
  let doc := match_data url att page in
  team1 doc = team_block (team_lineups (mp_team_lineups_container page)).1
  ∧ team2 doc = team_block (team_lineups (mp_team_lineups_container page)).2
  ∧ home_team_details doc = (pick_sides (mp_team_name_elements page)).1
  ∧ away_team_details doc = (pick_sides (mp_team_name_elements page)).2
  ∧ home_score_details doc = (pick_sides (mp_score_elements page)).1
  ∧ away_score_details doc = (pick_sides (mp_score_elements page)).2
  ∧ competition doc = (match_info (mp_match_info page)).1.1.1
  ∧ round_type doc = (match_info (mp_match_info page)).1.1.2
  ∧ match_date doc = (match_info (mp_match_info page)).2.
Proof.
  unfold match_data.
  destruct (match_info _) as [[[? ?] ?] ?], (officials _) as [? ?],
    (pick_sides (mp_team_name_elements _)) as [? ?],
    (pick_sides (mp_score_elements _)) as [? ?], (team_lineups _) as [? ?].
  by repeat split.
Qed.

Lemma pick_sides_none elements :
  (length elements < 2)%nat ↔ (pick_sides elements).1 = None.
Proof.
  destruct elements as [|e0 [|e1 [|e2 rest]]]; simpl; split; (lia || done).
Qed.


Lemma team_lineups_none page :
  has_lineups page = false →
  team_lineups (mp_team_lineups_container page) = (None, None).
Proof.
  unfold has_lineups, team_lineups.
  by destruct (mp_team_lineups_container page) as [[|e1 [|e2 rest]]|].
Qed.

Lemma block_lacks_scores_heat race_blocks :
  Exists block_lacks_scores race_blocks →
  Exists heat_lacks_score (all_heats_data race_blocks).
Proof.
  rewrite !Exists_exists. intros (block & Hin & [label Hlabel] & Hlen).
  destruct (heat_data block) as [h|] eqn:Hh.
  - exists h. split; [apply list_elem_of_omap; eauto|].
    apply heat_data_inv in Hh as (label' & Hlabel' & Hnum & _ & Hscores).
    destruct Hscores as [[? _]|(_ & H1 & _)]; [done|].
    split; [|by left]. rewrite Hnum. simpl.
    by destruct (heat_number_of_digits _ _ Hlabel').
  - exfalso. unfold heat_data in Hh. rewrite Hlabel in Hh.
    destruct (heat_number_of_digits _ _ Hlabel) as [_ Ht]. rewrite Ht in Hh.
    by destruct (rb_score_elements block) as [|? [|? [|? [|? [|? ?]]]]].
Qed.

(* --------------------------------------------------------------------- *)
(** *** The name of the output file *)








(* --------------------------------------------------------------------- *)
(** *** The row of the match *)

Section MatchRow.
Context `{PyRuntime}.


End MatchRow.

(* --------------------------------------------------------------------- *)
(** *** The round of the match *)




(* ===================================================================== *)
(** ** Claims about the batch tracker *)
(* ===================================================================== *)



(** C2. A batch whose [is_current_season] flag is [True] never has the
    [is_scraped] write issued for it, whatever the events (as long as
    [start_requests] does not re-register the URL with another flag); the
    write is issued only inside the completion branch of a batch whose flag
    is [False]; and such a batch is marked when its completion branch is
    entered over an open connection. *)
Theorem current_season_batch_never_marked
    (s : ScheduleSpider) (b : string) (evs : list Event) :
  start_url_meta s !! b = Some (Some true) →
  Forall (λ e, ∀ cur, e ≠ StartRequest b cur) evs →
  (ExecUpdateIsScraped b ∉ (crawl_run s evs).2)
  ∧ (∀ s' e u, ExecUpdateIsScraped u ∈ (crawl_step s' e).2 →
       start_url_meta s' !! u = Some (Some false)
       ∧ LogAllCompleted u ∈ (crawl_step s' e).2)
  ∧ (∀ s' e u, start_url_meta s' !! u = Some (Some false) →
       db_connected s' = true →
       LogAllCompleted u ∈ (crawl_step s' e).2 →
       ExecUpdateIsScraped u ∈ (crawl_step s' e).2).
Proof.
  intros Hmeta Hstart. rewrite Forall_forall in Hstart. split; [|split].
  - intros (before & e & after & -> & Hin)%elem_of_crawl_run.
    apply crawl_step_marks in Hin as (Hm & _ & _).
    rewrite crawl_run_meta in Hm; [congruence|].
    intros e' cur He'. apply Hstart. apply elem_of_app. by left.
  - intros s' e u Hin. apply crawl_step_marks in Hin. naive_solver.
  - intros s' e u Hm Hdb Hin.
    destruct (crawl_step_fires s' e u Hin) as (r & -> & Hr & Hpend).
    simpl. unfold parse_match_details. rewrite Hr. simpl.
    simpl in Hin. unfold parse_match_details in Hin. rewrite Hr in Hin.
    simpl in Hin. destruct (truthy u) eqn:Hu; [|by apply list_elem_of_singleton in Hin].
    unfold finally_block in *. rewrite Hu, Hpend in *. simpl in *.
    destruct (truthy (meta_match_url r));
      [|by apply list_elem_of_singleton in Hin].
    rewrite decide_True by set_solver.
    rewrite decide_True by set_solver.
    simpl. unfold batch_completed. simpl. rewrite Hm, Hdb. simpl.
    right. left.
Qed.

Lemma current_season_batch_never_marked_witness :
  let s := mkSpider {[ "season" := {[ "m1" ]} ]}
                    {[ "season" := Some true ]} true in
  let evs := [ MatchDetails (mkResponse (Some "season") "m1" false) ] in
  (ExecUpdateIsScraped "season" ∉ (crawl_run s evs).2)
  ∧ (∀ s' e u, ExecUpdateIsScraped u ∈ (crawl_step s' e).2 →
       start_url_meta s' !! u = Some (Some false)
       ∧ LogAllCompleted u ∈ (crawl_step s' e).2)
  ∧ (∀ s' e u, start_url_meta s' !! u = Some (Some false) →
       db_connected s' = true →
       LogAllCompleted u ∈ (crawl_step s' e).2 →
       ExecUpdateIsScraped u ∈ (crawl_step s' e).2).
Proof.
  intros s evs.
  apply (current_season_batch_never_marked s "season" evs).
  - reflexivity.
  - repeat constructor. intros cur. discriminate.
Defined.

(** C10. The completion branch of [b], and with it the [is_scraped] write,
    is entered only by a completion callback that finds a pending set
    holding exactly its own child. Hence a batch opened by [start_requests]
    whose schedule page registers no child (every container is not a match
    link or is skipped by the existence check) never enters the branch and
    is never marked, whatever events follow short of a registration for [b],
    although its pending set stays empty. *)
Theorem batch_without_children_never_completes
    (s : ScheduleSpider) (b : string) (cur : option bool)
    (containers : list Container) (evs : list Event) :
  Forall (λ c, container_request (db_connected s) c = None) containers →
  Forall (λ e, touches_registration b e = false) evs →
  let s0 := start_request s b cur in
  let final := crawl_run s0 (parse s0 (Some b) containers ++ evs) in
  (LogAllCompleted b ∉ final.2)
  ∧ (ExecUpdateIsScraped b ∉ final.2)
  ∧ pending_match_requests final.1 !! b = Some ∅
  ∧ (∀ s' e, LogAllCompleted b ∈ (crawl_step s' e).2 →
       ∃ r, e = MatchDetails r ∧ meta_starting_url r = Some b
            ∧ pending_match_requests s' !! b = Some {[meta_match_url r]}).
Proof.
  intros Hcont Hreg s0 final.
  assert (Hparse : parse s0 (Some b) containers = []).
  { unfold parse. destruct (truthy b); [|done].
    subst s0. simpl. induction Hcont as [|c cs Hc _ IH]; [done|].
    simpl. by rewrite Hc. }
  subst final. rewrite Hparse. simpl.
  rewrite Forall_forall in Hreg.
  assert (Hfire : LogAllCompleted b ∉ (crawl_run s0 evs).2).
  { intros (before & e & after & -> & Hin)%elem_of_crawl_run.
    destruct (crawl_step_fires _ _ _ Hin) as (r & -> & Hr & Hpend).
    destruct (crawl_run_pending_subset before s0 b ∅) as (P' & HP' & Hsub).
    - intros e He. apply Hreg. apply elem_of_app. by left.
    - subst s0. simpl. by rewrite lookup_insert_eq.
    - rewrite Hpend in HP'. injection HP' as <-. set_solver. }
  split; [done|]. split; [|split].
  - intros (before & e & after & -> & Hin)%elem_of_crawl_run.
    apply crawl_step_marks in Hin as (_ & _ & Hin).
    apply Hfire. apply elem_of_crawl_run. eauto 6.
  - destruct (crawl_run_pending_subset evs s0 b ∅) as (P' & HP' & Hsub);
      [done| |].
    + subst s0. simpl. by rewrite lookup_insert_eq.
    + rewrite HP'. f_equal. set_solver.
  - intros s' e. apply crawl_step_fires.
Qed.

Lemma batch_without_children_never_completes_witness :
  let s := mkSpider ∅ ∅ true in
  let containers := [ mkContainer None RowNotFound;
                      mkContainer (Some "https://ekstraliga.pl/se/mecz/1234")
                                  RowFound ] in
  let evs := [ MatchDetails
                 (mkResponse (Some "season")
                             "https://ekstraliga.pl/se/mecz/1234" false) ] in
  let s0 := start_request s "season" (Some false) in
  let final := crawl_run s0 (parse s0 (Some "season") containers ++ evs) in
  (LogAllCompleted "season" ∉ final.2)
  ∧ (ExecUpdateIsScraped "season" ∉ final.2)
  ∧ pending_match_requests final.1 !! "season" = Some ∅
  ∧ (∀ s' e, LogAllCompleted "season" ∈ (crawl_step s' e).2 →
       ∃ r, e = MatchDetails r ∧ meta_starting_url r = Some "season"
            ∧ pending_match_requests s' !! "season"
              = Some {[meta_match_url r]}).
Proof.
  intros s containers evs.
  apply (batch_without_children_never_completes s "season" (Some false)
           containers evs).
  - repeat constructor.
  - repeat constructor.
Defined.

(* ===================================================================== *)
(** ** Claims about the value parsers *)
(* ===================================================================== *)


(* ===================================================================== *)
(** ** Claims about the assembly of one document *)
(* ===================================================================== *)




(* ===================================================================== *)
(** ** Claims about natural-key resolution *)
(* ===================================================================== *)



(** C6 as stated fails: with the key "Arena" known to the unique index of
    [arenas] but invisible to a SELECT, the INSERT meets a conflict and the
    SELECT after it finds nothing; the load of the document is not aborted:
    it commits, the file is moved, and the match row carries a NULL
    [arena_id]. *)
Lemma resolution_failure_counterexample :
  let d := set_lookup_table (H := sample_runtime) Arenas
             (mkLookupTable ∅ {[ "Arena" ]} 1) empty_db in
  let doc := sample_document [sample_heat (Some "1")] in
  let o := transform_file (FileJson doc) true d [] in
  select_id Arenas "Arena" d = inr (None, d)
  ∧ insert_do_nothing Arenas "Arena" d = inr (None, d)
  ∧ arena doc = Some "Arena"
  ∧ fo_result o = inr ()
  ∧ fo_moved o = true
  ∧ (m_arena_id ∘ snd) <$> matches (fo_db o) !! match_url doc = Some None
  ∧ size (heats (fo_db o)) = 1%nat.
Proof. vm_compute. repeat split. Qed.

(** C6, as the code has it. When the first SELECT finds nothing, the INSERT
    meets a conflict and the SELECT after it finds nothing either,
    [get_or_create_id] returns [None] without raising, and leaves the store
    and the transaction as they were; for the arena, the load then goes on
    exactly as the load of the same document without an arena does. *)
Theorem unresolved_key_continues_with_none `{PyRuntime} (t : Lookup)
    (value : string) (d : DB) (fl : list bool) :
  blank value = false →
  no_fault_in 3 fl →
  select_id t value d = inr (None, d) →
  insert_do_nothing t value d = inr (None, d) →
  get_or_create_id t (Some value) (mkConn d false fl)
  = (inr None, mkConn d false (drop 3 fl))
  ∧ ∀ doc move_ok, t = Arenas → arena doc = Some value →
      transform_file (FileJson doc) move_ok d fl
      = transform_file (FileJson (with_arena None doc)) move_ok d (drop 3 fl).
Proof.
  intros Hb Hfl Hsel Hins.
  assert (Hrow : lt_rows (lookup_table t d) !! value = None).
  { unfold select_id in Hsel. by injection Hsel. }
  assert (Hhid : value ∈ lt_hidden (lookup_table t d)).
  { unfold insert_do_nothing in Hins. rewrite Hrow in Hins.
    rewrite bool_decide_eq_false_2 in Hins by (by intros [? ?]).
    simpl in Hins. case_bool_decide; [done|]. by injection Hins. }
  assert (Hres : get_or_create_id t (Some value) (mkConn d false fl)
                 = (inr None, mkConn d false (drop 3 fl))).
  { rewrite get_or_create_id_unresolved by done.
    by rewrite <- (tail_drop fl 2), <- (tail_drop fl 1), <- (tail_drop fl 0). }
  split; [done|].
  intros doc move_ok -> Harena. unfold transform_file.
  rewrite !(bind_unfold (transform_document _)).
  unfold transform_document at 1.
  rewrite bind_unfold, Harena, Hres.
  unfold transform_document. rewrite bind_unfold. by destruct doc.
Qed.

Lemma unresolved_key_continues_with_none_witness :
  let d := set_lookup_table (H := sample_runtime) Arenas
             (mkLookupTable ∅ {[ "Arena" ]} 1) empty_db in
  get_or_create_id Arenas (Some "Arena") (mkConn d false [])
  = (inr None, mkConn d false (drop 3 []))
  ∧ ∀ doc move_ok, Arenas = Arenas → arena doc = Some "Arena" →
      transform_file (FileJson doc) move_ok d []
      = transform_file (FileJson (with_arena None doc)) move_ok d (drop 3 []).
Proof.
  intros d.
  apply (unresolved_key_continues_with_none (H := sample_runtime) Arenas
           "Arena" d []).
  - reflexivity.
  - apply no_fault_in_nil.
  - reflexivity.
  - reflexivity.
Defined.

(* ===================================================================== *)
(** ** Claims about the transaction of one document *)
(* ===================================================================== *)

(** C7. Processing one file ends in one of two ways, whatever the file holds
    and whichever statements the store fails. Either an exception reached a
    handler: then the store is what it was before the file (every table
    rolled back) and the file has not been moved. Or the commit went
    through: then the body ran to its end without failing the transaction,
    the store holds all of its writes, and only then was the move to the
    processed directory attempted. *)
Theorem load_of_one_document_is_atomic `{PyRuntime} (content : FileContent)
    (move_ok : bool) (d : DB) (fl : list bool) :
  let o := transform_file content move_ok d fl in
  match fo_result o with
  | inl _ => fo_db o = d ∧ fo_moved o = false
  | inr _ =>
      fo_moved o = move_ok
      ∧ ∃ doc c, content = FileJson doc
                 ∧ transform_document doc (mkConn d false fl) = (inr (), c)
                 ∧ txn_failed c = false
                 ∧ no_fault_in 1 (faults c)
                 ∧ fo_db o = db c
  end.
Proof.
  destruct content as [| |doc]; simpl; [done|done|].
  rewrite bind_unfold.
  destruct (transform_document doc (mkConn d false fl)) as [[e|[]] c] eqn:Hrun;
    simpl; [done|].
  pose proof (transform_document_clean _ _ _ Hrun) as Hclean.
  unfold commit. rewrite Hclean.
  destruct (faults c) as [|[] fl'] eqn:Hfl; simpl; [|done|].
  - split; [done|]. exists doc, c. repeat split; try done.
    rewrite Hfl. apply no_fault_in_nil.
  - split; [done|]. exists doc, c. repeat split; try done.
    rewrite Hfl. repeat constructor.
Qed.

(** C3 as stated fails: the first heat of the document has no label and the
    second is labelled "1"; the load commits, no row is written for the first
    heat, and the row of the second heat carries sequence number 2, not 1:
    the skipped heat has consumed a sequence number. *)
Lemma skipped_heat_sequence_counterexample :
  let doc := sample_document [sample_heat None; sample_heat (Some "1")] in
  let o := transform_file (H := sample_runtime) (FileJson doc) true empty_db []
  in
  fo_result o = inr ()
  ∧ fst <$> matches (fo_db o) !! match_url doc = Some 1%Z
  ∧ heats (fo_db o) !! (1%Z, 1%Z) = None
  ∧ (hf_heat_display_number ∘ snd) <$> heats (fo_db o) !! (1%Z, 2%Z)
    = Some "1"
  ∧ size (heats (fo_db o)) = 1%nat.
Proof. vm_compute. repeat split. Qed.

(** C3, as the code has it. After a load that ran to its end, every heat of
    the document that has a label has a row in [heats] under the match and
    the heat's position in the document's list (1 for the first heat object,
    counting the heats without a label too), with the label as display
    number; and no other key of [heats] has changed, so a heat without a
    label has produced no row, while its position stays unused. *)
Theorem heat_sequence_is_document_position `{PyRuntime} (doc : Document)
    (c c' : Conn) :
  transform_document doc c = (inr (), c') →
  ∃ match_id,
    fst <$> matches (db c') !! match_url doc = Some match_id
    ∧ (∀ (i : nat) h, match_details doc !! i = Some h →
         truthy_opt (ht_heat_number h) = true →
         ∃ id f, heats (db c') !! (match_id, Z.of_nat i + 1)%Z = Some (id, f)
                 ∧ hf_heat_display_number f = default "" (ht_heat_number h))
    ∧ (∀ k, (∀ (i : nat) h, match_details doc !! i = Some h →
               truthy_opt (ht_heat_number h) = true →
               k ≠ (match_id, Z.of_nat i + 1)%Z) →
            heats (db c') !! k = heats (db c) !! k).
Proof.
  unfold transform_document. intros Hrun.
  do 4 (apply bind_inr in Hrun as (? & ? & Hstep & Hrun);
        apply get_or_create_id_heats in Hstep; rewrite <- Hstep; clear Hstep).
  do 2 (apply bind_inr in Hrun as (? & ? & Hstep & Hrun);
        apply (frames_block_team_name heats) in Hstep; rewrite <- Hstep;
        clear Hstep).
  do 2 (apply bind_inr in Hrun as (? & ? & Hstep & Hrun);
        apply process_team_heats in Hstep; rewrite <- Hstep; clear Hstep).
  apply bind_inr in Hrun as (r2id & ? & Hstep & Hrun).
  apply resolve_riders_heats in Hstep; rewrite <- Hstep; clear Hstep.
  do 2 (apply bind_inr in Hrun as (? & ? & Hstep & Hrun);
        apply (frames_score_or_zero heats) in Hstep; rewrite <- Hstep;
        clear Hstep).
  apply bind_inr in Hrun as (match_id & c1 & Hmatch & Hrun).
  pose proof (frames_execute heats _ (upsert_match_heats _ _) _ _ _ Hmatch)
    as Hstep. rewrite <- Hstep; clear Hstep.
  apply execute_inr in Hmatch as (_ & _ & Hmatch & _).
  assert (Hrow : fst <$> matches (db c1) !! match_url doc = Some match_id).
  { unfold upsert_match in Hmatch.
    destruct (matches (db _) !! match_url doc) as [[id f0]|];
      injection Hmatch as <- <-; simpl; by rewrite lookup_insert_eq. }
  apply bind_inr in Hrun as (? & c2 & Hinfo & Hrun).
  apply bind_inr in Hrun as (results & c3 & Hstats & Hrun).
  assert (Hm2 : matches (db c2) = matches (db c1)).
  { revert Hinfo. apply frames_execute_values_if_any. eauto with frames. }
  assert (Hh2 : heats (db c2) = heats (db c1)).
  { revert Hinfo. apply frames_execute_values_if_any. eauto with frames. }
  assert (Hm3 : matches (db c3) = matches (db c2)).
  { revert Hstats. apply frames_execute_values_if_any. eauto with frames. }
  assert (Hh3 : heats (db c3) = heats (db c2)).
  { revert Hstats. apply frames_execute_values_if_any. eauto with frames. }
  pose proof (process_heats_matches _ _ _ _ _ _ _ _ _ Hrun) as Hm4.
  destruct (process_heats_positions _ _ _ _ _ _ _ _ Hrun) as [Hpos Hframe].
  exists match_id. split; [by rewrite Hm4, Hm3, Hm2|]. split.
  - intros i h Hi Hl. destruct (Hpos i h Hi Hl) as (id & f & Hk & Hd).
    exists id, f. split; [|done]. rewrite <- Hk. do 2 f_equal.
  - intros k Hk. rewrite Hframe, Hh3, Hh2; [done|].
    intros i h Hi Hl. specialize (Hk i h Hi Hl). done.
Qed.

Lemma heat_sequence_is_document_position_witness :
  let doc := sample_document [sample_heat None; sample_heat (Some "1")] in
  let c := mkConn (H := sample_runtime) empty_db false [] in
  let c' := (transform_document doc c).2 in
  ∃ match_id,
    fst <$> matches (db c') !! match_url doc = Some match_id
    ∧ (∀ (i : nat) h, match_details doc !! i = Some h →
         truthy_opt (ht_heat_number h) = true →
         ∃ id f, heats (db c') !! (match_id, Z.of_nat i + 1)%Z = Some (id, f)
                 ∧ hf_heat_display_number f = default "" (ht_heat_number h))
    ∧ (∀ k, (∀ (i : nat) h, match_details doc !! i = Some h →
               truthy_opt (ht_heat_number h) = true →
               k ≠ (match_id, Z.of_nat i + 1)%Z) →
            heats (db c') !! k = heats (db c) !! k).
Proof.
  intros doc c c'.
  apply (heat_sequence_is_document_position (H := sample_runtime) doc c c').
  vm_compute. reflexivity.
Defined.
(* ===================================================================== *)
(** ** Further properties of the load *)
(* ===================================================================== *)

(** Why the two sides must differ for a reload to change nothing. The store
    knows the team "GKM Grudziadz" under the code "GRU"; the
    document gives "GKM" as the code of both sides and has a lineup for the
    home side only. The first load finds the home side by its name (row 1)
    and inserts a row for the code "GKM" (row 2) for the away side; the
    second load finds the home side by the code "GKM" (row 2). Both loads
    commit, and the second leaves a second row for the one team block in
    [match_team_info] and a second row for its one rider in
    [match_rider_stats]. *)
Lemma reload_same_code_counterexample :
  let doc := one_sided_document in
  let first := transform_file (H := sample_runtime) (FileJson doc) true
                 renamed_team_db [] in
  let second := transform_file (H := sample_runtime) (FileJson doc) true
                  (fo_db first) [] in
  fo_result first = inr () ∧ fo_result second = inr ()
  ∧ (λ r, m_home_team_id (H := sample_runtime) r.2)
      <$> matches (fo_db first) !! match_url doc = Some (Some 1%Z)
  ∧ (λ r, m_home_team_id (H := sample_runtime) r.2)
      <$> matches (fo_db second) !! match_url doc = Some (Some 2%Z)
  ∧ size (match_team_info (fo_db first)) = 1%nat
  ∧ size (match_team_info (fo_db second)) = 2%nat
  ∧ size (match_rider_stats (fo_db first)) = 1%nat
  ∧ size (match_rider_stats (fo_db second)) = 2%nat.
Proof. vm_compute. repeat split. Qed.

(** X1. Reloading a document changes nothing. On a store whose serial keys
    are sound, take a document whose two sides are different teams (the away
    side repeats neither the code nor the name of the home side), whose
    lineups and heats fit one page of [execute_values] (at most 100 riders
    in the two lineups together, at most 100 riders in a heat), and a first
    load of it that commits. Then a second load of the same document commits too and
    leaves the store exactly as the first load left it: no table has a row
    more, none a row less, and no field has another value. The store holds
    the document as the second load writes it: the row of [matches] under
    the URL, the rows of [match_team_info] and [match_rider_stats] under
    (match, team) and (match, team, rider), the rows of [heats] under
    (match, sequence) and those of [heat_participants] under (heat, rider
    stat) carry the values of the document. *)
Theorem reload_leaves_the_store_unchanged `{PyRuntime} (doc : Document)
    (d : DB) (move_ok : bool) :
  teams_wf d → heats_wf d → sides_differ doc →
  (length (block_riders (team1 doc) ++ block_riders (team2 doc)) ≤ 100)%nat →
  Forall (λ h, (length (ht_riders h) ≤ 100)%nat) (match_details doc) →
  let first := transform_file (FileJson doc) move_ok d [] in
  let second := transform_file (FileJson doc) move_ok (fo_db first) [] in
  fo_result first = inr () →
  fo_result second = inr ()
  ∧ fo_db second = fo_db first
  ∧ ∃ v, document_loaded doc v (fo_db second).
Proof.
  intros Hteams Hheats Hsides Hroster Hriders first second Hok.
  assert (Hfirst : ∃ v, document_loaded doc v (fo_db first)).
  { subst first. unfold transform_file in *. rewrite bind_unfold in *.
    change (mkConn d false []) with (clean d) in *.
    destruct (transform_document doc (clean d)) as [[e|[]] c1] eqn:Hrun;
      [done|].
    apply transform_document_post in Hrun
      as (v & d1 & -> & _ & _ & Hloaded); [|done..].
    by exists v. }
  destruct Hfirst as [v Hloaded].
  assert (Hsecond : second = mkFileOutcome (inr ()) (fo_db first) [] move_ok).
  { subst second. unfold transform_file at 1. rewrite bind_unfold.
    change (mkConn (fo_db first) false []) with (clean (fo_db first)).
    by rewrite (transform_document_replay doc v). }
  rewrite Hsecond. simpl. eauto.
Qed.

Lemma reload_leaves_the_store_unchanged_witness :
  let doc := sample_document [sample_heat (Some "1"); sample_heat (Some "2.")]
  in
  let first := transform_file (H := sample_runtime) (FileJson doc) true
                 empty_db [] in
  let second := transform_file (H := sample_runtime) (FileJson doc) true
                  (fo_db first) [] in
  fo_result second = inr ()
  ∧ fo_db second = fo_db first
  ∧ ∃ v, document_loaded doc v (fo_db second).
Proof.
  intros doc.
  apply (reload_leaves_the_store_unchanged (H := sample_runtime) doc empty_db
           true).
  - split; [apply NoDup_nil_2|apply Forall_nil_2].
  - split; intros *; vm_compute; discriminate.
  - split; intros _; vm_compute; discriminate.
  - simpl. lia.
  - repeat constructor.
  - vm_compute. reflexivity.
Defined.

(** X2. What a team block does to [teams] (on a store that fails no
    statement, whose serial keys are sound). The block deletes no row and
    moves none; in a row it keeps the key, writes a code only where the code
    was NULL (and then the code of the block), a name only where the name
    was NULL (the name of the block), and an arena only where the arena was
    NULL; it appends at most one row, under the next serial key, with the
    code and the name of the block. A block that answers [None] has changed
    nothing; a block that answers an identifier answers the key of a row
    that carries the block's (non-empty) code or name. Nothing but [teams]
    and its sequence changes. *)
Theorem team_block_fills_and_appends `{PyRuntime} (c n : option string)
    (a : option Z) (d : DB) (r : option Z) (c' : Conn) :
  teams_wf d →
  process_team c n a (clean d) = (inr r, c') →
  ∃ kept extra nx',
    c' = clean (set_teams (kept ++ extra) nx' d)
    ∧ team_keys_wf (kept ++ extra) nx'
    ∧ Forall2 (λ row row',
         team_id row' = team_id row
         ∧ (team_code row' = team_code row
            ∨ (team_code row = None ∧ team_code row' = c))
         ∧ (full_name row' = full_name row
            ∨ (full_name row = None ∧ full_name row' = n))
         ∧ (∀ x, team_arena_id row = Some x → team_arena_id row' = Some x))
       (teams d) kept
    ∧ ((extra = [] ∧ nx' = teams_next d)
       ∨ ((∃ a', extra = [mkTeamRow (teams_next d) c n a'])
          ∧ nx' = (teams_next d + 1)%Z))
    ∧ (r = None → kept = teams d ∧ extra = [])
    ∧ (∀ id, r = Some id →
         ∃ row, row ∈ kept ++ extra ∧ team_id row = id
                ∧ ((truthy_opt c = true ∧ team_code row = c)
                   ∨ (truthy_opt n = true ∧ full_name row = n))).
Proof.
  intros Hwf Hrun.
  apply process_team_post in Hrun
    as (ts' & nx' & -> & Hsettled & Hchange & Hnone); [|done].
  pose proof (team_change_wf _ _ _ _ _ _ Hwf Hchange) as Hwf'.
  destruct Hchange as (kept & extra & -> & Hfilled & Hextra).
  exists kept, extra, nx'. split; [done|]. split; [done|]. split.
  { eapply Forall2_impl; [exact Hfilled|].
    intros row row' (Hid & Hcode & Hname & Harena).
    split; [done|]. split; [|done].
    destruct Hcode as [?|(? & ? & _)]; eauto. }
  split.
  { destruct Hextra as [[-> ->]|(Hrow & -> & _)]; eauto. }
  split.
  { intros ->. destruct (Hnone eq_refl) as [Hts _].
    apply Forall2_length in Hfilled.
    assert (extra = []) as ->.
    { apply (f_equal length) in Hts. rewrite length_app in Hts.
      destruct extra; [done|]. simpl in Hts. lia. }
    by rewrite app_nil_r in Hts. }
  intros id ->.
  destruct Hsettled as [(Hc & c0 & id' & -> & [= <-] & Hfind & _)
                       |[(_ & Hn & n0 & id' & -> & [= <-] & Hfind & _)
                        |[(_ & _ & ? & _)|(_ & _ & ?)]]]; [| |done..].
  - destruct (find_code c0 (kept ++ extra)) as [ρ|] eqn:Hρ; [|done].
    injection Hfind as <-.
    apply find_some_elem in Hρ as [Hin Hcode%bool_decide_eq_true].
    exists ρ. eauto.
  - destruct (find_name n0 (kept ++ extra)) as [ρ|] eqn:Hρ; [|done].
    injection Hfind as <-.
    apply find_some_elem in Hρ as [Hin Hname%bool_decide_eq_true].
    exists ρ. eauto.
Qed.

Lemma team_block_fills_and_appends_witness :
  let c := Some "GKM" in
  let n := Some "GKM Grudziadz" in
  let c' := (process_team (H := sample_runtime) c n (Some 5%Z)
               (clean renamed_team_db)).2 in
  ∃ kept extra nx',
    c' = clean (set_teams (kept ++ extra) nx' renamed_team_db)
    ∧ team_keys_wf (kept ++ extra) nx'
    ∧ Forall2 (λ row row',
         team_id row' = team_id row
         ∧ (team_code row' = team_code row
            ∨ (team_code row = None ∧ team_code row' = c))
         ∧ (full_name row' = full_name row
            ∨ (full_name row = None ∧ full_name row' = n))
         ∧ (∀ x, team_arena_id row = Some x → team_arena_id row' = Some x))
       (teams renamed_team_db) kept
    ∧ ((extra = [] ∧ nx' = teams_next renamed_team_db)
       ∨ ((∃ a', extra = [mkTeamRow (teams_next renamed_team_db) c n a'])
          ∧ nx' = (teams_next renamed_team_db + 1)%Z))
    ∧ (Some 1%Z = None → kept = teams renamed_team_db ∧ extra = [])
    ∧ (∀ id, Some 1%Z = Some id →
         ∃ row, row ∈ kept ++ extra ∧ team_id row = id
                ∧ ((truthy_opt c = true ∧ team_code row = c)
                   ∨ (truthy_opt n = true ∧ full_name row = n))).
Proof.
  intros c n c'.
  apply (team_block_fills_and_appends (H := sample_runtime) c n (Some 5%Z)
           renamed_team_db (Some 1%Z) c').
  - split; [apply NoDup_singleton|by repeat constructor].
  - vm_compute. reflexivity.
Defined.

(** X3. A team block is idempotent: on a store that fails no statement and
    whose serial keys are sound, running the block again on what it left
    answers the same identifier and changes nothing. *)
Theorem team_block_is_idempotent `{PyRuntime} (c n : option string)
    (a : option Z) (d : DB) (r : option Z) (c' : Conn) :
  teams_wf d →
  process_team c n a (clean d) = (inr r, c') →
  process_team c n a c' = (inr r, c').
Proof.
  intros Hwf Hrun.
  apply process_team_post in Hrun as (ts' & nx' & -> & Hsettled & _); [|done].
  by apply process_team_replay.
Qed.

Lemma team_block_is_idempotent_witness :
  let c' := (process_team (H := sample_runtime) (Some "WRO")
               (Some "Sparta Wroclaw") None (clean renamed_team_db)).2 in
  process_team (Some "WRO") (Some "Sparta Wroclaw") None c'
  = (inr (Some 2%Z), c').
Proof.
  intros c'.
  apply (team_block_is_idempotent (H := sample_runtime) (Some "WRO")
           (Some "Sparta Wroclaw") None renamed_team_db (Some 2%Z) c').
  - split; [apply NoDup_singleton|by repeat constructor].
  - vm_compute. reflexivity.
Defined.

(** X4. Documents the loader always rejects. A document in which [team1]
    or [team2] is a text (what the spider writes when it found no lineup),
    or a match score is null, or a heat with a label has a null team score,
    raises in the body of the load whatever the store holds and whichever
    statements it fails: the transaction is rolled back, the store is what
    it was before the file, and the file stays in the inbound directory. *)
Theorem unloadable_document_is_rolled_back `{PyRuntime} (doc : Document)
    (move_ok : bool) (d : DB) (fl : list bool) :
  (∃ s, team1 doc = TeamText s) ∨ (∃ s, team2 doc = TeamText s)
  ∨ home_score_details doc = None ∨ away_score_details doc = None
  ∨ Exists heat_lacks_score (match_details doc) →
  let o := transform_file (FileJson doc) move_ok d fl in
  (∃ e, fo_result o = inl e) ∧ fo_db o = d ∧ fo_moved o = false.
Proof.
  intros Hbad o. subst o. unfold transform_file. rewrite bind_unfold.
  destruct (transform_document doc (mkConn d false fl)) as [[e|[]] c] eqn:Hrun;
    [simpl; eauto|].
  exfalso.
  apply transform_document_inr_shape in Hrun
    as (Ht1 & Ht2 & [s1 Hs1] & [s2 Hs2] & Hheats).
  destruct Hbad as [[s Hs]|[[s Hs]|[Hs|[Hs|Hex]]]].
  - by eapply Ht1.
  - by eapply Ht2.
  - congruence.
  - congruence.
  - apply Exists_exists in Hex as (h & Hin & Hlacks).
    rewrite Forall_forall in Hheats. by eapply Hheats.
Qed.

Lemma unloadable_document_is_rolled_back_witness :
  let doc := document_without_lineup in
  let o := transform_file (H := sample_runtime) (FileJson doc) true
             renamed_team_db [false; true] in
  (∃ e, fo_result o = inl e) ∧ fo_db o = renamed_team_db ∧ fo_moved o = false.
Proof.
  intros doc.
  apply (unloadable_document_is_rolled_back (H := sample_runtime) doc true
           renamed_team_db [false; true]).
  left. by exists "Not available".
Defined.

(** X5. A load deletes nothing and renumbers nothing. Whatever the files of
    the inbound directory hold and whichever statements the store fails,
    the store the loop leaves still answers every natural key of the five
    lookup tables with the identifier it had, still has every row of
    [teams] in its place under its key, and still has every key of
    [matches], [match_team_info], [match_rider_stats], [heats] and
    [heat_participants], under the same serial key where the table has
    one. *)
Theorem load_keeps_rows_and_keys `{PyRuntime}
    (files : list (string * FileContent * bool)) (d : DB) (fl : list bool) :
  rows_kept d (transform_and_load files d fl).1.1.
Proof.
  revert d fl. induction files as [|[[filename content] move_ok] rest IH];
    intros d fl; [done|].
  cbn [transform_and_load].
  assert (Hfile : rows_kept d (fo_db (transform_file content move_ok d fl))).
  { unfold transform_file. destruct content as [| |doc]; [done..|].
    rewrite bind_unfold.
    destruct (transform_document doc (mkConn d false fl)) as [[e|[]] c]
      eqn:Hrun; [done|].
    apply transform_document_kept in Hrun. simpl in Hrun.
    unfold commit. destruct (faults c) as [|[] fs]; simpl; [|done|];
      by destruct (txn_failed c). }
  specialize (IH (fo_db (transform_file content move_ok d fl))
                 (fo_faults (transform_file content move_ok d fl))).
  destruct (transform_and_load rest _ _) as [[d' inbound] processed].
  destruct (fo_moved _); simpl in *; by etrans.
Qed.

(** X6. A load that runs to its end touches the rows of its own match only:
    the row of every other URL in [matches], and every row of
    [match_team_info], [match_rider_stats] and [heats] that belongs to
    another match, is what it was; and a URL that was in [matches] keeps its
    [match_id]. *)
Theorem load_leaves_other_matches_alone `{PyRuntime} (doc : Document)
    (c c' : Conn) :
  transform_document doc c = (inr (), c') →
  ∃ match_id,
    fst <$> matches (db c') !! match_url doc = Some match_id
    ∧ (∀ id f, matches (db c) !! match_url doc = Some (id, f) → id = match_id)
    ∧ other_matches_same (match_url doc) match_id (db c) (db c').
Proof.
  unfold transform_document. intros Hrun.
  apply bind_inr in Hrun as (? & ? & Hd0 & Hrun).
  apply get_or_create_id_documents in Hd0.
  do 3 (apply bind_inr in Hrun as (? & ? & Hstep & Hrun);
        apply get_or_create_id_documents in Hstep; rewrite Hd0 in Hstep;
        clear Hd0; rename Hstep into Hd0).
  do 2 (apply bind_inr in Hrun as (? & ? & Hstep & Hrun);
        apply (frames_block_team_name document_tables) in Hstep;
        rewrite Hd0 in Hstep; clear Hd0; rename Hstep into Hd0).
  do 2 (apply bind_inr in Hrun as (? & ? & Hstep & Hrun);
        apply process_team_documents in Hstep; rewrite Hd0 in Hstep;
        clear Hd0; rename Hstep into Hd0).
  apply bind_inr in Hrun as (r2id & ? & Hstep & Hrun).
  apply resolve_riders_documents in Hstep; rewrite Hd0 in Hstep;
    clear Hd0; rename Hstep into Hd0.
  do 2 (apply bind_inr in Hrun as (? & ? & Hstep & Hrun);
        apply (frames_score_or_zero document_tables) in Hstep;
        rewrite Hd0 in Hstep; clear Hd0; rename Hstep into Hd0).
  apply bind_inr in Hrun as (match_id & c1 & Hmatch & Hrun).
  apply execute_inr in Hmatch as (_ & _ & Hmatch & _).
  match type of Hmatch with
  | upsert_match _ _ (db ?c0) = _ => set (cb := c0) in *
  end.
  unfold document_tables in Hd0. injection Hd0 as Hm0 Hi0 Hs0 Hh0.
  assert (Hafter : fst <$> matches (db c1) !! match_url doc = Some match_id
            ∧ (∀ id f, matches (db cb) !! match_url doc = Some (id, f) →
                 id = match_id)
            ∧ other_matches_same (match_url doc) match_id (db cb) (db c1)).
  { unfold upsert_match in Hmatch.
    destruct (matches (db cb) !! match_url doc) as [[id f0]|] eqn:Hrow;
      injection Hmatch as <- <-; simpl; rewrite lookup_insert_eq;
      (split; [done|]); (split; [by intros ? ? [= -> _] || done|]);
      (split; [intros u Hu; simpl; by rewrite lookup_insert_ne|done]). }
  destruct Hafter as (Hrow & Hstable & Hsame1).
  apply bind_inr in Hrun as (? & c2 & Hinfo & Hrun).
  apply bind_inr in Hrun as (results & c3 & Hstats & Hrun).
  assert (Hsame2 : other_matches_same (match_url doc) match_id (db c1) (db c2)).
  { revert Hinfo.
    apply (preserves_execute_values_if_any
             (other_matches_same (match_url doc) match_id)).
    intros p Hp. apply upsert_team_info_others. intros r Hr.
    apply Hp, elem_of_app in Hr as [Hr|Hr]; by eapply team_info_rows_match. }
  assert (Hm2 : matches (db c2) = matches (db c1)).
  { revert Hinfo. apply frames_execute_values_if_any. eauto with frames. }
  assert (Hsame3 : other_matches_same (match_url doc) match_id (db c2) (db c3)).
  { revert Hstats.
    apply (preserves_execute_values_if_any
             (other_matches_same (match_url doc) match_id)).
    intros p Hp. apply upsert_rider_stats_others. intros r Hr.
    apply Hp, elem_of_app in Hr as [Hr|Hr]; by eapply rider_stat_rows_match. }
  assert (Hm3 : matches (db c3) = matches (db c2)).
  { revert Hstats. apply frames_execute_values_if_any. eauto with frames. }
  pose proof (process_heats_match_tables _ _ _ _ _ _ _ _ _ Hrun) as Htables.
  unfold match_tables in Htables. injection Htables as Hm4 Hi4 Hs4.
  destruct (process_heats_positions _ _ _ _ _ _ _ _ Hrun) as [_ Hframe].
  assert (Hsame4 : other_matches_same (match_url doc) match_id (db c3) (db c')).
  { split; [by rewrite Hm4|]. split; [by rewrite Hi4|].
    split; [by rewrite Hs4|]. intros k Hk. apply Hframe.
    intros i h _ _ ->. by apply Hk. }
  exists match_id. split; [by rewrite Hm4, Hm3, Hm2|].
  split.
  { intros id f Hc. apply (Hstable id f). by rewrite Hm0. }
  assert (Hsame0 : other_matches_same (match_url doc) match_id (db c) (db cb)).
  { split; [by rewrite Hm0|]. split; [by rewrite Hi0|].
    split; [by rewrite Hs0|]. by rewrite Hh0. }
  etrans; [exact Hsame0|]. etrans; [exact Hsame1|].
  etrans; [exact Hsame2|]. etrans; [exact Hsame3|exact Hsame4].
Qed.

Lemma load_leaves_other_matches_alone_witness :
  let doc := sample_document [sample_heat (Some "1")] in
  let c := clean (H := sample_runtime) renamed_team_db in
  let c' := (transform_document doc c).2 in
  ∃ match_id,
    fst <$> matches (db c') !! match_url doc = Some match_id
    ∧ (∀ id f, matches (db c) !! match_url doc = Some (id, f) → id = match_id)
    ∧ other_matches_same (match_url doc) match_id (db c) (db c').
Proof.
  intros doc c.
  assert (Hok : (transform_document doc c).1 = inr ())
    by (vm_compute; reflexivity).
  destruct (transform_document doc c) as [[e|[]] c'] eqn:Hrun; [done|].
  exact (load_leaves_other_matches_alone (H := sample_runtime) doc c c' Hrun).
Defined.

(** X7. The loop over the files loses no file and duplicates none: the
    files left in the inbound directory and the files moved to the
    processed one are, together, the files the loop was given, each list in
    the order of the listing; and a file is moved only if it held a JSON
    document and its move succeeded, so a file that is missing, is not
    JSON, or cannot be moved stays in the inbound directory. *)
Theorem every_file_ends_in_one_directory `{PyRuntime}
    (files : list (string * FileContent * bool)) (d : DB) (fl : list bool) :
  let inbound := (transform_and_load files d fl).1.2 in
  let processed := (transform_and_load files d fl).2 in
  inbound ++ processed ≡ₚ files.*1.*1
  ∧ inbound `sublist_of` files.*1.*1
  ∧ processed `sublist_of` files.*1.*1
  ∧ processed `sublist_of`
      (filter (λ f, is_json f.1.2 = true ∧ f.2 = true) files).*1.*1.
Proof.
  revert d fl. induction files as [|[[filename content] move_ok] rest IH];
    intros d fl; [done|].
  cbn [transform_and_load].
  specialize (IH (fo_db (transform_file content move_ok d fl))
                 (fo_faults (transform_file content move_ok d fl))).
  assert (Hmoved : fo_moved (transform_file content move_ok d fl) = true →
                   ∃ doc, content = FileJson doc ∧ move_ok = true).
  { unfold transform_file. destruct content as [| |doc]; [done..|].
    destruct ((_ ← transform_document doc; commit d) _) as [[e|[]] c];
      simpl; [done|]. eauto. }
  destruct (transform_and_load rest _ _) as [[d' inbound] processed].
  simpl in IH. destruct IH as (Hperm & Hin & Hproc & Hjson).
  rewrite !fmap_cons. simpl.
  destruct (fo_moved _) eqn:Hm; simpl.
  - destruct (Hmoved eq_refl) as (doc & -> & ->).
    split; [by rewrite <- Hperm, Permutation_middle|].
    split; [by apply sublist_cons|]. split; [by apply sublist_skip|].
    rewrite filter_cons_True by done.
    rewrite !fmap_cons. by apply sublist_skip.
  - split; [by rewrite <- Hperm|].
    split; [by apply sublist_skip|]. split; [by apply sublist_cons|].
    rewrite filter_cons. case_decide; [|done].
    rewrite !fmap_cons. by apply sublist_cons.
Qed.

(** X8. Heat participants are riders of the lineups. With the map the loop
    over the two lineups has built, an entry of a heat's [riders] yields a
    row of [heat_participants] exactly when its rider name is in the map
    and the rider has a row of [match_rider_stats] in this match; the row
    is keyed by the heat and that stat row; and the name is then the
    (non-blank) name of a rider of the lineups. An entry whose rider is not
    in the lineups is skipped. *)
Theorem participants_are_lineup_riders `{PyRuntime} (rs : list RiderData)
    (c c' : Conn) (m : gmap string Z) (match_id heat_id : Z)
    (stat_map : gmap (Z * Z) Z) (tl : list RiderTelemetry) (label : string)
    (p : ParticipantData) :
  resolve_riders rs ∅ c = (inr m, c') →
  (is_Some (participant_row match_id heat_id m stat_map tl label p)
   ↔ ∃ name rider_id, pt_rider p = Some name ∧ m !! name = Some rider_id
       ∧ is_Some (stat_map !! (match_id, rider_id)))
  ∧ (∀ k row,
       participant_row match_id heat_id m stat_map tl label p = Some (k, row) →
       k.1 = heat_id
       ∧ ∃ r rider_id, r ∈ rs ∧ pt_rider p = Some (rd_name r)
           ∧ blank (rd_name r) = false
           ∧ m !! rd_name r = Some rider_id
           ∧ stat_map !! (match_id, rider_id) = Some k.2).
Proof.
  intros Hrun. split; [split|].
  - intros [[k row] Hrow].
    apply participant_row_inv in Hrow as (_ & name & id & ? & ? & _ & Hs).
    exists name, id. rewrite Hs. eauto.
  - intros (name & id & Hname & Hid & [stat_id Hstat]).
    destruct (resolve_riders_names _ _ _ _ _ Hrun name id Hid)
      as [Hempty|(r & _ & _ & _ & Hnz)]; [by rewrite lookup_empty in Hempty|].
    destruct (participant_row_resolved match_id heat_id m stat_map tl label p
                name id stat_id Hname Hid Hnz Hstat) as (row & -> & _).
    eauto.
  - intros k row Hrow.
    apply participant_row_inv in Hrow as (Hk & name & id & Hname & Hid & _ & Hs).
    split; [done|].
    destruct (resolve_riders_names _ _ _ _ _ Hrun name id Hid)
      as [Hempty|(r & Hr & <- & Hb & _)]; [by rewrite lookup_empty in Hempty|].
    exists r, id. eauto.
Qed.

Lemma participants_are_lineup_riders_witness :
  let rs := [sample_rider "Jan Kowalski"; sample_rider "Adam Nowak"] in
  let c := clean (H := sample_runtime) empty_db in
  let m := {[ "Jan Kowalski" := 1%Z; "Adam Nowak" := 2%Z ]} in
  let stat_map := {[ (1%Z, 1%Z) := 5%Z ]} in
  let p := sample_participant "Jan Kowalski" "3" in
  (is_Some (participant_row (H := sample_runtime) 1 7 m stat_map [] "1" p)
   ↔ ∃ name rider_id, pt_rider p = Some name ∧ m !! name = Some rider_id
       ∧ is_Some (stat_map !! (1%Z, rider_id)))
  ∧ (∀ k row,
       participant_row (H := sample_runtime) 1 7 m stat_map [] "1" p
       = Some (k, row) →
       k.1 = 7%Z
       ∧ ∃ r rider_id, r ∈ rs ∧ pt_rider p = Some (rd_name r)
           ∧ blank (rd_name r) = false
           ∧ m !! rd_name r = Some rider_id
           ∧ stat_map !! (1%Z, rider_id) = Some k.2).
Proof.
  intros rs c m stat_map p.
  assert (Hm : (resolve_riders rs ∅ c).1 = inr m) by (vm_compute; reflexivity).
  destruct (resolve_riders rs ∅ c) as [r c'] eqn:Hrun. simpl in Hm. subst r.
  exact (participants_are_lineup_riders (H := sample_runtime) rs c c' m 1 7
           stat_map [] "1" p Hrun).
Defined.

(** X9. An error that [get_or_create_id] swallows still costs the document
    its load. When the store fails the INSERT of a key the table does not
    hold, [get_or_create_id] logs the error and answers [None] instead of
    raising, but the transaction has failed; for the arena of a document,
    every later statement of the load is refused, the load raises at the
    latest at the upsert of the match, and the file ends rolled back: the
    store is what it was, and the file stays in the inbound directory. *)
Theorem swallowed_insert_error_fails_the_load `{PyRuntime} (t : Lookup)
    (doc : Document) (move_ok : bool) (v : string) (d : DB) (fl : list bool) :
  blank v = false →
  lt_rows (lookup_table t d) !! v = None →
  get_or_create_id t (Some v) (mkConn d false (false :: true :: fl))
  = (inr None, mkConn d true fl)
  ∧ (t = Arenas → arena doc = Some v →
     let o := transform_file (FileJson doc) move_ok d (false :: true :: fl) in
     (∃ e, fo_result o = inl e) ∧ fo_db o = d ∧ fo_moved o = false).
Proof.
  intros Hb Hrow. split; [by apply get_or_create_id_swallows|].
  intros -> Harena o. subst o. unfold transform_file. rewrite bind_unfold.
  destruct (transform_document doc _) as [[e|[]] c] eqn:Hrun; [simpl; eauto|].
  exfalso. unfold transform_document in Hrun. rewrite Harena in Hrun.
  rewrite bind_unfold, get_or_create_id_swallows in Hrun by done.
  destruct (transform_document_failed (with_arena None doc)
              (mkConn d true fl) (inr ()) c eq_refl) as [e He]; [|done].
  exact Hrun.
Qed.

Lemma swallowed_insert_error_fails_the_load_witness :
  let doc := sample_document [sample_heat (Some "1")] in
  get_or_create_id (H := sample_runtime) Arenas (Some "Arena")
    (mkConn empty_db false [false; true])
  = (inr None, mkConn empty_db true [])
  ∧ (Arenas = Arenas → arena doc = Some "Arena" →
     let o := transform_file (H := sample_runtime) (FileJson doc) true
                empty_db [false; true] in
     (∃ e, fo_result o = inl e) ∧ fo_db o = empty_db ∧ fo_moved o = false).
Proof.
  intros doc.
  apply (swallowed_insert_error_fails_the_load (H := sample_runtime) Arenas
           doc true "Arena" empty_db []); reflexivity.
Defined.

(** X10. [parse_telemetry_value] drops the unit. For a value made of a
    non-empty text without whitespace followed by one of the units " s",
    " m" and " km/h", the result is what [float] makes of the text alone;
    an absent, empty or blank value gives [None]. *)
Theorem telemetry_value_drops_its_unit `{PyRuntime} (n unit : string) :
  unit ∈ [" s"; " m"; " km/h"] →
  n ≠ "" →
  Forall (λ c, is_space c = false) (chars n) →
  parse_telemetry_value (Some (n +:+ unit)) = float_of_str n
  ∧ parse_telemetry_value None = None
  ∧ (∀ s, blank s = true → parse_telemetry_value (Some s) = None).
Proof.
  intros Hunit Hn Hsolid. split; [|split; [done|]].
  2:{ intros s Hs. unfold parse_telemetry_value. by rewrite Hs. }
  unfold parse_telemetry_value.
  assert (Hblank : blank (n +:+ unit) = false).
  { destruct n as [|c n]; [done|].
    apply Forall_cons in Hsolid as [Hc _].
    assert (∃ us u, chars unit = us ++ [u] ∧ is_space u = false)
      as (us & u & Hus & Hu).
    { repeat (apply elem_of_cons in Hunit as [->|Hunit]);
        [by exists [" "%char], "s"%char
        |by exists [" "%char], "m"%char
        |by exists (chars " km/"), "h"%char
        |by apply elem_of_nil in Hunit]. }
    unfold blank, py_strip. rewrite chars_app, Hus.
    change (chars (String c n)) with (c :: chars n).
    rewrite <- app_comm_cons, app_assoc, strip_chars_ends by done.
    done. }
  rewrite Hblank. unfold py_remove. rewrite !chars_str, chars_app.
  rewrite remove_units by done.
  unfold py_strip. rewrite chars_str, strip_chars_solid by done.
  by rewrite str_chars.
Qed.

Lemma telemetry_value_drops_its_unit_witness :
  parse_telemetry_value (H := sample_runtime) (Some ("61.843" +:+ " s"))
  = float_of_str "61.843"
  ∧ parse_telemetry_value (H := sample_runtime) None = None
  ∧ (∀ s, blank s = true →
          parse_telemetry_value (H := sample_runtime) (Some s) = None).
Proof.
  apply (telemetry_value_drops_its_unit (H := sample_runtime) "61.843" " s").
  - by left.
  - done.
  - by repeat constructor.
Defined.



(** X18. The serial keys stay sound. On a store where the keys of [teams]
    are distinct and below the sequence of the table, and likewise the keys
    of [heats], the loop leaves a store where they still are, whatever the
    files of the inbound directory hold and whichever statements the store
    fails. The empty store is such a store, so every store the loop builds
    from it is one. *)
Theorem load_keeps_serial_keys_sound `{PyRuntime}
    (files : list (string * FileContent * bool)) (d : DB) (fl : list bool) :
  teams_wf d → heats_wf d →
  teams_wf (transform_and_load files d fl).1.1
  ∧ heats_wf (transform_and_load files d fl).1.1.
Proof.
  intros Ht Hh.
  enough (serial_keys_kept d (transform_and_load files d fl).1.1)
    as [? ?] by eauto.
  clear Ht Hh.
  revert d fl. induction files as [|[[filename content] move_ok] rest IH];
    intros d fl; [done|].
  cbn [transform_and_load].
  assert (Hfile : serial_keys_kept d
                    (fo_db (transform_file content move_ok d fl))).
  { unfold transform_file. destruct content as [| |doc]; [done..|].
    rewrite bind_unfold.
    destruct (transform_document doc (mkConn d false fl)) as [[e|[]] c]
      eqn:Hrun; [done|].
    apply transform_document_sound in Hrun. simpl in Hrun.
    unfold commit. destruct (faults c) as [|[] fs]; simpl; [|done|];
      by destruct (txn_failed c). }
  specialize (IH (fo_db (transform_file content move_ok d fl))
                 (fo_faults (transform_file content move_ok d fl))).
  destruct (transform_and_load rest _ _) as [[d' inbound] processed].
  destruct (fo_moved _); simpl in *; by etrans.
Qed.

Lemma load_keeps_serial_keys_sound_witness :
  let files := [("a.json", FileJson (sample_document [sample_heat (Some "1")]),
                 true)] in
  let d := renamed_team_db in
  teams_wf (transform_and_load (H := sample_runtime) files d []).1.1
  ∧ heats_wf (transform_and_load (H := sample_runtime) files d []).1.1.
Proof.
  intros files d.
  apply (load_keeps_serial_keys_sound (H := sample_runtime) files d []).
  - split.
    + vm_compute. repeat constructor. by intros ?%elem_of_nil.
    + vm_compute. repeat constructor.
  - split.
    + intros k id f. unfold d, renamed_team_db. simpl.
      by rewrite lookup_empty.
    + intros k1 k2 id f1 f2. unfold d, renamed_team_db. simpl.
      by rewrite lookup_empty.
Defined.

(* ===================================================================== *)
(** ** Further properties of the schedule spider *)
(* ===================================================================== *)

(** X11. A completion delivered twice is ignored the second time. Whatever
    the tracker holds, running the callback of a match page again right
    after it has run for the same response leaves the tracker as the first
    run left it, enters no completion branch and issues no [is_scraped]
    write: the URL is no longer pending, and the [KeyError] of
    [set.remove] is only logged. *)
Theorem repeated_completion_is_ignored (s : ScheduleSpider) (r : Response) :
  let first := parse_match_details s r in
  let second := parse_match_details first.1.1 r in
  second.1.1 = first.1.1
  ∧ (∀ b, LogAllCompleted b ∉ second.1.2)
  ∧ (∀ b, ExecUpdateIsScraped b ∉ second.1.2).
Proof.
  unfold parse_match_details.
  destruct (truthy_opt (meta_starting_url r)) eqn:Hu; simpl.
  2:{ split; [done|]. split; intros b; set_solver. }
  destruct (finally_block_twice s (default "" (meta_starting_url r))
              (meta_match_url r)) as (w & Hagain & Hw1 & Hw2).
  destruct (finally_block s _ _) as [s1 out1]. simpl in *.
  rewrite Hagain. simpl. split; [done|].
  split; intros b ?%list_elem_of_singleton; [by eapply Hw1|by eapply Hw2].
Qed.

(** X12. A batch completes once for every child that finishes before the
    next one is registered. After [start_requests] has opened the batch
    [b], if each match link of its schedule page is registered and its
    callback runs before the next link is registered, the pending set is
    empty after each of these callbacks, and the completion branch is
    entered once per child; for a past season on an open connection the
    [is_scraped] write is issued as often. *)
Theorem batch_completes_after_every_early_child (s : ScheduleSpider)
    (b : string) (cur : option bool) (children : list string)
    (raises : bool) :
  truthy b = true →
  Forall (λ c, truthy c = true) children →
  let evs := children ≫= λ c,
               [Register b c; MatchDetails (mkResponse (Some b) c raises)] in
  let final := crawl_run (start_request s b cur) evs in
  fired b final.2 = length children
  ∧ pending_match_requests final.1 !! b = Some ∅
  ∧ (cur = Some false → db_connected s = true →
     length (filter (λ e, e = ExecUpdateIsScraped b) final.2)
     = length children).
Proof.
  intros Hb Hchildren evs final. subst evs final.
  assert (Hgen : ∀ s0, pending_match_requests s0 !! b = Some ∅ →
    let final := crawl_run s0
                   (children ≫= λ c, [Register b c;
                      MatchDetails (mkResponse (Some b) c raises)]) in
    fired b final.2 = length children
    ∧ pending_match_requests final.1 !! b = Some ∅
    ∧ start_url_meta final.1 = start_url_meta s0
    ∧ db_connected final.1 = db_connected s0
    ∧ (start_url_meta s0 !! b = Some (Some false) → db_connected s0 = true →
       length (filter (λ e, e = ExecUpdateIsScraped b) final.2)
       = length children)).
  { induction Hchildren as [|c children Hc _ IH]; intros s0 Hs0.
    { simpl. by repeat split. }
    cbn zeta. change ((c :: children) ≫= _)
      with ([Register b c; MatchDetails (mkResponse (Some b) c raises)]
            ++ (children ≫= λ c0, [Register b c0;
                  MatchDetails (mkResponse (Some b) c0 raises)])).
    rewrite run_app. cbn [fst snd].
    destruct (early_child_step s0 b c raises Hb Hc Hs0)
      as (Hout & Hs1 & Hmeta1 & Hconn1). cbn zeta in *.
    destruct (IH _ Hs1) as (Hfired & Hpending & Hmeta & Hconn & Hmarks).
    cbn zeta in *. rewrite Hout.
    split; [|split; [done|split; [congruence|split; [congruence|]]]].
    - rewrite fired_app, Hfired, batch_completed_fired.
      by rewrite decide_True.
    - intros Hflag Hdb. rewrite filter_app, length_app.
      rewrite Hmarks by congruence. unfold batch_completed.
      rewrite Hflag. cbn [default from_option id]. rewrite Hdb.
      rewrite filter_cons_False by done.
      by rewrite filter_cons_True. }
  destruct (Hgen (start_request s b cur)) as (Hf & Hp & _ & _ & Hm).
  { cbn [start_request pending_match_requests]. by rewrite lookup_insert_eq. }
  split; [done|]. split; [done|]. intros -> Hdb. apply Hm; [|done].
  cbn [start_request start_url_meta]. by rewrite lookup_insert_eq.
Qed.

Lemma batch_completes_after_every_early_child_witness :
  let s := mkSpider ∅ ∅ true in
  let children := ["https://ekstraliga.pl/se/mecz/1234";
                   "https://ekstraliga.pl/se/mecz/1235"] in
  let evs := children ≫= λ c,
               [Register "season" c;
                MatchDetails (mkResponse (Some "season") c false)] in
  let final := crawl_run (start_request s "season" (Some false)) evs in
  fired "season" final.2 = length children
  ∧ pending_match_requests final.1 !! "season" = Some ∅
  ∧ (Some false = Some false → db_connected s = true →
     length (filter (λ e, e = ExecUpdateIsScraped "season") final.2)
     = length children).
Proof.
  intros s children.
  apply (batch_completes_after_every_early_child s "season" (Some false)
           children false).
  - done.
  - by repeat constructor.
Defined.




(** X15. Pages whose documents the loader always rejects. The document the
    spider compiles from a page without two lineups (it writes the text
    "Not available" for both teams), from a page with fewer than two score
    elements (null match scores), or from a page with a race block that has
    a number in its header but not exactly four score cells (null heat
    scores) raises in the load whatever the store holds or fails: the
    transaction is rolled back, and the file stays in the inbound
    directory. *)
Theorem scraped_page_the_loader_rejects `{PyRuntime} (url : string)
    (attendance : option string) (page : MatchPage) (move_ok : bool)
    (d : DB) (fl : list bool) :
  has_lineups page = false
  ∨ (length (mp_score_elements page) < 2)%nat
  ∨ Exists block_lacks_scores (mp_race_blocks page) →
  let o := transform_file (FileJson (match_data url attendance page))
             move_ok d fl in
  (∃ e, fo_result o = inl e) ∧ fo_db o = d ∧ fo_moved o = false.
Proof.
  intros Hbad o. subst o. unfold transform_file. rewrite bind_unfold.
  destruct (transform_document _ (mkConn d false fl)) as [[e|[]] c] eqn:Hrun;
    [simpl; eauto|].
  exfalso.
  apply transform_document_inr_shape in Hrun
    as (Ht1 & _ & [s1 Hs1] & _ & Hheats).
  destruct (match_data_fields url attendance page)
    as (Hteam1 & _ & _ & _ & Hscore & _).
  destruct Hbad as [Hlineups|[Hscores|Hblock]].
  - rewrite Hteam1, team_lineups_none in Ht1 by done. by eapply Ht1.
  - apply pick_sides_none in Hscores. congruence.
  - rewrite match_data_heats in Hheats.
    apply block_lacks_scores_heat, Exists_exists in Hblock
      as (h & Hin & Hlacks).
    rewrite Forall_forall in Hheats. by eapply Hheats.
Qed.

Lemma scraped_page_the_loader_rejects_witness :
  let page := sample_page [sample_race_block ["Bieg"; "1"] [Some "3"; Some "3"]]
  in
  let o := transform_file (H := sample_runtime)
             (FileJson (match_data "https://ekstraliga.pl/se/mecz/1234"
                          (Some "5000") page))
             true empty_db [] in
  (∃ e, fo_result o = inl e) ∧ fo_db o = empty_db ∧ fo_moved o = false.
Proof.
  intros page.
  apply (scraped_page_the_loader_rejects (H := sample_runtime)
           "https://ekstraliga.pl/se/mecz/1234" (Some "5000") page true
           empty_db []).
  right. right. apply Exists_cons_hd. split; [by eexists|simpl; lia].
Defined.


(** X19. A schedule page leaves pending exactly what it requests. For a
    batch that [start_requests] has opened, the registrations of a schedule
    page, run one after the other, add
    to the pending set of the batch the URL of every request the page
    yields (a container whose link matches the pattern, unless the store is
    connected and already holds the URL) and nothing else, and nothing is
    logged; for a batch that was never opened the first registration logs a
    warning and opens it. The sets of the other batches and the season
    flags are untouched, and a page that requests nothing leaves the
    tracker as it is. *)
Theorem schedule_page_registers_its_requests (s : ScheduleSpider)
    (b : string) (containers : list Container) :
  truthy b = true →
  let requested := omap (container_request (db_connected s)) containers in
  let final := crawl_run s (parse s (Some b) containers) in
  (∀ P, pending_match_requests s !! b = Some P →
     pending_match_requests final.1 !! b = Some (P ∪ list_to_set requested)
     ∧ final.2 = [])
  ∧ (pending_match_requests s !! b = None →
     ∀ m rest, requested = m :: rest →
       pending_match_requests final.1 !! b = Some (list_to_set requested)
       ∧ final.2 = [WarnInitializing b m])
  ∧ (∀ u, u ≠ b → pending_match_requests final.1 !! u
                  = pending_match_requests s !! u)
  ∧ start_url_meta final.1 = start_url_meta s
  ∧ (requested = [] → final = (s, [])).
Proof.
  intros Hb requested final. unfold final. rewrite parse_events by done.
  fold requested. split_and!.
  - intros P HP. rewrite (run_registers _ _ _ P) by done. simpl.
    by rewrite lookup_insert_eq.
  - intros Hnone m rest ->. rewrite fmap_cons, run_cons.
    cbn [crawl_step]. unfold register_match. rewrite Hnone.
    rewrite (run_registers _ _ _ {[m]}) by (simpl; apply lookup_insert_eq).
    simpl. rewrite lookup_insert_eq. split; [|done]. f_equal; set_solver.
  - intros u Hu. destruct (pending_match_requests s !! b) as [P|] eqn:HP.
    + rewrite (run_registers _ _ _ P) by done. simpl.
      by rewrite lookup_insert_ne.
    + destruct requested as [|m rest]; [done|].
      rewrite fmap_cons, run_cons. cbn [crawl_step].
      unfold register_match. rewrite HP.
      rewrite (run_registers _ _ _ {[m]})
        by (simpl; apply lookup_insert_eq).
      simpl. by rewrite !lookup_insert_ne.
  - destruct (pending_match_requests s !! b) as [P|] eqn:HP.
    + by rewrite (run_registers _ _ _ P).
    + destruct requested as [|m rest]; [done|].
      rewrite fmap_cons, run_cons. cbn [crawl_step].
      unfold register_match. rewrite HP.
      by rewrite (run_registers _ _ _ {[m]})
        by (simpl; apply lookup_insert_eq).
  - by intros ->.
Qed.

Lemma schedule_page_registers_its_requests_witness :
  let s := start_request (mkSpider ∅ ∅ true) "s/2023" (Some false) in
  let containers := [mkContainer (Some "m/1") RowNotFound;
                     mkContainer (Some "m/2") RowFound;
                     mkContainer None RowNotFound;
                     mkContainer (Some "m/3") CheckRaised] in
  let final := crawl_run s (parse s (Some "s/2023") containers) in
  pending_match_requests final.1 !! "s/2023"
  = Some (∅ ∪ list_to_set ["m/1"; "m/3"])
  ∧ final.2 = [].
Proof.
  intros s containers final.
  apply (schedule_page_registers_its_requests s "s/2023" containers).
  - reflexivity.
  - reflexivity.
Defined.

